(** * transparent-work-queue: a model of [workqueue.js] and its properties

    The queue of [workqueue.js] is promise code: every private method returns
    a promise and the public entry points fire chains of [.then]/[.catch]
    reactions.  The model keeps that structure.

    - JavaScript values are the inductive [value]; a function object is
      [VFun id] and what it does when called is given by a [program], indexed
      by how often it has been called before (user callbacks are closures
      with state of their own).
    - A pending promise chain is a [proc]: a settled promise whose reactions
      have not run yet, a promise that never settles, [Then p k] for
      [p.then(..).catch(..)] with the pair of handlers named by the
      continuation [k], and [All ps] for [Promise.all].
    - One reaction ([run_kont]) is one atomic block of JavaScript; the
      scheduler ([step], [exec]) may run any ready reaction next, which
      covers every order the event loop can choose, and every delay of a
      user promise.
    - The methods themselves are functions in the state monad [M] over the
      [world]: the queue object, the pending chains, the pending
      [setImmediate] calls and the history of observable events. *)

From Stdlib Require Import ZArith QArith Lqa Lia List String Bool.
From stdpp Require Import base option list gmap strings.
Import ListNotations.

Local Open Scope string_scope.
Local Open Scope list_scope.

(** ** JavaScript values *)

(** Numbers: the code only compares them, so a number is a rational, an
    infinity or NaN. *)
Inductive number :=
| NaN
| NegInf
| Fin (q : Q)
| PosInf.

(** [a < b] on numbers; any comparison with NaN is false. *)
Definition num_lt (a b : number) : bool :=
  match a, b with
  | NaN, _ | _, NaN => false
  | _, NegInf => false
  | NegInf, _ => true
  | PosInf, _ => false
  | Fin _, PosInf => true
  | Fin x, Fin y => negb (Qle_bool y x)
  end.

(** [a <= b] on numbers. *)
Definition num_le (a b : number) : bool :=
  match a, b with
  | NaN, _ | _, NaN => false
  | NegInf, _ => true
  | _, PosInf => true
  | _, NegInf => false
  | PosInf, _ => false
  | Fin x, Fin y => Qle_bool x y
  end.

Definition is_NaN (a : number) : bool :=
  match a with NaN => true | _ => false end.

Definition num_of_Z (z : Z) : number := Fin (inject_Z z).

(** Identity of a function object. *)
Definition fnid := nat.

(** How a promise (a thenable) eventually settles. *)
Inductive fate := Resolves | Rejects | NeverSettles.

Inductive value :=
| VUndefined
| VNull
| VBool (b : bool)
| VNum (n : number)
| VStr (s : string)
| VFun (f : fnid)
(** an [Error] instance; [wq] tells a [WorkQueueError] from another [Error];
    [message] is the constructor's argument *)
| VError (wq : bool) (message : value) (source : value)
(** a [WorkQueueHaltData] *)
| VHaltData (reason : value) (error : value) (callback : value)
(** a promise, with the way it will settle *)
| VPromise (f : fate) (v : value)
(** the object [{nextItemPromise: p}] *)
| VWrapper (nextItemPromise : value)
(** any other object *)
| VObject (id : nat).

(** [undefined === v || null === v] *)
Definition is_nullish (v : value) : bool :=
  match v with VUndefined | VNull => true | _ => false end.

(** [typeof v === 'function'] *)
Definition is_function (v : value) : bool :=
  match v with VFun _ => true | _ => false end.

(** [false === v] *)
Definition is_false (v : value) : bool :=
  match v with VBool false => true | _ => false end.

(** [s === v] for a string constant [s] *)
Definition is_str (s : string) (v : value) : bool :=
  match v with VStr s' => String.eqb s s' | _ => false end.

(** [v instanceof Error] *)
Definition is_Error (v : value) : bool :=
  match v with VError _ _ _ => true | _ => false end.

(** [undefined !== v && null !== v && typeof v.then === 'function'] *)
Definition is_thenable (v : value) : bool :=
  match v with VPromise _ _ => true | _ => false end.

Section Numbers.

(** The runtime's conversion of a string to a number. *)
Variable StringToNumber : string -> number.

(** [ToNumber], as [isNaN] and the relational operators apply it.  Every
    object of [value] converts to a string that is not a numeral. *)
Definition ToNumber (v : value) : number :=
  match v with
  | VUndefined => NaN
  | VNull => Fin 0
  | VBool true => Fin 1
  | VBool false => Fin 0
  | VNum n => n
  | VStr s => StringToNumber s
  | _ => NaN
  end.

(** [isNaN(v)] *)
Definition isNaN (v : value) : bool := is_NaN (ToNumber v).

End Numbers.

(** ** workQueueError.js, workQueueHaltData.js *)

Module ERROR_SOURCES.
Definition CALLBACK := "ERROR_SOURCE_CALLBACK".
Definition PROCESS := "ERROR_SOURCE_PROCESS".
Definition INTERNAL := "ERROR_SOURCE_INTERNAL".
Definition BADREQUEST := "ERROR_SOURCE_BADREQUEST".
End ERROR_SOURCES.

Module HALT_REASONS.
Definition CALLBACKRETVAL := "Callback returned false or HALT".
Definition ERRORCALLBACKERROR := "Error callback generated an error".
Definition PROCESSRETVAL := "Item processor returned false".
Definition INTERNAL := "Internal error".
End HALT_REASONS.

Module BEFORE_CALLBACK_VALS.
Definition HALT := "BEFORE_CALLBACK_VALS_HALT".
Definition CONTINUE := "BEFORE_CALLBACK_VALS_CONTINUE".
Definition SKIP := "BEFORE_CALLBACK_VALS_SKIP".
End BEFORE_CALLBACK_VALS.

(** [new WorkQueueError(message, source)] *)
Definition WorkQueueError (message source : value) : value :=
  match source with
  | VUndefined => VError true message (VStr ERROR_SOURCES.INTERNAL)
  | _ => VError true message source
  end.

(** [new WorkQueueHaltData({reason, error, callback})] *)
Definition WorkQueueHaltData (reason error callback : value) : value :=
  VHaltData reason error callback.

(** The idiom
    [if (!(ex instanceof Error)) ex = new WorkQueueError(ex); ex.source = src;] *)
Definition tag (src : string) (ex : value) : value :=
  match ex with
  | VError wq m _ => VError wq m (VStr src)
  | _ =>
      match WorkQueueError ex VUndefined with
      | VError wq m _ => VError wq m (VStr src)
      | e => e
      end
  end.

(** What calling something that is not a function throws. *)
Definition TypeError (message : string) : value :=
  VError false (VStr message) VUndefined.

(** ** User code *)

(** The public methods, as user code calls them. *)
Inductive api_call :=
| CAdd (item : value)
| CAddAll (items : list value)
| CClear
| CPause
| CResume
| COn (trigger : value) (callback : value).

(** How a call of a user function ends. *)
Inductive outcome :=
| Returns (v : value)
| Throws (ex : value).

(** One call of a user function: the queue methods it calls, in order, and
    then how it ends. *)
Record behaviour := Behaviour {
  effects : list api_call;
  result : outcome
}.

(** The user's functions: [prog f n arg] is what the [n+1]-st call of
    function [f], with argument [arg], does. *)
Definition program := fnid -> nat -> value -> behaviour.

(** ** Observable events *)

Inductive event :=
(** user function [f] is called with [arg]; [site] is the hook name, or
    ["item"] or ["processor"] *)
| EvCall (site : string) (f : fnid) (arg : value)
(** [_queue.push(item)] *)
| EvEnqueue (item : value)
(** [_queue.shift()] in [_retrieveNextPromise] *)
| EvDequeue (item : value)
(** [_queue = []] in [clear], with what was dropped *)
| EvClear (items : list value)
(** [_inProgressCount--] in [_processNextItemWrapper], for [item] *)
| EvComplete (item : value).

(** Number of calls of [f] so far. *)
Fixpoint calls_of (f : fnid) (l : list event) : nat :=
  match l with
  | [] => 0
  | EvCall _ g _ :: l' => (if Nat.eqb f g then 1 else 0) + calls_of f l'
  | _ :: l' => calls_of f l'
  end.

(** ** Promise chains *)

Inductive settled :=
| Res (v : value)
| Rej (err : value).

(** The reactions of the source: one constructor for each
    [.then(..).catch(..)] of [workqueue.js], with the variables its
    handlers close over. *)
Inductive kont :=
(** [_onHalted]: [callbackResult.then(..).catch(..)] *)
| KOnHalted
(** [_onError]: [Promise.resolve(callbackResult).then(..).catch(..)] *)
| KOnError
(** [_callHandler]: [Promise.resolve(callbackResult).then(..).catch(..)] *)
| KCallHandler (handlerName : string)
(** [.then(function () { resolve(); }).catch(function (err) { reject(err); })] *)
| KSettle
(** [.then(function () { resolve(callbackRetVal); }).catch(.. reject(err) ..)] *)
| KSettleWith (callbackRetVal : value)
(** [_halt]: [self._onHalted(reason).then(..).catch(..)] *)
| KHalt
(** [_halt]: [self._onError(err).then(..).catch(..).then(..)], all [resolve()] *)
| KGiveUp
(** [_retrieveNextPromise]: [self._onQueueSizeChange().then(..).catch(..)] *)
| KRetrieveSizeChanged (nextItem : value)
(** [_retrieveNextPromise]: [self._onBeforeItemProcessed().then(..).catch(..)] *)
| KRetrieveBefore (nextItem : value)
(** [_processNextItem]: [self._retrieveNextPromise().then(..).catch(..)] *)
| KProcessRetrieved
(** [_processNextItem]: [nextItemPromise.then(..).catch(..)] *)
| KProcessSettled
(** [_processNextItem]: [self._onItemProcessed(itemResult).then(..).catch(..)] *)
| KProcessItemProcessed (itemResult : value)
(** [_processNextItemWrapper]: [self._processNextItem().then(..).catch(..)];
    [item] is the item this wrapper was started for, kept for the history *)
| KWrapper (item : value)
(** [_evaluateQueue]: [self._processNextItemWrapper().then(..).catch(..)] *)
| KEvaluate
(** [add], [addAll], [clear], [pause], [resume]: the reaction to the hook's
    promise; [evaluate] tells whether the [then] handler calls
    [_evaluateQueue] *)
| KApi (evaluate : bool) (callback : string)
(** [self._onError(err).then(..).catch(..).then(function () { self._halt(..) })] *)
| KInternal (haltData : value)
(** [.then(function () {}).catch(function (err) {})] *)
| KIgnore.

#[warnings="-register-all"]
Inductive proc :=
(** a promise that is settled; its reactions have not run yet *)
| Settled (r : settled)
(** a promise that never settles *)
| Forever
(** [p.then(..).catch(..)] *)
| Then (p : proc) (k : kont)
(** [Promise.all(ps)] *)
| All (ps : list proc).

(** [Promise.resolve(v)]: a promise follows the thenable it is given; the
    time the thenable takes to settle is the time the scheduler takes to run
    the reaction. *)
Definition of_value (v : value) : proc :=
  match v with
  | VPromise Resolves x => Settled (Res x)
  | VPromise Rejects x => Settled (Rej x)
  | VPromise NeverSettles _ => Forever
  | _ => Settled (Res v)
  end.

(** ** The queue object and the world around it *)

Record Options := {
  concurrencyLimit : value;
  processor : value
}.

Record WorkQueue := {
  _options : Options;
  _queue : list value;
  _inProgressCount : Z;
  _callbacks : gmap string value;
  _halted : bool;
  _paused : bool
}.

Record world := {
  self : WorkQueue;
  (** promise chains nobody holds a reference to, but which still run *)
  pending : list proc;
  (** calls of [setImmediate(function () { self._evaluateQueue(); })] that
      have not run yet *)
  immediates : nat;
  (** what has happened, oldest first *)
  history : list event
}.

Definition with_self (f : WorkQueue -> WorkQueue) (w : world) : world :=
  {| self := f (self w); pending := pending w; immediates := immediates w;
     history := history w |}.

Definition set_queue (q : list value) (s : WorkQueue) : WorkQueue :=
  {| _options := _options s; _queue := q;
     _inProgressCount := _inProgressCount s; _callbacks := _callbacks s;
     _halted := _halted s; _paused := _paused s |}.

Definition set_inProgressCount (n : Z) (s : WorkQueue) : WorkQueue :=
  {| _options := _options s; _queue := _queue s;
     _inProgressCount := n; _callbacks := _callbacks s;
     _halted := _halted s; _paused := _paused s |}.

Definition set_callbacks (c : gmap string value) (s : WorkQueue) : WorkQueue :=
  {| _options := _options s; _queue := _queue s;
     _inProgressCount := _inProgressCount s; _callbacks := c;
     _halted := _halted s; _paused := _paused s |}.

Definition set_halted (b : bool) (s : WorkQueue) : WorkQueue :=
  {| _options := _options s; _queue := _queue s;
     _inProgressCount := _inProgressCount s; _callbacks := _callbacks s;
     _halted := b; _paused := _paused s |}.

Definition set_paused (b : bool) (s : WorkQueue) : WorkQueue :=
  {| _options := _options s; _queue := _queue s;
     _inProgressCount := _inProgressCount s; _callbacks := _callbacks s;
     _halted := _halted s; _paused := b |}.

Definition set_pending (ps : list proc) (w : world) : world :=
  {| self := self w; pending := ps; immediates := immediates w;
     history := history w |}.

Definition set_immediates (n : nat) (w : world) : world :=
  {| self := self w; pending := pending w; immediates := n;
     history := history w |}.

Definition set_history (h : list event) (w : world) : world :=
  {| self := self w; pending := pending w; immediates := immediates w;
     history := h |}.

(** ** The state monad of the methods *)

Definition M (A : Type) : Type := world -> A * world.

#[global] Instance M_ret : MRet M := fun A a w => (a, w).

#[global] Instance M_bind : MBind M :=
  fun A B k c w => let (a, w') := c w in k a w'.

Definition get : M world := fun w => (w, w).
Definition modify (f : world -> world) : M unit := fun w => (tt, f w).

(** Append to the history. *)
Definition emit (e : event) : M unit :=
  modify (fun w => set_history (history w ++ [e]) w).

(** The world with the call of [f] at [site] in its history. *)
Definition record_call (site : string) (f : fnid) (arg : value) (w : world) : world :=
  set_history (history w ++ [EvCall site f arg]) w.

(** A chain whose promise is dropped by the code that made it. *)
Definition detach (p : proc) : M unit :=
  modify (fun w => set_pending (pending w ++ [p]) w).

(** [setImmediate(function () { self._evaluateQueue(); })] *)
Definition setImmediate_evaluate : M unit :=
  modify (fun w => set_immediates (S (immediates w)) w).

(** [self._callbacks[name]], [None] when [undefined] or [null]. *)
Definition callback (name : string) : M (option value) :=
  fun w => (match _callbacks (self w) !! name with
            | Some v => if is_nullish v then None else Some v
            | None => None
            end, w).

(** [self.getQueueSize()] *)
Definition getQueueSize : M nat := fun w => (length (_queue (self w)), w).

(** [self._queue.push(...items)] *)
Definition push (items : list value) : M unit :=
  modify (fun w =>
    set_history (history w ++ map EvEnqueue items)
      (with_self (fun s => set_queue (_queue s ++ items) s) w)).

(** [self._queue.shift()]: [undefined] on an empty array. *)
Definition shift : M value :=
  fun w => match _queue (self w) with
           | [] => (VUndefined, w)
           | x :: q => (x, with_self (set_queue q) w)
           end.

(** [self._queue = []] *)
Definition clear_queue : M unit :=
  w ← get;
  emit (EvClear (_queue (self w)));;
  modify (with_self (set_queue [])).

(** [self._inProgressCount--] in the wrapper of [item], with its record in
    the history. *)
Definition retire (item : value) (w : world) : world :=
  set_history (history w ++ [EvComplete item])
    (with_self (fun s => set_inProgressCount (_inProgressCount s - 1)%Z s) w).

(** [if (test) { promises.push(hook()); }] *)
Definition push_if (test : bool) (hook : M proc) : M (list proc) :=
  if test then p ← hook; mret [p] else mret [].

(** What a method call completes with: a value, or an exception thrown to
    the caller. *)
Inductive completion (A : Type) :=
| Normal (a : A)
| Throw (ex : value).
Arguments Normal {A} a.
Arguments Throw {A} ex.

(** ** workqueue.js *)

Definition DEFAULT_CONCURRENCY_LIMIT : value := VNum (Fin 1).

Section Methods.

Variable StringToNumber : string -> number.
Variable prog : program.

(** The public methods as user code reaches them from inside one of its
    functions. *)
Variable reenter : api_call -> world -> world.

(** Call the function object [f] at [site]: the call is recorded, the user
    code runs (calling back into the queue as it does), and returns or
    throws. *)
Definition call (site : string) (f : value) (arg : value) : M outcome :=
  match f with
  | VFun id =>
      w ← get;
      let b := prog id (calls_of id (history w)) arg in
      emit (EvCall site id arg);;
      modify (fun w => fold_left (fun w c => reenter c w) (effects b) w);;
      mret (result b)
  | _ => mret (Throws (TypeError "not a function"))
  end.

Definition _validateOptions (options : option Options) : completion Options :=
  let options :=
    match options with
    | None => {| concurrencyLimit := VUndefined; processor := VUndefined |}
    | Some o => o
    end in
  let options :=
    if is_nullish (concurrencyLimit options)
    then {| concurrencyLimit := DEFAULT_CONCURRENCY_LIMIT;
            processor := processor options |}
    else options in
  if isNaN StringToNumber (concurrencyLimit options) then
    Throw (WorkQueueError (VStr "Invalid concurrency limit: must be numeric")
                          (VStr ERROR_SOURCES.BADREQUEST))
  else if num_lt (ToNumber StringToNumber (concurrencyLimit options)) (Fin 1) then
    Throw (WorkQueueError (VStr "Invalid concurrency limit: must be at least 1")
                          (VStr ERROR_SOURCES.BADREQUEST))
  else if negb (is_nullish (processor options))
          && negb (is_function (processor options)) then
    Throw (WorkQueueError (VStr "Invalid processor: must be a function")
                          (VStr ERROR_SOURCES.BADREQUEST))
  else Normal options.

(** [new WorkQueue(options)] *)
Definition constructor (options : option Options) : completion world :=
  match _validateOptions options with
  | Throw ex => Throw ex
  | Normal options =>
      Normal {| self := {| _options := options; _queue := [];
                           _inProgressCount := 0%Z; _callbacks := ∅;
                           _halted := false; _paused := false |};
                pending := []; immediates := 0; history := [] |}
  end.

Definition _onHalted (reason : value) : M proc :=
  cb ← callback "halted";
  match cb with
  | None => mret (Settled (Res VUndefined))
  | Some f =>
      r ← call "halted" f reason;
      match r with
      | Throws ex => mret (Settled (Rej (tag ERROR_SOURCES.CALLBACK ex)))
      | Returns callbackResult =>
          if is_thenable callbackResult
          then mret (Then (of_value callbackResult) KOnHalted)
          else mret (Settled (Res VUndefined))
      end
  end.

Definition _halt (reason : value) : M proc :=
  w ← get;
  if _halted (self w) then mret (Settled (Res VUndefined))
  else
    modify (with_self (set_halted true));;
    p ← _onHalted reason;
    mret (Then p KHalt).

Definition _onError (err : value) : M proc :=
  cb ← callback "error";
  match cb with
  | None => mret (Settled (Res VUndefined))
  | Some f =>
      r ← call "error" f err;
      match r with
      | Throws ex =>
          p ← _halt (WorkQueueHaltData (VStr HALT_REASONS.ERRORCALLBACKERROR)
                                       ex (VStr "error"));
          mret (Then p KSettle)
      | Returns callbackResult => mret (Then (of_value callbackResult) KOnError)
      end
  end.

Definition _callHandler (handlerName : string) (parameter : value) : M proc :=
  cb ← callback handlerName;
  match cb with
  | None => mret (Settled (Res VUndefined))
  | Some f =>
      r ← call handlerName f parameter;
      match r with
      | Throws ex =>
          p ← _onError (tag ERROR_SOURCES.CALLBACK ex);
          mret (Then p KSettle)
      | Returns callbackResult =>
          mret (Then (of_value callbackResult) (KCallHandler handlerName))
      end
  end.

Definition _onQueueSizeChange : M proc :=
  queueSize ← getQueueSize;
  p1 ← _callHandler "queueSizeChange" (VNum (num_of_Z (Z.of_nat queueSize)));
  if Nat.eqb 0 queueSize
  then p2 ← _callHandler "queueEmpty" VUndefined; mret (All [p1; p2])
  else mret (All [p1]).

Definition _onNoWork : M proc := _callHandler "noWork" VUndefined.
Definition _onItemProcessed (processResult : value) : M proc :=
  _callHandler "itemProcessed" processResult.
Definition _onBeforeItemProcessed : M proc :=
  _callHandler "beforeItemProcessed" VUndefined.
Definition _onPaused : M proc := _callHandler "paused" VUndefined.
Definition _onResumed : M proc := _callHandler "resumed" VUndefined.
Definition _onAfterHaltCompleted : M proc :=
  _callHandler "afterHaltCompleted" VUndefined.
Definition _onAfterPauseCompleted : M proc :=
  _callHandler "afterPauseCompleted" VUndefined.

Definition _retrieveNextPromise : M proc :=
  nextItem ← shift;
  modify (with_self (fun s => set_inProgressCount (_inProgressCount s + 1)%Z s));;
  emit (EvDequeue nextItem);;
  p ← _onQueueSizeChange;
  mret (Then p (KRetrieveSizeChanged nextItem)).

(** The [try] block of [_retrieveNextPromise] that launches the item, and
    its [catch]. *)
Definition launch (nextItem : value) : M proc :=
  r ← (if is_function nextItem then
         r ← call "item" nextItem VUndefined;
         match r with
         | Throws ex => mret (Throws (tag ERROR_SOURCES.PROCESS ex))
         | Returns v => mret (Returns v)
         end
       else
         w ← get;
         if is_nullish (processor (_options (self w))) then
           mret (Throws (WorkQueueError
             (VStr "Enqueued item is not a function, and processor was not defined")
             (VStr ERROR_SOURCES.BADREQUEST)))
         else
           r ← call "processor" (processor (_options (self w))) nextItem;
           match r with
           | Throws ex => mret (Throws (tag ERROR_SOURCES.PROCESS ex))
           | Returns v => mret (Returns v)
           end);
  match r with
  | Returns nextItemPromise =>
      if is_thenable nextItemPromise
      then mret (Settled (Res (VWrapper nextItemPromise)))
      else
        p ← _onError (WorkQueueError
               (VStr "Enqueued function did not return a Promise")
               (VStr ERROR_SOURCES.BADREQUEST));
        mret (Then p KSettle)
  | Throws ex =>
      p ← _onError ex;
      mret (Then p KSettle)
  end.

Definition _processNextItem : M proc :=
  p ← _retrieveNextPromise;
  mret (Then p KProcessRetrieved).

Definition _processNextItemWrapper : M proc :=
  w ← get;
  p ← _processNextItem;
  mret (Then p (KWrapper (hd VUndefined (_queue (self w))))).

(** The [try] of the source has nothing to catch here: no step of the body
    throws. *)
Definition _evaluateQueue : M unit :=
  w ← get;
  if _halted (self w) || _paused (self w) then mret tt
  else if num_le (ToNumber StringToNumber (concurrencyLimit (_options (self w))))
                 (num_of_Z (_inProgressCount (self w))) then mret tt
  else if Nat.eqb 0 (length (_queue (self w))) then mret tt
  else
    p ← _processNextItemWrapper;
    detach (Then p KEvaluate);;
    setImmediate_evaluate.

(** The completion bookkeeping of [_processNextItemWrapper]: the checks for
    [afterHaltCompleted] and [afterPauseCompleted], and [Promise.all]. *)
Definition after_notices (promises : list proc) : M proc :=
  w ← get;
  p2 ← push_if (Z.eqb 0%Z (_inProgressCount (self w)) && _halted (self w))
               _onAfterHaltCompleted;
  w ← get;
  p3 ← push_if (Z.eqb 0%Z (_inProgressCount (self w)) && _paused (self w))
               _onAfterPauseCompleted;
  mret (Then (All (promises ++ p2 ++ p3)) KSettle).

(** The completion bookkeeping of [_processNextItemWrapper], from the
    decrement on. *)
Definition completed (item : value) : M proc :=
  modify (retire item);;
  w ← get;
  p1 ← push_if (Z.eqb 0%Z (_inProgressCount (self w))
                && Nat.eqb 0 (length (_queue (self w)))) _onNoWork;
  after_notices p1.

(** One reaction: the handlers of [k] applied to the way the promise they
    were attached to has settled. *)
Definition run_kont (k : kont) (r : settled) : M proc :=
  match k, r with
  | KOnHalted, Res _ => mret (Settled (Res VUndefined))
  | KOnHalted, Rej err => mret (Settled (Rej (tag ERROR_SOURCES.CALLBACK err)))
  | KOnError, Res errCallbackRetVal =>
      if is_false errCallbackRetVal then
        p ← _halt (WorkQueueHaltData (VStr HALT_REASONS.CALLBACKRETVAL)
                                     VUndefined (VStr "error"));
        mret (Then p KSettle)
      else mret (Settled (Res VUndefined))
  | KOnError, Rej err =>
      p ← _halt (WorkQueueHaltData (VStr HALT_REASONS.ERRORCALLBACKERROR)
                                   err (VStr "error"));
      mret (Then p KSettle)
  | KCallHandler handlerName, Res callbackRetVal =>
      if is_false callbackRetVal
         || is_str BEFORE_CALLBACK_VALS.HALT callbackRetVal then
        p ← _halt (WorkQueueHaltData (VStr HALT_REASONS.CALLBACKRETVAL)
                                     VUndefined (VStr handlerName));
        mret (Then p (KSettleWith callbackRetVal))
      else mret (Settled (Res callbackRetVal))
  | KCallHandler _, Rej err =>
      p ← _onError (tag ERROR_SOURCES.CALLBACK err);
      mret (Then p KSettle)
  | KSettle, Res _ => mret (Settled (Res VUndefined))
  | KSettle, Rej err => mret (Settled (Rej err))
  | KSettleWith v, Res _ => mret (Settled (Res v))
  | KSettleWith _, Rej err => mret (Settled (Rej err))
  | KHalt, Res _ => mret (Settled (Res VUndefined))
  | KHalt, Rej err => p ← _onError err; mret (Then p KGiveUp)
  | KGiveUp, _ => mret (Settled (Res VUndefined))
  | KRetrieveSizeChanged nextItem, Res _ =>
      p ← _onBeforeItemProcessed;
      mret (Then p (KRetrieveBefore nextItem))
  | KRetrieveSizeChanged _, Rej err => mret (Settled (Rej err))
  | KRetrieveBefore nextItem, Res beforeItemCallbackResult =>
      if is_str BEFORE_CALLBACK_VALS.SKIP beforeItemCallbackResult
         || is_str BEFORE_CALLBACK_VALS.HALT beforeItemCallbackResult
         || is_false beforeItemCallbackResult
      then mret (Settled (Res VUndefined))
      else launch nextItem
  | KRetrieveBefore _, Rej err => mret (Settled (Rej err))
  | KProcessRetrieved, Res nextItemPromiseWrapper =>
      if is_nullish nextItemPromiseWrapper then mret (Settled (Res VUndefined))
      else
        match nextItemPromiseWrapper with
        | VWrapper nextItemPromise =>
            mret (Then (of_value nextItemPromise) KProcessSettled)
        | _ => mret (Settled (Rej (TypeError "then of undefined")))
        end
  | KProcessRetrieved, Rej err => mret (Settled (Rej err))
  | KProcessSettled, Res itemResult =>
      p ← _onItemProcessed itemResult;
      mret (Then p (KProcessItemProcessed itemResult))
  | KProcessSettled, Rej err =>
      p ← _onError (tag ERROR_SOURCES.PROCESS err);
      mret (Then p KSettle)
  | KProcessItemProcessed itemResult, Res _ =>
      if is_false itemResult then
        p ← _halt (WorkQueueHaltData (VStr HALT_REASONS.PROCESSRETVAL)
                                     VUndefined VUndefined);
        mret (Then p KSettle)
      else mret (Settled (Res VUndefined))
  | KProcessItemProcessed _, Rej err => mret (Settled (Rej err))
  | KWrapper item, Res _ => completed item
  | KWrapper _, Rej err => mret (Settled (Rej err))
  | KEvaluate, Res _ => setImmediate_evaluate;; mret (Settled (Res VUndefined))
  | KEvaluate, Rej err =>
      p ← _onError err;
      mret (Then p (KInternal (WorkQueueHaltData (VStr HALT_REASONS.INTERNAL)
                                                 err VUndefined)))
  | KApi evaluate _, Res _ =>
      (if evaluate then _evaluateQueue else mret tt);;
      mret (Settled (Res VUndefined))
  | KApi _ callback, Rej err =>
      p ← _onError err;
      mret (Then p (KInternal (WorkQueueHaltData (VStr HALT_REASONS.INTERNAL)
                                                 VUndefined (VStr callback))))
  | KInternal haltData, _ => p ← _halt haltData; mret (Then p KIgnore)
  | KIgnore, _ => mret (Settled (Res VUndefined))
  end.

(** *** The public methods *)

Definition add (item : value) (w : world) : completion world :=
  if is_nullish (processor (_options (self w))) && negb (is_function item)
  then Throw (WorkQueueError
         (VStr "Only functions may be added to the queue when no processor has been defined")
         (VStr ERROR_SOURCES.BADREQUEST))
  else Normal ((push [item];;
                p ← _onQueueSizeChange;
                detach (Then p (KApi true "queueSizeChange"))) w).2.

Definition addAll (items : list value) (w : world) : completion world :=
  Normal ((push items;;
           p ← _onQueueSizeChange;
           detach (Then p (KApi true "queueSizeChange"))) w).2.

Definition clear (w : world) : completion world :=
  Normal ((clear_queue;;
           p ← _onQueueSizeChange;
           detach (Then p (KApi false "queueSizeChange"))) w).2.

Definition getInProgressCount (w : world) : Z := _inProgressCount (self w).

Definition hasWork (w : world) : bool :=
  Nat.ltb 0 (length (_queue (self w))) || Z.ltb 0%Z (getInProgressCount w).

Definition pause (w : world) : completion world :=
  Normal ((modify (with_self (set_paused true));;
           p ← _onPaused;
           detach (Then p (KApi false "paused"))) w).2.

Definition resume (w : world) : completion world :=
  if negb (_paused (self w)) then Normal w
  else Normal ((modify (with_self (set_paused false));;
                p ← _onResumed;
                detach (Then p (KApi true "resumed"))) w).2.

Definition register (trigger : string) (callback : value) (w : world) : world :=
  with_self (fun s => set_callbacks (<[trigger := callback]> (_callbacks s)) s) w.

Definition on (trigger callback : value) (w : world) : completion world :=
  if is_nullish callback then
    Throw (WorkQueueError (VStr "Invalid callback specified")
                          (VStr ERROR_SOURCES.BADREQUEST))
  else if negb (is_function callback) then
    Throw (WorkQueueError (VStr "Callback must be a function")
                          (VStr ERROR_SOURCES.BADREQUEST))
  else if is_str "error" trigger then Normal (register "error" callback w)
  else if is_str "halted" trigger then Normal (register "halted" callback w)
  else if is_str "queueSizeChange" trigger then
    Normal (register "queueSizeChange" callback w)
  else if is_str "queueEmpty" trigger then Normal (register "queueEmpty" callback w)
  else if is_str "noWork" trigger then Normal (register "noWork" callback w)
  else if is_str "itemProcessed" trigger then
    Normal (register "itemProcessed" callback w)
  else if is_str "beforeItemProcessed" trigger then
    Normal (register "beforeItemProcessed" callback w)
  else if is_str "paused" trigger then Normal (register "paused" callback w)
  else if is_str "resumed" trigger then Normal (register "resumed" callback w)
  else if is_str "afterHaltCompleted" trigger then
    Normal (register "afterHaltCompleted" callback w)
  else if is_str "afterPauseCompleted" trigger then
    Normal (register "afterPauseCompleted" callback w)
  else
    Throw (WorkQueueError (VStr "Invalid trigger specified")
                          (VStr ERROR_SOURCES.BADREQUEST)).

Definition api (c : api_call) : world -> completion world :=
  match c with
  | CAdd item => add item
  | CAddAll items => addAll items
  | CClear => clear
  | CPause => pause
  | CResume => resume
  | COn trigger callback => on trigger callback
  end.

(** A method call made by user code: an exception goes to the caller and
    leaves the world as it was. *)
Definition invoke (c : api_call) (w : world) : world :=
  match api c w with
  | Normal w' => w'
  | Throw _ => w
  end.

End Methods.

(** ** The scheduler *)

(** [Promise.all]: rejected as soon as one promise is, resolved when all
    are.  The array of results is an object that no reaction reads. *)
Definition rejection (p : proc) : option value :=
  match p with Settled (Rej err) => Some err | _ => None end.

Definition is_resolved (p : proc) : bool :=
  match p with Settled (Res _) => true | _ => false end.

Definition is_settled (p : proc) : bool :=
  match p with Settled _ => true | _ => false end.

Fixpoint first_rejection (ps : list proc) : option value :=
  match ps with
  | [] => None
  | p :: ps' =>
      match rejection p with
      | Some err => Some err
      | None => first_rejection ps'
      end
  end.

Definition join (ps : list proc) : option settled :=
  match first_rejection ps with
  | Some err => Some (Rej err)
  | None => if forallb is_resolved ps then Some (Res (VObject 0)) else None
  end.

(** The chains that go on by themselves once [Promise.all] has rejected. *)
Definition unsettled (ps : list proc) : list proc :=
  filter (fun p => is_settled p = false) ps.

(** Step the [i]-th chain of [ps] with [f]. *)
Definition step_nth (f : proc -> world -> option (proc * world)) :
    list proc -> nat -> world -> option (list proc * world) :=
  fix go (ps : list proc) (i : nat) (w : world) : option (list proc * world) :=
    match ps, i with
    | [], _ => None
    | q :: ps', O =>
        match f q w with
        | Some (q', w') => Some (q' :: ps', w')
        | None => None
        end
    | q :: ps', S j =>
        match go ps' j w with
        | Some (ps'', w') => Some (q :: ps'', w')
        | None => None
        end
    end.

Section Scheduler.

Variable StringToNumber : string -> number.
Variable prog : program.

(** Method calls made from inside user code nest: a callback calls [add],
    which calls the [queueSizeChange] callback, which calls [add], ...  A
    run of the program nests finitely deep; [depth] bounds the nesting, and
    a call beyond it is not made. *)
Fixpoint reenter_at (depth : nat) (c : api_call) (w : world) : world :=
  match depth with
  | O => w
  | S d => invoke prog (reenter_at d) c w
  end.

Variable depth : nat.

Definition react : kont -> settled -> M proc :=
  run_kont StringToNumber prog (reenter_at depth).

(** Run one ready reaction of the chain [p]; [path] picks the branch at
    each [Promise.all] on the way. *)
Fixpoint pstep (path : list nat) (p : proc) (w : world) : option (proc * world) :=
  match p with
  | Settled _ | Forever => None
  | Then (Settled r) k => Some (react k r w)
  | Then q k =>
      match pstep path q w with
      | Some (q', w') => Some (Then q' k, w')
      | None => None
      end
  | All ps =>
      match join ps with
      | Some r =>
          Some (Settled r, set_pending (pending w ++ unsettled ps) w)
      | None =>
          match path with
          | [] => None
          | i :: path' =>
              match step_nth (pstep path') ps i w with
              | Some (ps', w') => Some (All ps', w')
              | None => None
              end
          end
      end
  end.

Inductive label :=
(** the user calls a public method *)
| LApi (c : api_call)
(** a reaction of the [i]-th pending chain runs *)
| LReact (i : nat) (path : list nat)
(** a [setImmediate] callback runs *)
| LImmediate.

Definition step (l : label) (w : world) : option world :=
  match l with
  | LApi c => Some (invoke prog (reenter_at depth) c w)
  | LReact i path =>
      (* the chain is taken out of the pending ones while its reaction
         runs, and put back after it *)
      match pending w !! i with
      | Some p =>
          match pstep path p (set_pending (delete i (pending w)) w) with
          | Some (p', w') => Some (set_pending (pending w' ++ [p']) w')
          | None => None
          end
      | None => None
      end
  | LImmediate =>
      match immediates w with
      | O => None
      | S n =>
          Some (_evaluateQueue StringToNumber prog (reenter_at depth)
                  (set_immediates n w)).2
      end
  end.

Fixpoint exec (ls : list label) (w : world) : option world :=
  match ls with
  | [] => Some w
  | l :: ls' =>
      match step l w with
      | Some w' => exec ls' w'
      | None => None
      end
  end.

(** A schedule, for running examples: the first pending chain that has a
    ready reaction (leftmost branch first), else a [setImmediate]
    callback. *)
Fixpoint ready_path (p : proc) : option (list nat) :=
  match p with
  | Settled _ | Forever => None
  | Then (Settled _) _ => Some []
  | Then q _ => ready_path q
  | All ps =>
      match join ps with
      | Some _ => Some []
      | None =>
          (fix go (ps : list proc) (i : nat) : option (list nat) :=
             match ps with
             | [] => None
             | q :: ps' =>
                 match ready_path q with
                 | Some path => Some (i :: path)
                 | None => go ps' (S i)
                 end
             end) ps O
      end
  end.

Fixpoint first_ready (ps : list proc) (i : nat) : option label :=
  match ps with
  | [] => None
  | p :: ps' =>
      match ready_path p with
      | Some path => Some (LReact i path)
      | None => first_ready ps' (S i)
      end
  end.

Definition next_label (w : world) : option label :=
  match first_ready (pending w) O with
  | Some l => Some l
  | None => match immediates w with O => None | S _ => Some LImmediate end
  end.

(** Run until nothing is ready, or for [fuel] steps; returns the labels
    taken and the world reached. *)
Fixpoint run (fuel : nat) (w : world) : list label * world :=
  match fuel with
  | O => ([], w)
  | S fuel' =>
      match next_label w with
      | None => ([], w)
      | Some l =>
          match step l w with
          | Some w' => let (ls, w'') := run fuel' w' in (l :: ls, w'')
          | None => ([], w)
          end
      end
  end.

(** Run the reactions of the one chain [p], leftmost first, until it has none
    left or for [fuel] steps. *)
Fixpoint settle (fuel : nat) (p : proc) (w : world) : proc * world :=
  match fuel with
  | O => (p, w)
  | S fuel' =>
      match ready_path p with
      | Some path =>
          match pstep path p w with
          | Some (p', w') => settle fuel' p' w'
          | None => (p, w)
          end
      | None => (p, w)
      end
  end.

End Scheduler.

(** ** Reading the history *)

Definition enqueued (h : list event) : list value :=
  flat_map (fun e => match e with EvEnqueue x => [x] | _ => [] end) h.

Definition dequeued (h : list event) : list value :=
  flat_map (fun e => match e with EvDequeue x => [x] | _ => [] end) h.

Definition cleared (h : list event) : list value :=
  flat_map (fun e => match e with EvClear xs => xs | _ => [] end) h.

Definition finished (h : list event) : list value :=
  flat_map (fun e => match e with EvComplete x => [x] | _ => [] end) h.

(** The items taken out of the queue, by [shift] or by [clear], in the order
    they were taken out. *)
Definition removed (h : list event) : list value :=
  flat_map (fun e => match e with
                     | EvDequeue x => [x]
                     | EvClear xs => xs
                     | _ => []
                     end) h.

(** The calls made at [site], with the function called and its argument. *)
Definition calls_at (site : string) (h : list event) : list (fnid * value) :=
  flat_map (fun e => match e with
                     | EvCall s f arg => if String.eqb site s then [(f, arg)] else []
                     | _ => []
                     end) h.

(** ** Notions the invariants are stated with *)

(** The items of the [_processNextItemWrapper] reactions waiting in a chain. *)
Fixpoint wrappers (p : proc) : list value :=
  match p with
  | Settled _ | Forever => []
  | Then q k => wrappers q ++ match k with KWrapper x => [x] | _ => [] end
  | All ps => flat_map wrappers ps
  end.

Definition all_wrappers (ps : list proc) : list value := flat_map wrappers ps.

(** What is in the queue is what was pushed and not taken out since, in the
    order it was pushed. *)
Definition fifo (w : world) : Prop :=
  enqueued (history w) = removed (history w) ++ _queue (self w).

(** Events of the hooks in [sites], and of pushing and clearing: what code
    other than [_evaluateQueue] and the wrapper's bookkeeping can cause. *)
Definition site_in (sites : list string) (e : event) : Prop :=
  match e with
  | EvCall s _ _ => In s sites
  | EvEnqueue _ | EvClear _ => True
  | EvDequeue _ | EvComplete _ => False
  end.

(** The hooks a public method can reach. *)
Definition api_sites : list string :=
  ["queueSizeChange"; "queueEmpty"; "paused"; "resumed"; "error"; "halted"].

Definition all_sites : list string :=
  ["noWork"; "itemProcessed"; "beforeItemProcessed"; "afterHaltCompleted";
   "afterPauseCompleted"; "item"; "processor"] ++ api_sites.

(** [w'] comes from [w] by code that neither takes an item in nor completes
    one. *)
Record evolve (sites : list string) (w w' : world) : Prop := {
  ev_options : _options (self w') = _options (self w);
  ev_inProgress : _inProgressCount (self w') = _inProgressCount (self w);
  ev_halted : _halted (self w) = true -> _halted (self w') = true;
  ev_history : exists evs,
      history w' = history w ++ evs /\ Forall (site_in sites) evs;
  ev_pending : all_wrappers (pending w') = all_wrappers (pending w);
  ev_fifo : fifo w -> fifo w'
}.

(** The action [c] evolves the world and returns something in [Q]. *)
Definition sat {A} (sites : list string) (Q : A -> Prop) (c : M A) : Prop :=
  forall w, evolve sites w (c w).2 /\ Q (c w).1.

(** The state change of [_retrieveNextPromise] before it calls any hook. *)
Definition enter (x : value) (q : list value) (w : world) : world :=
  set_history (history w ++ [EvDequeue x])
    (with_self (fun s => set_inProgressCount (_inProgressCount s + 1)%Z
                           (set_queue q s)) w).

Section Notions.

Variable StringToNumber : string -> number.

(** The test of [_evaluateQueue] passes. *)
Definition may_enter (w : world) : Prop :=
  _halted (self w) = false /\ _paused (self w) = false /\
  num_le (ToNumber StringToNumber (concurrencyLimit (_options (self w))))
         (num_of_Z (_inProgressCount (self w))) = false.

(** [_evaluateQueue] took an item: the head [x] of the queue went in
    progress, hooks ran, and the chain of [x] with its wrapper was left
    pending, with a [setImmediate] for the next look at the queue. *)
Definition enters (w w' : world) : Prop :=
  exists x q w2 P,
    may_enter w /\ _queue (self w) = x :: q /\
    evolve all_sites (enter x q w) w2 /\
    wrappers P = [] /\
    w' = set_immediates (S (immediates w2))
           (set_pending (pending w2 ++ [Then (Then P (KWrapper x)) KEvaluate]) w2).

(** What a step of the scheduler does to the bookkeeping: nothing, or
    [_evaluateQueue] takes [x] in, or the wrapper of [x] completes, or the
    wrapper of [x] is rejected and drops out. *)
Inductive kind :=
| Quiet
| Enter (x : value)
| Retire (x : value)
| Drop (x : value).

(** A step of kind [k] from [w] to [w']; [L] and [L'] list the items of the
    wrappers waiting before and after it. *)
Record moves (k : kind) (w : world) (L : list value)
             (w' : world) (L' : list value) : Prop := {
  mv_options : _options (self w') = _options (self w);
  mv_halted : _halted (self w) = true -> _halted (self w') = true;
  mv_inProgress :
    _inProgressCount (self w') =
    (_inProgressCount (self w) +
     match k with Enter _ => 1 | Retire _ => -1 | _ => 0 end)%Z;
  mv_history : exists evs,
      Forall (site_in all_sites) evs /\
      history w' = history w ++
        match k with
        | Enter x => [EvDequeue x]
        | Retire x => [EvComplete x]
        | _ => []
        end ++ evs;
  mv_wrappers :
    match k with
    | Quiet => L' ≡ₚ L
    | Enter x => L' ≡ₚ x :: L
    | Retire x | Drop x => L ≡ₚ x :: L'
    end;
  mv_enter :
    match k with
    | Enter x => may_enter w /\ exists q, _queue (self w) = x :: q
    | _ => True
    end;
  mv_fifo : fifo w -> fifo w'
}.

End Notions.

(** A chain with no wrapper waiting in it. *)
Definition quietp (p : proc) : Prop := wrappers p = [].

(** [sites] has the hooks a public method can reach. *)
Definition covers (sites : list string) : Prop :=
  forall x, In x api_sites -> In x sites.

(** The reactions that neither call [_evaluateQueue] nor do the wrapper's
    bookkeeping. *)
Definition quiet_kont (k : kont) (r : settled) : bool :=
  match k, r with
  | KWrapper _, Res _ => false
  | KApi true _, Res _ => false
  | _, _ => true
  end.

Section Invariants.

Variable StringToNumber : string -> number.

(** The last admission passed the test of [_evaluateQueue]. *)
Definition within_limit (w : world) : Prop :=
  (_inProgressCount (self w) <= 0)%Z \/
  num_le (ToNumber StringToNumber (concurrencyLimit (_options (self w))))
         (num_of_Z (_inProgressCount (self w) - 1)) = false.

(** What holds of every world the scheduler reaches. *)
Record consistent (w : world) : Prop := {
  (** the queue is what was pushed and not yet taken out *)
  inv_fifo : fifo w;
  (** every waiting wrapper stands for an item in progress *)
  inv_ledger :
    (Z.of_nat (length (all_wrappers (pending w))) <= _inProgressCount (self w))%Z;
  (** the items in progress are those admitted and not completed *)
  inv_count :
    Z.of_nat (length (dequeued (history w))) =
    (Z.of_nat (length (finished (history w))) + _inProgressCount (self w))%Z;
  inv_limit : within_limit w
}.

(** With one item at a time, the items completed are the items admitted,
    in the same order, up to the one in progress. *)
Definition sequential (w : world) : Prop :=
  exists tail,
    dequeued (history w) = finished (history w) ++ tail /\
    forall x, In x (all_wrappers (pending w)) -> In x tail.

End Invariants.

Section UserCode.

Variable prog : program.
Variable reenter : api_call -> world -> world.

(** What the function [f] does at its next call. *)
Definition next_call (f : fnid) (arg : value) (w : world) : behaviour :=
  prog f (calls_of f (history w)) arg.

(** The world once user code has made the method calls [cs]. *)
Definition after_effects (cs : list api_call) (w : world) : world :=
  fold_left (fun w c => reenter c w) cs w.

End UserCode.

(** ** Programs to run the queue on *)

Module Demo.

(** No string of the examples is read as a number. *)
Definition numerals : string -> number := fun _ => NaN.

Definition nesting : nat := 2.

(** The user's functions:
    - 1, 11, 12, 13: tasks whose promise resolves to [true];
    - 2: a task whose promise resolves to [false];
    - 3: a [beforeItemProcessed] callback that skips the second item;
    - 4: a [noWork] callback that, the first time, adds task 1 again;
    - 5: an [itemProcessed] callback that returns the result it is given;
    - 6: a callback that only looks;
    - 7: a callback that throws a [WorkQueueError] tagged BADREQUEST;
    - 8: a callback that throws a string. *)
Definition code : program := fun f n arg =>
  match f with
  | 1 | 11 | 12 | 13 => Behaviour [] (Returns (VPromise Resolves (VBool true)))
  | 2 => Behaviour [] (Returns (VPromise Resolves (VBool false)))
  | 3 => Behaviour [] (Returns (if Nat.eqb n 1
                                then VStr BEFORE_CALLBACK_VALS.SKIP
                                else VStr BEFORE_CALLBACK_VALS.CONTINUE))
  | 4 => Behaviour (if Nat.eqb n 0 then [CAdd (VFun 1)] else []) (Returns VUndefined)
  | 5 => Behaviour [] (Returns arg)
  | 7 => Behaviour [] (Throws (WorkQueueError (VStr "bad request")
                                              (VStr ERROR_SOURCES.BADREQUEST)))
  | 8 => Behaviour [] (Throws (VStr "error from callback"))
  | _ => Behaviour [] (Returns VUndefined)
  end.

Definition empty_world : world :=
  {| self := {| _options := {| concurrencyLimit := VUndefined;
                               processor := VUndefined |};
                _queue := []; _inProgressCount := 0%Z; _callbacks := ∅;
                _halted := false; _paused := false |};
     pending := []; immediates := 0; history := [] |}.

(** [new WorkQueue(options)], for options that are accepted. *)
Definition fresh (options : option Options) : world :=
  match constructor numerals options with
  | Normal w => w
  | Throw _ => empty_world
  end.

(** The user's calls [calls], and then the event loop until nothing is left
    to run, or for [fuel] steps. *)
Definition script (calls : list api_call) (fuel : nat) (w : world) : list label :=
  map LApi calls ++
  (run numerals code nesting fuel
     (default w (exec numerals code nesting (map LApi calls) w))).1.

Definition play (ls : list label) (w : world) : world :=
  default w (exec numerals code nesting ls w).

(** Four tasks on a queue of limit two. *)
Definition limit_two : world :=
  fresh (Some {| concurrencyLimit := VNum (num_of_Z 2); processor := VUndefined |}).

Definition four_tasks : list label :=
  script [CAdd (VFun 11); CAdd (VFun 12); CAdd (VFun 13); CAdd (VFun 1)] 200
         limit_two.

(** Three tasks, one at a time. *)
Definition three_tasks : list label :=
  script [CAddAll [VFun 11; VFun 12]; CAdd (VFun 13)] 200 (fresh None).

(** A task whose promise resolves to [false], with an [itemProcessed]
    callback that returns the result it is given, and a second task behind
    it. *)
Definition result_returned : list label :=
  script [COn (VStr "itemProcessed") (VFun 5); COn (VStr "halted") (VFun 6);
          CAdd (VFun 2); CAdd (VFun 1)] 200 (fresh None).

(** Two tasks on a queue of limit two with callbacks that only look; the
    first task resolves to [false].  After 22 steps the queue is halted and
    both tasks are still in progress. *)
Definition halting_calls : list api_call :=
  [COn (VStr "paused") (VFun 6); COn (VStr "halted") (VFun 6);
   COn (VStr "afterHaltCompleted") (VFun 6);
   COn (VStr "afterPauseCompleted") (VFun 6);
   CAdd (VFun 2); CAdd (VFun 1)].

Definition halted_in_flight : list label :=
  firstn 22 (script halting_calls 200 limit_two).

(** The steps [pre], and then the event loop until nothing is left to run. *)
Definition drained (pre : list label) (w : world) : list label :=
  pre ++ (run numerals code nesting 200 (play pre w)).1.

(** A [queueSizeChange] callback that throws an error tagged BADREQUEST. *)
Definition tagged_throw : list label :=
  script [COn (VStr "error") (VFun 6); COn (VStr "queueSizeChange") (VFun 7);
          CAdd (VFun 1)] 200 (fresh None).

(** A string pushed by [addAll] on a queue without processor. *)
Definition unchecked_item : list label :=
  script [COn (VStr "error") (VFun 6); CAddAll [VStr "x"]] 200 (fresh None).

(** Three tasks, the second one skipped by [beforeItemProcessed]. *)
Definition skip_second : list label :=
  script [COn (VStr "beforeItemProcessed") (VFun 3);
          CAdd (VFun 11); CAdd (VFun 12); CAdd (VFun 13)] 200 (fresh None).

(** A task, and a [noWork] callback that adds another one. *)
Definition add_again : list label :=
  script [COn (VStr "noWork") (VFun 4); CAdd (VFun 11)] 200 (fresh None).

(** A [halted] callback and an [error] callback that both throw. *)
Definition both_throw : list label :=
  [LApi (COn (VStr "halted") (VFun 8)); LApi (COn (VStr "error") (VFun 8))].

(** [add] called directly, so that what it throws is seen. *)
Definition add_item (item : value) (w : world) : completion world :=
  add code (reenter_at code nesting) item w.

(** A task added and the queue paused before anything else has run. *)
Definition paused_with_task : world :=
  play [LApi (CAdd (VFun 1)); LApi CPause] (fresh None).

(** A queue whose [queueSizeChange], [queueEmpty] and [error] callbacks only
    look. *)
Definition watched : world :=
  play [LApi (COn (VStr "queueSizeChange") (VFun 6));
        LApi (COn (VStr "queueEmpty") (VFun 6));
        LApi (COn (VStr "error") (VFun 6))] (fresh None).

(** A queue with function 1 as its processor. *)
Definition with_processor : world :=
  fresh (Some {| concurrencyLimit := VUndefined; processor := VFun 1 |}).

(** A queue whose limit is one and a half. *)
Definition limit_one_and_a_half : world :=
  fresh (Some {| concurrencyLimit := VNum (Fin (3 # 2)); processor := VUndefined |}).

(** Three tasks on it. *)
Definition two_of_three : list label :=
  script [CAdd (VFun 11); CAdd (VFun 12); CAdd (VFun 13)] 200 limit_one_and_a_half.


(** Task 1 added to a queue whose callbacks only look, before anything
    else has run. *)
Definition watched_task : world :=
  play [LApi (COn (VStr "queueSizeChange") (VFun 6));
        LApi (COn (VStr "queueEmpty") (VFun 6));
        LApi (COn (VStr "beforeItemProcessed") (VFun 6));
        LApi (COn (VStr "itemProcessed") (VFun 6));
        LApi (COn (VStr "noWork") (VFun 6));
        LApi (CAdd (VFun 1))] (fresh None).

End Demo.

Section Validity.

Variable StringToNumber : string -> number.

(** The options as [_validateOptions] reads them: no options are [{}], and a
    [concurrencyLimit] left out is [DEFAULT_CONCURRENCY_LIMIT]. *)
Definition options_read (options : option Options) : Options :=
  let given := match options with
               | None => {| concurrencyLimit := VUndefined; processor := VUndefined |}
               | Some o => o
               end in
  {| concurrencyLimit :=
       if is_nullish (concurrencyLimit given)
       then DEFAULT_CONCURRENCY_LIMIT else concurrencyLimit given;
     processor := processor given |}.

(** The [concurrencyLimit] is not a number or is below 1, or there is a
    [processor] and it is not a function. *)
Definition options_refused (o : Options) : bool :=
  isNaN StringToNumber (concurrencyLimit o)
  || num_lt (ToNumber StringToNumber (concurrencyLimit o)) (Fin 1)
  || (negb (is_nullish (processor o)) && negb (is_function (processor o))).

End Validity.

(** A queue as the constructor leaves it. *)
Definition new_queue (o : Options) : world :=
  {| self := {| _options := o; _queue := []; _inProgressCount := 0%Z;
                _callbacks := ∅; _halted := false; _paused := false |};
     pending := []; immediates := 0; history := [] |}.

(** The source of an error, if the value is one. *)
Definition source_of (v : value) : value :=
  match v with VError _ _ src => src | _ => VUndefined end.

(** The triggers [on] knows, in the order it tests them. *)
Definition triggers : list string :=
  ["error"; "halted"; "queueSizeChange"; "queueEmpty"; "noWork"; "itemProcessed";
   "beforeItemProcessed"; "paused"; "resumed"; "afterHaltCompleted";
   "afterPauseCompleted"].

(** ** The shapes of the chains the queue makes *)

(** A promise of the user's: settled, or never to settle. *)
Definition leaf (p : proc) : bool :=
  match p with Settled _ | Forever => true | _ => false end.

(** The sources of the errors the queue reports. *)
Definition reported_source (s : string) : bool :=
  String.eqb s ERROR_SOURCES.CALLBACK || String.eqb s ERROR_SOURCES.PROCESS
  || String.eqb s ERROR_SOURCES.BADREQUEST.

(** An [Error] with one of these sources. *)
Definition tagged (v : value) : bool :=
  match v with VError _ _ (VStr s) => reported_source s | _ => false end.

(** The reasons the queue gives when it halts on account of user code. *)
Definition reason_given (v : value) : bool :=
  match v with
  | VHaltData (VStr r) _ _ =>
      String.eqb r HALT_REASONS.CALLBACKRETVAL
      || String.eqb r HALT_REASONS.ERRORCALLBACKERROR
      || String.eqb r HALT_REASONS.PROCESSRETVAL
  | _ => false
  end.

(** What [_onHalted] returns: a promise resolved, or rejected with a tagged
    error, or waiting for the promise of the callback. *)
Definition halted_chain (p : proc) : bool :=
  match p with
  | Settled (Res _) => true
  | Settled (Rej e) => tagged e
  | Then q KOnHalted => leaf q
  | _ => false
  end.

(** What [_retrieveNextPromise] returns: a chain that resolves to nothing or
    to the object that wraps the promise of the item. *)
Definition retrieves (p : proc) : bool :=
  match p with
  | Settled (Res v) =>
      is_nullish v || match v with VWrapper _ => true | _ => false end
  | Then _ KSettle | Then _ (KRetrieveSizeChanged _) | Then _ (KRetrieveBefore _) =>
      true
  | _ => false
  end.

(** A chain that cannot reject, whatever the user's code does: every
    rejection that can arise inside it meets a handler that deals with it. *)
Fixpoint calm (p : proc) : bool :=
  match p with
  | Settled (Res _) => true
  | Settled (Rej _) => false
  | Forever => true
  | All ps => forallb calm ps
  | Then q k =>
      match k with
      | KOnError | KCallHandler _ | KProcessSettled => leaf q
      | KHalt => halted_chain q
      | KGiveUp | KSettle | KSettleWith _ | KRetrieveSizeChanged _
      | KRetrieveBefore _ | KProcessItemProcessed _ | KApi _ _ => calm q
      | KProcessRetrieved => calm q && retrieves q
      | KOnHalted | KWrapper _ | KEvaluate | KInternal _ | KIgnore => false
      end
  end.

(** The chains left pending: those of [_evaluateQueue], with the wrapper of
    an item while it is in progress, and calm ones. *)
Definition orderly (p : proc) : bool :=
  match p with
  | Then q KEvaluate =>
      match q with
      | Then q' (KWrapper _) => calm q'
      | _ => calm q
      end
  | _ => calm p
  end.

(** A chain whose last reaction looks at the queue. *)
Definition trigger (p : proc) : bool :=
  match p with
  | Then _ KEvaluate | Then _ (KApi true _) => true
  | _ => false
  end.

(** A chain in which a handler for internal errors runs or is about to: a
    rejected promise in front of the reaction of the wrapper, of
    [_evaluateQueue] or of a public method, whose [catch] handlers are the
    ones for internal errors; the reactions these handlers add; and a value
    in front of the reaction of [_processNextItem] that makes it throw. *)
Fixpoint internal_failure (p : proc) : bool :=
  match p with
  | Settled _ | Forever => false
  | All ps => existsb internal_failure ps
  | Then q k =>
      match k, q with
      | (KInternal _ | KIgnore), _ => true
      | (KEvaluate | KApi _ _ | KWrapper _), Settled (Rej _) => true
      | KProcessRetrieved, Settled (Res v) =>
          negb (is_nullish v || match v with VWrapper _ => true | _ => false end)
      | _, _ => internal_failure q
      end
  end.

(** The calls of the [error] and [halted] callbacks as the queue makes them
    on account of user code: with a tagged error, and with one of the three
    reasons. *)
Definition expected (e : event) : bool :=
  match e with
  | EvCall site _ arg =>
      if String.eqb site "error" then tagged arg
      else if String.eqb site "halted" then reason_given arg
      else true
  | _ => true
  end.

Section Growth.

Variable StringToNumber : string -> number.

(** The queue would take an item if it looked. *)
Definition waiting (w : world) : Prop :=
  may_enter StringToNumber w /\ _queue (self w) <> [].

(** Something was left that will look at the queue. *)
Definition woken (w w' : world) : Prop :=
  immediates w < immediates w' \/
  exists new, pending w' = pending w ++ new /\ Exists (fun p => trigger p = true) new.

(** [w'] comes from [w] by code of the queue and of the user: chains are
    only added, and orderly ones; the calls recorded are expected ones, with
    at most one call of the [halted] callback, made when the queue halts; and
    (when [full]) if the queue is waiting afterwards it was already, or
    something was left that will look at it. *)
Record ext (full : bool) (w w' : world) : Prop := {
  x_pending : exists new,
      pending w' = pending w ++ new /\ Forall (fun p => orderly p = true) new;
  x_immediates : immediates w <= immediates w';
  x_halted : _halted (self w) = true -> _halted (self w') = true;
  x_history : exists evs,
      history w' = history w ++ evs /\
      Forall (fun e => expected e = true) evs /\
      match calls_at "halted" evs with
      | [] => True
      | [_] => _halted (self w) = false /\ _halted (self w') = true
      | _ => False
      end;
  x_wakes : full = true -> waiting w' -> waiting w \/ woken w w'
}.

(** The action [c] extends the world and returns something in [Q]. *)
Definition rel {A} (full : bool) (Q : A -> Prop) (c : M A) : Prop :=
  forall w, ext full w (c w).2 /\ Q (c w).1.

(** What holds of the chains and the history of every reachable world. *)
Record tidy (w : world) : Prop := {
  t_pending : Forall (fun p => orderly p = true) (pending w);
  t_history : Forall (fun e => expected e = true) (history w);
  t_halted :
    match calls_at "halted" (history w) with
    | [] => True
    | [_] => _halted (self w) = true
    | _ => False
    end;
  t_awake :
    waiting w ->
    0 < immediates w \/ Exists (fun p => trigger p = true) (pending w)
}.

End Growth.

(** The items in flight and the items completed. *)
Definition accounted (w : world) : nat :=
  length (all_wrappers (pending w)) + length (finished (history w)).

(** * Properties *)

(** ** The monad *)

Lemma bind_run {A B} (c : M A) (k : A -> M B) (w : world) :
  (c ≫= k) w = k (c w).1 (c w).2.
Proof. unfold mbind, M_bind. destruct (c w); reflexivity. Qed.

Lemma ret_run {A} (a : A) (w : world) : (mret a : M A) w = (a, w).
Proof. reflexivity. Qed.

(** ** The history *)

Lemma enqueued_app h1 h2 : enqueued (h1 ++ h2) = enqueued h1 ++ enqueued h2.
Proof. apply flat_map_app. Qed.

Lemma dequeued_app h1 h2 : dequeued (h1 ++ h2) = dequeued h1 ++ dequeued h2.
Proof. apply flat_map_app. Qed.

Lemma cleared_app h1 h2 : cleared (h1 ++ h2) = cleared h1 ++ cleared h2.
Proof. apply flat_map_app. Qed.

Lemma finished_app h1 h2 : finished (h1 ++ h2) = finished h1 ++ finished h2.
Proof. apply flat_map_app. Qed.

Lemma removed_app h1 h2 : removed (h1 ++ h2) = removed h1 ++ removed h2.
Proof. apply flat_map_app. Qed.

Lemma calls_at_app s h1 h2 : calls_at s (h1 ++ h2) = calls_at s h1 ++ calls_at s h2.
Proof. apply flat_map_app. Qed.

Lemma all_wrappers_app ps1 ps2 :
  all_wrappers (ps1 ++ ps2) = all_wrappers ps1 ++ all_wrappers ps2.
Proof. apply flat_map_app. Qed.

Lemma wrappers_All ps : wrappers (All ps) = all_wrappers ps.
Proof. reflexivity. Qed.

Lemma all_wrappers_nil ps :
  Forall (fun p => wrappers p = []) ps -> all_wrappers ps = [].
Proof.
  induction 1 as [|p ps Hp _ IH]; simpl; [reflexivity|].
  rewrite Hp, IH. reflexivity.
Qed.

Lemma map_EvEnqueue_enqueued xs : enqueued (map EvEnqueue xs) = xs.
Proof. induction xs as [|x xs IH]; simpl; congruence. Qed.

Lemma map_EvEnqueue_removed xs : removed (map EvEnqueue xs) = [].
Proof. induction xs as [|x xs IH]; simpl; congruence. Qed.

(** Events of hooks are neither pushes seen twice nor removals. *)
Lemma site_in_mono s1 s2 e :
  (forall x, In x s1 -> In x s2) -> site_in s1 e -> site_in s2 e.
Proof. destruct e; simpl; auto. Qed.

Lemma quiet_dequeued sites evs : Forall (site_in sites) evs -> dequeued evs = [].
Proof.
  induction 1 as [|e evs He _ IH]; simpl; [reflexivity|].
  rewrite IH. destruct e; simpl in *; tauto.
Qed.

Lemma quiet_finished sites evs : Forall (site_in sites) evs -> finished evs = [].
Proof.
  induction 1 as [|e evs He _ IH]; simpl; [reflexivity|].
  rewrite IH. destruct e; simpl in *; tauto.
Qed.

(** ** Evolution of the world *)

Lemma evolve_refl sites w : evolve sites w w.
Proof.
  split; auto.
  exists []. rewrite app_nil_r. auto.
Qed.

Lemma evolve_trans sites w1 w2 w3 :
  evolve sites w1 w2 -> evolve sites w2 w3 -> evolve sites w1 w3.
Proof.
  intros [o1 n1 h1 (e1 & He1 & Fe1) p1 f1] [o2 n2 h2 (e2 & He2 & Fe2) p2 f2].
  split; try congruence; auto.
  exists (e1 ++ e2). rewrite He2, He1, <- app_assoc. split; [reflexivity|].
  apply Forall_app; auto.
Qed.

Lemma evolve_mono s1 s2 w w' :
  (forall x, In x s1 -> In x s2) -> evolve s1 w w' -> evolve s2 w w'.
Proof.
  intros Hs [o n h (e & He & Fe) p f]. split; auto.
  exists e. split; [assumption|].
  eapply Forall_impl; [eassumption|]. intros x. apply site_in_mono, Hs.
Qed.

Lemma sat_ret {A} sites (Q : A -> Prop) (a : A) : Q a -> sat sites Q (mret a).
Proof. intros Ha w. split; [apply evolve_refl | exact Ha]. Qed.

Lemma sat_bind {A B} sites (Q : A -> Prop) (Q' : B -> Prop) (c : M A) (k : A -> M B) :
  sat sites Q c -> (forall a, Q a -> sat sites Q' (k a)) -> sat sites Q' (c ≫= k).
Proof.
  intros Hc Hk w. rewrite bind_run.
  destruct (Hc w) as [E1 Q1]. destruct (Hk _ Q1 (c w).2) as [E2 Q2].
  split; [eapply evolve_trans; eassumption | exact Q2].
Qed.

Lemma sat_weaken {A} s1 s2 (Q Q' : A -> Prop) (c : M A) :
  (forall x, In x s1 -> In x s2) -> (forall a, Q a -> Q' a) ->
  sat s1 Q c -> sat s2 Q' c.
Proof.
  intros Hs HQ Hc w. destruct (Hc w) as [E1 Q1].
  split; [eapply evolve_mono; eassumption | auto].
Qed.

Lemma sat_evolve {A} sites (Q : A -> Prop) (c : M A) w :
  sat sites Q c -> evolve sites w (c w).2.
Proof. intros H. apply H. Qed.

Lemma sat_get sites : sat sites (fun _ => True) get.
Proof. intros w. split; [apply evolve_refl | exact I]. Qed.

Lemma sat_callback sites name : sat sites (fun _ => True) (callback name).
Proof. intros w. split; [apply evolve_refl | exact I]. Qed.

Lemma sat_getQueueSize sites : sat sites (fun _ => True) getQueueSize.
Proof. intros w. split; [apply evolve_refl | exact I]. Qed.

Lemma fifo_emit_call w site f arg :
  fifo w -> fifo (set_history (history w ++ [EvCall site f arg]) w).
Proof.
  unfold fifo. simpl. rewrite enqueued_app, removed_app. simpl.
  rewrite !app_nil_r. auto.
Qed.

Ltac same_world :=
  split; simpl; auto; exists []; rewrite app_nil_r; auto.

Lemma sat_emit_call sites site f arg :
  In site sites -> sat sites (fun _ => True) (emit (EvCall site f arg)).
Proof.
  intros Hs w. split; [|exact I]. split; simpl; auto.
  - exists [EvCall site f arg]. split; [reflexivity|]. repeat constructor. exact Hs.
  - apply fifo_emit_call.
Qed.

Lemma sat_set_halted sites :
  sat sites (fun _ => True) (modify (with_self (set_halted true))).
Proof. intros w. split; [|exact I]. same_world. Qed.

Lemma sat_set_paused sites b :
  sat sites (fun _ => True) (modify (with_self (set_paused b))).
Proof. intros w. split; [|exact I]. same_world. Qed.

Lemma sat_setImmediate sites : sat sites (fun _ => True) setImmediate_evaluate.
Proof. intros w. split; [|exact I]. same_world. Qed.

Lemma sat_push sites items : sat sites (fun _ => True) (push items).
Proof.
  intros w. split; [|exact I]. split; simpl; auto.
  - exists (map EvEnqueue items). split; [reflexivity|].
    induction items as [|x items IH]; constructor; [exact I | exact IH].
  - unfold fifo. simpl. rewrite enqueued_app, removed_app.
    rewrite map_EvEnqueue_enqueued, map_EvEnqueue_removed, app_nil_r.
    intros ->. rewrite app_assoc. reflexivity.
Qed.

Lemma sat_clear_queue sites : sat sites (fun _ => True) clear_queue.
Proof.
  intros w. split; [|exact I]. split; simpl; auto.
  - exists [EvClear (_queue (self w))]. split; [reflexivity|].
    repeat constructor.
  - unfold fifo. simpl. rewrite enqueued_app, removed_app. simpl.
    rewrite !app_nil_r. auto.
Qed.

Lemma sat_detach sites p :
  wrappers p = [] -> sat sites (fun _ => True) (detach p).
Proof.
  intros Hp w. split; [|exact I]. split; simpl; auto.
  - exists []. rewrite app_nil_r. auto.
  - rewrite all_wrappers_app. simpl. rewrite Hp, !app_nil_r. reflexivity.
Qed.

Lemma sat_register sites trigger cb w :
  evolve sites w (register trigger cb w).
Proof. same_world. Qed.

Lemma wrappers_of_value v : wrappers (of_value v) = [].
Proof. destruct v as [| | | | | | | |[] ?| |]; reflexivity. Qed.

(** ** The methods evolve the world *)

Lemma covers_api : covers api_sites.
Proof. intros x Hx. exact Hx. Qed.

Lemma covers_all : covers all_sites.
Proof. intros x Hx. unfold all_sites. apply in_or_app. right. exact Hx. Qed.

Lemma covers_cons s sites : covers sites -> covers (s :: sites).
Proof. intros H x Hx. right. auto. Qed.

Create HintDb sat discriminated.
#[local] Hint Resolve sat_get sat_callback sat_getQueueSize sat_set_halted
  sat_set_paused sat_push sat_clear_queue : sat.

Ltac sat_tac :=
  repeat match goal with
  | |- sat _ _ (mret _) => apply sat_ret; unfold quietp; simpl;
                           rewrite ?wrappers_of_value; auto
  | |- sat _ _ (_ ≫= _) => eapply sat_bind; [ solve [eauto with sat] | intros ? ? ]
  | |- sat _ _ (match ?x with _ => _ end) => destruct x
  end.

(** Unfolding the methods themselves, where a section abbreviates their
    application to the program at hand. *)
Ltac unfold_react := unfold react.
Ltac cbn_react := cbn [react run_kont mret M_ret fst snd].
Ltac unfold_evaluateQueue := unfold _evaluateQueue.
Ltac unfold_add := unfold add.
Ltac unfold_addAll := unfold addAll.
Ltac unfold_pause := unfold pause.
Ltac cbn_after_effects := cbn [after_effects fold_left].
Ltac unfold_constructor :=
  unfold constructor, _validateOptions, options_refused, options_read.
Ltac unfold_resume := unfold resume.
Ltac unfold_clear := unfold clear.
Ltac unfold_step := unfold step.
Ltac unfold_hasWork := unfold hasWork, getInProgressCount.
Ltac unfold_onQueueSizeChange := unfold _onQueueSizeChange.
Ltac unfold_launch := unfold launch.
Ltac cbn_pstep := cbn [pstep].
Ltac unfold_react_in H := unfold react in H; cbn [run_kont mret M_ret] in H.
Ltac cbn_pstep_in H := cbn [pstep] in H.
Ltac cbn_step_in H := cbn [step] in H.
Ltac unfold_wrapper :=
  unfold _processNextItemWrapper, _processNextItem, _retrieveNextPromise.

Section MethodsEvolve.

Variable StringToNumber : string -> number.
Variable prog : program.
Variable reenter : api_call -> world -> world.

Hypothesis reenter_evolve : forall c w, evolve api_sites w (reenter c w).

Lemma effects_evolve cs w :
  evolve api_sites w (fold_left (fun w c => reenter c w) cs w).
Proof.
  revert w. induction cs as [|c cs IH]; intros w; simpl.
  - apply evolve_refl.
  - eapply evolve_trans; [apply reenter_evolve | apply IH].
Qed.

Lemma sat_call sites site f arg :
  In site sites -> covers sites ->
  sat sites (fun _ => True) (call prog reenter site f arg).
Proof.
  intros Hs Hc. unfold call. destruct f; try (apply sat_ret; exact I).
  eapply sat_bind; [apply sat_get|]. intros w0 _.
  eapply sat_bind; [apply sat_emit_call; exact Hs|]. intros _ _.
  eapply sat_bind with (Q := fun _ => True); [|intros; apply sat_ret; exact I].
  intros w. split; [|exact I].
  eapply evolve_mono; [exact Hc | apply effects_evolve].
Qed.

Lemma sat_onHalted sites reason :
  covers sites -> sat sites quietp (_onHalted prog reenter reason).
Proof.
  intros Hc. unfold _onHalted.
  eapply sat_bind; [apply sat_callback|]. intros [f|] _; [|sat_tac].
  eapply sat_bind; [apply sat_call; [apply Hc; simpl; tauto | exact Hc]|].
  intros [v|ex] _; sat_tac.
Qed.

Lemma sat_halt sites reason :
  covers sites -> sat sites quietp (_halt prog reenter reason).
Proof.
  intros Hc. unfold _halt.
  eapply sat_bind; [apply sat_get|]. intros w0 _.
  destruct (_halted (self w0)); [sat_tac|].
  eapply sat_bind; [apply sat_set_halted|]. intros _ _.
  eapply sat_bind; [apply sat_onHalted; exact Hc|]. intros p Hp.
  apply sat_ret. unfold quietp in *. simpl. rewrite Hp. reflexivity.
Qed.

Lemma sat_onError sites err :
  covers sites -> sat sites quietp (_onError prog reenter err).
Proof.
  intros Hc. unfold _onError.
  eapply sat_bind; [apply sat_callback|]. intros [f|] _; [|sat_tac].
  eapply sat_bind; [apply sat_call; [apply Hc; simpl; tauto | exact Hc]|].
  intros [v|ex] _; [sat_tac|].
  eapply sat_bind; [apply sat_halt; exact Hc|]. intros p Hp.
  apply sat_ret. unfold quietp in *. simpl. rewrite Hp. reflexivity.
Qed.

Lemma sat_callHandler sites name parameter :
  In name sites -> covers sites ->
  sat sites quietp (_callHandler prog reenter name parameter).
Proof.
  intros Hn Hc. unfold _callHandler.
  eapply sat_bind; [apply sat_callback|]. intros [f|] _; [|sat_tac].
  eapply sat_bind; [apply sat_call; assumption|].
  intros [v|ex] _; [sat_tac|].
  eapply sat_bind; [apply sat_onError; exact Hc|]. intros p Hp.
  apply sat_ret. unfold quietp in *. simpl. rewrite Hp. reflexivity.
Qed.

Lemma sat_onQueueSizeChange sites :
  covers sites -> sat sites quietp (_onQueueSizeChange prog reenter).
Proof.
  intros Hc. unfold _onQueueSizeChange.
  eapply sat_bind; [apply sat_getQueueSize|]. intros n _.
  eapply sat_bind; [apply sat_callHandler; [apply Hc; simpl; tauto | exact Hc]|].
  intros p1 Hp1. destruct (Nat.eqb 0 n).
  - eapply sat_bind; [apply sat_callHandler; [apply Hc; simpl; tauto | exact Hc]|].
    intros p2 Hp2. apply sat_ret. unfold quietp in *. simpl.
    rewrite Hp1, Hp2. reflexivity.
  - apply sat_ret. unfold quietp in *. simpl. rewrite Hp1. reflexivity.
Qed.

Lemma sat_api_chain sites (c : M unit) evaluate name :
  covers sites -> sat sites (fun _ => True) c ->
  sat sites (fun _ => True)
    (c;; p ← _onQueueSizeChange prog reenter; detach (Then p (KApi evaluate name))).
Proof.
  intros Hc Hcc.
  eapply sat_bind; [exact Hcc|]. intros _ _.
  eapply sat_bind; [apply sat_onQueueSizeChange; exact Hc|]. intros p Hp.
  apply sat_detach. unfold quietp in Hp. simpl. rewrite Hp. reflexivity.
Qed.

Lemma api_evolve c w : evolve api_sites w (invoke prog reenter c w).
Proof.
  unfold invoke. destruct c as [item|items| | | |trigger cb]; simpl.
  - unfold add. destruct (_ && _); [apply evolve_refl|].
    eapply sat_evolve, sat_api_chain; [apply covers_api | apply sat_push].
  - unfold addAll.
    eapply sat_evolve, sat_api_chain; [apply covers_api | apply sat_push].
  - unfold clear.
    eapply sat_evolve, sat_api_chain; [apply covers_api | apply sat_clear_queue].
  - unfold pause. apply (sat_evolve _ (fun _ => True)).
    eapply sat_bind; [apply sat_set_paused|]. intros _ _.
    eapply sat_bind;
      [apply sat_callHandler; [simpl; tauto | apply covers_api]|].
    intros p Hp. apply sat_detach. unfold quietp in Hp. simpl. rewrite Hp.
    reflexivity.
  - unfold resume. destruct (negb _); [apply evolve_refl|].
    apply (sat_evolve _ (fun _ => True)).
    eapply sat_bind; [apply sat_set_paused|]. intros _ _.
    eapply sat_bind;
      [apply sat_callHandler; [simpl; tauto | apply covers_api]|].
    intros p Hp. apply sat_detach. unfold quietp in Hp. simpl. rewrite Hp.
    reflexivity.
  - unfold on.
    repeat match goal with
           | |- context [if ?b then _ else _] => destruct b
           end; first [apply evolve_refl | apply sat_register].
Qed.

End MethodsEvolve.

Lemma reenter_at_evolve prog depth c w :
  evolve api_sites w (reenter_at prog depth c w).
Proof.
  revert c w. induction depth as [|d IH]; intros c w; simpl.
  - apply evolve_refl.
  - apply api_evolve. exact IH.
Qed.

(** ** The reactions evolve the world, take an item in, or complete one *)

Lemma fifo_enter x q w :
  _queue (self w) = x :: q -> fifo w -> fifo (enter x q w).
Proof.
  unfold fifo. simpl. intros Hq Hf.
  rewrite enqueued_app, removed_app, Hf, Hq. simpl.
  rewrite app_nil_r, <- app_assoc. reflexivity.
Qed.

Lemma fifo_retire x w : fifo w -> fifo (retire x w).
Proof.
  unfold fifo. simpl. rewrite enqueued_app, removed_app. simpl.
  rewrite !app_nil_r. auto.
Qed.

Section ReactionsEvolve.

Variable StringToNumber : string -> number.
Variable prog : program.
Variable reenter : api_call -> world -> world.

Hypothesis reenter_evolve : forall c w, evolve api_sites w (reenter c w).

Lemma sat_hook name parameter :
  In name all_sites ->
  sat all_sites quietp (_callHandler prog reenter name parameter).
Proof. intros Hn. apply sat_callHandler; auto using covers_all. Qed.

Lemma sat_launch nextItem : sat all_sites quietp (launch prog reenter nextItem).
Proof.
  unfold launch.
  assert (Hend : forall r : outcome,
    sat all_sites quietp
      (match r with
       | Returns nextItemPromise =>
           if is_thenable nextItemPromise
           then mret (Settled (Res (VWrapper nextItemPromise)))
           else
             p ← _onError prog reenter (WorkQueueError
                    (VStr "Enqueued function did not return a Promise")
                    (VStr ERROR_SOURCES.BADREQUEST));
             mret (Then p KSettle)
       | Throws ex => p ← _onError prog reenter ex; mret (Then p KSettle)
       end)).
  { intros [v|ex].
    - destruct (is_thenable v); [apply sat_ret; reflexivity|].
      eapply sat_bind; [apply sat_onError; auto using covers_all|].
      intros p Hp. apply sat_ret. unfold quietp in *. simpl. rewrite Hp.
      reflexivity.
    - eapply sat_bind; [apply sat_onError; auto using covers_all|].
      intros p Hp. apply sat_ret. unfold quietp in *. simpl. rewrite Hp.
      reflexivity. }
  eapply sat_bind with (Q := fun _ => True); [|intros r _; apply Hend].
  destruct (is_function nextItem).
  - eapply sat_bind;
      [apply sat_call; auto using covers_all; unfold all_sites; simpl; tauto|].
    intros [v|ex] _; apply sat_ret; exact I.
  - eapply sat_bind; [apply sat_get|]. intros w0 _.
    destruct (is_nullish _); [apply sat_ret; exact I|].
    eapply sat_bind;
      [apply sat_call; auto using covers_all; unfold all_sites; simpl; tauto|].
    intros [v|ex] _; apply sat_ret; exact I.
Qed.

Lemma sat_quiet_kont k r :
  quiet_kont k r = true ->
  sat all_sites quietp (run_kont StringToNumber prog reenter k r).
Proof.
  assert (Hh : forall hd, sat all_sites quietp (_halt prog reenter hd))
    by (intros; apply sat_halt; auto using covers_all).
  assert (He : forall e, sat all_sites quietp (_onError prog reenter e))
    by (intros; apply sat_onError; auto using covers_all).
  assert (Hthen : forall (c : M proc) k',
             match k' with KWrapper _ => False | _ => True end ->
             sat all_sites quietp c ->
             sat all_sites quietp (p ← c; mret (Then p k'))).
  { intros c k' Hk' Hc. eapply sat_bind; [exact Hc|]. intros p Hp.
    apply sat_ret. unfold quietp in *. simpl. rewrite Hp.
    destruct k'; try reflexivity. destruct Hk'. }
  intros Hq. destruct k, r; simpl in Hq |- *;
    try discriminate Hq;
    try (apply sat_ret; reflexivity);
    try (apply Hthen; [exact I | solve [apply Hh | apply He]]).
  - (* KOnError, Res *)
    destruct (is_false v); [apply Hthen; [exact I | apply Hh]|].
    apply sat_ret; reflexivity.
  - (* KCallHandler, Res *)
    destruct (_ || _); [apply Hthen; [exact I | apply Hh]|].
    apply sat_ret; reflexivity.
  - (* KRetrieveSizeChanged, Res *)
    apply Hthen; [exact I|]. apply sat_hook. unfold all_sites. simpl. tauto.
  - (* KRetrieveBefore, Res *)
    destruct (_ || _); [apply sat_ret; reflexivity | apply sat_launch].
  - (* KProcessRetrieved, Res *)
    destruct (is_nullish v); [apply sat_ret; reflexivity|].
    destruct v; apply sat_ret; unfold quietp; simpl;
      rewrite ?wrappers_of_value; reflexivity.
  - (* KProcessSettled, Res *)
    apply Hthen; [exact I|]. apply sat_hook. unfold all_sites. simpl. tauto.
  - (* KProcessItemProcessed, Res *)
    destruct (is_false _); [apply Hthen; [exact I | apply Hh]|].
    apply sat_ret; reflexivity.
  - (* KEvaluate, Res *)
    eapply sat_bind; [apply sat_setImmediate|]. intros _ _.
    apply sat_ret; reflexivity.
  - (* KApi false, Res *)
    destruct evaluate; [discriminate Hq|].
    eapply sat_bind with (Q := fun _ => True); [apply sat_ret; exact I|].
    intros _ _. apply sat_ret; reflexivity.
Qed.

(** [_evaluateQueue] leaves the world alone or admits the head of the
    queue. *)
Lemma evaluateQueue_cases w :
  (_evaluateQueue StringToNumber prog reenter w).2 = w \/
  enters StringToNumber w (_evaluateQueue StringToNumber prog reenter w).2.
Proof.
  unfold _evaluateQueue. rewrite bind_run. simpl.
  destruct (_halted (self w)) eqn:Hh; [left; reflexivity|].
  destruct (_paused (self w)) eqn:Hp; [left; reflexivity|]. simpl.
  destruct (num_le _ _) eqn:Hl; [left; reflexivity|].
  destruct (_queue (self w)) as [|x q] eqn:Hq; [left; reflexivity|]. simpl.
  right.
  unfold _processNextItemWrapper, _processNextItem, _retrieveNextPromise.
  assert (Hs : shift w = (x, with_self (set_queue q) w))
    by (unfold shift; rewrite Hq; reflexivity).
  rewrite !bind_run. simpl. rewrite !Hs. simpl.
  change (set_history (history w ++ [EvDequeue x])
            (with_self (fun s => set_inProgressCount (_inProgressCount s + 1)%Z s)
               (with_self (set_queue q) w)))
    with (enter x q w).
  set (wa := enter x q w).
  destruct (sat_onQueueSizeChange prog reenter reenter_evolve all_sites
              covers_all wa) as [Hev Hqp].
  exists x, q, (_onQueueSizeChange prog reenter wa).2,
    (Then (Then (_onQueueSizeChange prog reenter wa).1 (KRetrieveSizeChanged x))
          KProcessRetrieved).
  split; [repeat split; assumption|].
  split; [exact Hq|].
  split; [exact Hev|].
  split; [unfold quietp in Hqp; simpl; rewrite Hqp; reflexivity|].
  rewrite Hq. reflexivity.
Qed.

Lemma after_notices_run p1 w :
  after_notices prog reenter p1 w =
  let n2 := push_if (Z.eqb 0%Z (_inProgressCount (self w)) && _halted (self w))
                    (_onAfterHaltCompleted prog reenter) w in
  let n3 := push_if (Z.eqb 0%Z (_inProgressCount (self n2.2)) && _paused (self n2.2))
                    (_onAfterPauseCompleted prog reenter) n2.2 in
  (Then (All (p1 ++ n2.1 ++ n3.1)) KSettle, n3.2).
Proof.
  unfold after_notices. rewrite bind_run. cbn [get fst snd].
  rewrite bind_run, bind_run. cbn [get fst snd]. rewrite bind_run. reflexivity.
Qed.

(** The wrapper's bookkeeping is [retire] and then hooks. *)
Lemma sat_push_if sites (b : bool) name :
  In name sites -> covers sites ->
  sat sites (Forall quietp)
    (push_if b (_callHandler prog reenter name VUndefined)).
Proof.
  intros Hn Hc. unfold push_if. destruct b; [|apply sat_ret; constructor].
  eapply sat_bind; [apply sat_callHandler; assumption|]. intros p Hp.
  apply sat_ret. repeat constructor. exact Hp.
Qed.

Lemma sat_after_notices sites p1 :
  In "afterHaltCompleted" sites -> In "afterPauseCompleted" sites ->
  covers sites -> Forall quietp p1 ->
  sat sites quietp (after_notices prog reenter p1).
Proof.
  intros H2 H3 Hc Hp1. unfold after_notices.
  eapply sat_bind; [apply sat_get|]. intros w2 _.
  eapply sat_bind; [apply sat_push_if; assumption|]. intros p2 Hp2.
  eapply sat_bind; [apply sat_get|]. intros w3 _.
  eapply sat_bind; [apply sat_push_if; assumption|]. intros p3 Hp3.
  apply sat_ret. unfold quietp. simpl. rewrite app_nil_r.
  apply all_wrappers_nil. repeat apply Forall_app_2; assumption.
Qed.

Lemma completed_run x w :
  completed prog reenter x w =
  let w1 := retire x w in
  let n := push_if (Z.eqb 0%Z (_inProgressCount (self w1))
                    && Nat.eqb 0 (length (_queue (self w1))))
                   (_onNoWork prog reenter) w1 in
  after_notices prog reenter n.1 n.2.
Proof.
  unfold completed. rewrite bind_run. cbn [modify fst snd].
  rewrite bind_run. cbn [get fst snd]. rewrite bind_run. reflexivity.
Qed.

(** The wrapper's bookkeeping is [retire] and then hooks. *)
Lemma completed_evolve x w :
  evolve all_sites (retire x w) (completed prog reenter x w).2 /\
  quietp (completed prog reenter x w).1.
Proof.
  rewrite completed_run. cbv zeta.
  assert (H : sat all_sites quietp
                (n ← push_if (Z.eqb 0%Z (_inProgressCount (self (retire x w)))
                              && Nat.eqb 0 (length (_queue (self (retire x w)))))
                             (_onNoWork prog reenter);
                 after_notices prog reenter n)).
  { eapply sat_bind;
      [apply sat_push_if; [unfold all_sites; simpl; tauto | apply covers_all]|].
    intros p1 Hp1. apply sat_after_notices; auto using covers_all;
      unfold all_sites; simpl; tauto. }
  specialize (H (retire x w)). rewrite bind_run in H. exact H.
Qed.

End ReactionsEvolve.

(** ** Every step of the scheduler is one of four moves *)

Lemma proc_ind' (P : proc -> Prop)
    (HS : forall r, P (Settled r)) (HF : P Forever)
    (HT : forall p k, P p -> P (Then p k))
    (HA : forall ps, Forall P ps -> P (All ps)) :
  forall p, P p.
Proof.
  fix IH 1. intros [r| |p k|ps].
  - apply HS.
  - apply HF.
  - apply HT, IH.
  - apply HA. induction ps as [|q ps IHps]; constructor; [apply IH | exact IHps].
Qed.

Lemma step_nth_inv f ps i w ps' w' :
  step_nth f ps i w = Some (ps', w') ->
  exists pre q post q',
    ps = pre ++ q :: post /\ ps' = pre ++ q' :: post /\ f q w = Some (q', w').
Proof.
  revert i ps'. induction ps as [|p ps IH]; intros i ps' H; simpl in H.
  - destruct i; discriminate.
  - destruct i as [|j].
    + destruct (f p w) as [[q' w1]|] eqn:Hf; [|discriminate].
      injection H as <- <-. exists [], p, ps, q'. auto.
    + destruct (step_nth f ps j w) as [[ps1 w1]|] eqn:Hs; [|discriminate].
      injection H as <- <-.
      destruct (IH _ _ Hs) as (pre & q & post & q' & -> & -> & Hf).
      exists (p :: pre), q, post, q'. auto.
Qed.

Lemma all_wrappers_unsettled ps : all_wrappers (unsettled ps) = all_wrappers ps.
Proof.
  unfold unsettled. induction ps as [|p ps IH]; [reflexivity|].
  rewrite filter_cons. case_decide as Hp.
  - simpl. rewrite IH. reflexivity.
  - rewrite IH. destruct p; simpl in *; congruence.
Qed.

Lemma all_wrappers_Permutation ps ps' :
  ps ≡ₚ ps' -> all_wrappers ps ≡ₚ all_wrappers ps'.
Proof.
  induction 1 as [|p ps ps' _ IH|p q ps|ps1 ps2 ps3 _ IH1 _ IH2]; simpl.
  - reflexivity.
  - rewrite IH. reflexivity.
  - rewrite !app_assoc, (Permutation_app_comm (wrappers q)). reflexivity.
  - rewrite IH1. exact IH2.
Qed.

Section Moves.

Variable StringToNumber : string -> number.
Variable prog : program.
Variable depth : nat.

Abbreviation moves := (moves StringToNumber).
Abbreviation enters := (enters StringToNumber).

Lemma moves_evolve w w' L L' :
  evolve all_sites w w' -> L' ≡ₚ L -> moves Quiet w L w' L'.
Proof.
  intros [o n h (evs & He & Fe) p f] HL.
  split; auto; try (rewrite n; simpl; lia).
  exists evs. auto.
Qed.

Lemma moves_retire x w w' L L' :
  evolve all_sites (retire x w) w' -> L ≡ₚ x :: L' -> moves (Retire x) w L w' L'.
Proof.
  intros [o n h (evs & He & Fe) p f] HL.
  split; auto; try (rewrite n; simpl; lia).
  - exists evs. split; [exact Fe|]. rewrite He. simpl.
    rewrite <- app_assoc. reflexivity.
  - intros Hf. apply f, fifo_retire, Hf.
Qed.

Lemma moves_drop x w L L' : L ≡ₚ x :: L' -> moves (Drop x) w L w L'.
Proof.
  intros HL. split; auto; try lia.
  exists []. simpl. rewrite app_nil_r. auto.
Qed.

Lemma moves_enters w w' L :
  enters w w' ->
  exists x, moves (Enter x) w (all_wrappers (pending w) ++ L)
              w' (all_wrappers (pending w') ++ L).
Proof.
  intros (x & q & w2 & P & Hm & Hq & [o n h (evs & He & Fe) p f] & HP & ->).
  exists x. split; simpl; auto; try (rewrite n; simpl; lia).
  - exists evs. split; [exact Fe|]. rewrite He. simpl.
    rewrite <- app_assoc. reflexivity.
  - rewrite all_wrappers_app, p. simpl. rewrite HP, app_nil_r. simpl.
    rewrite <- app_assoc. simpl.
    symmetry. apply Permutation_middle.
  - split; [exact Hm | eauto].
  - intros Hf. apply f. apply fifo_enter; assumption.
Qed.

Lemma moves_frame k w L w' L' L1 L1' s :
  moves k w L w' L' -> L1 ≡ₚ L ++ s -> L1' ≡ₚ L' ++ s -> moves k w L1 w' L1'.
Proof.
  intros [o h n hi wr ad f] H1 H1'. split; auto.
  destruct k; rewrite H1, H1'.
  - rewrite wr. reflexivity.
  - rewrite wr. reflexivity.
  - rewrite wr. reflexivity.
  - rewrite wr. reflexivity.
Qed.

Lemma moves_ledger k w L w' L' L1 L1' :
  moves k w L w' L' -> L1 ≡ₚ L -> L1' ≡ₚ L' -> moves k w L1 w' L1'.
Proof.
  intros H H1 H1'. apply (moves_frame k w L w' L' L1 L1' []); auto;
    rewrite app_nil_r; assumption.
Qed.

(** Changing the number of pending [setImmediate] calls, or the pending
    chains, beforehand does not change what kind of move a step is. *)
Lemma moves_from k w0 w L w' L' :
  self w0 = self w -> history w0 = history w ->
  moves k w L w' L' -> moves k w0 L w' L'.
Proof.
  intros Hs Hh [o h n hi wr ad f]. unfold fifo, may_enter in *.
  split; unfold fifo, may_enter; rewrite ?Hs, ?Hh; auto.
Qed.

Lemma moves_to k w L w' w1 L' :
  self w1 = self w' -> history w1 = history w' ->
  moves k w L w' L' -> moves k w L w1 L'.
Proof.
  intros Hs Hh [o h n hi wr ad f]. unfold fifo in *.
  split; unfold fifo; rewrite ?Hs, ?Hh; auto.
Qed.

Abbreviation react := (react StringToNumber prog depth).
Abbreviation pstep := (pstep StringToNumber prog depth).
Abbreviation step := (step StringToNumber prog depth).

Lemma react_moves k r w :
  exists kd,
    moves kd w (all_wrappers (pending w) ++ wrappers (Then (Settled r) k))
          (react k r w).2
          (all_wrappers (pending (react k r w).2) ++ wrappers (react k r w).1).
Proof.
  pose proof (reenter_at_evolve prog depth) as Hre.
  destruct (quiet_kont k r) eqn:Hq.
  - destruct (sat_quiet_kont StringToNumber prog _ Hre k r Hq w) as [Hev Hp].
    fold (react k r) in Hev, Hp.
    assert (Hk : (exists x err, k = KWrapper x /\ r = Rej err) \/
                 wrappers (Then (Settled r) k) = []).
    { destruct k; try (right; reflexivity).
      destruct r; [discriminate Hq | left; eauto]. }
    destruct Hk as [(x & err & -> & ->)|Hk].
    + exists (Drop x). apply moves_drop. simpl. rewrite app_nil_r.
      symmetry. apply Permutation_cons_append.
    + exists Quiet. apply moves_evolve; [exact Hev|].
      unfold quietp in Hp. rewrite Hp, Hk. destruct Hev as [_ _ _ _ -> _].
      reflexivity.
  - destruct k; try discriminate Hq; destruct r; try discriminate Hq.
    + (* the wrapper's bookkeeping *)
      destruct (completed_evolve prog _ Hre item w) as [Hev Hp].
      exists (Retire item). unfold react. simpl.
      apply moves_retire; [exact Hev|].
      unfold quietp in Hp. rewrite Hp. destruct Hev as [_ _ _ _ -> _].
      simpl. rewrite !app_nil_r. symmetry. apply Permutation_cons_append.
    + (* a method's reaction calls _evaluateQueue *)
      destruct evaluate; [|discriminate Hq].
      unfold react. simpl. rewrite bind_run. simpl.
      destruct (evaluateQueue_cases StringToNumber prog _ Hre w) as [->|Ha].
      * exists Quiet. apply moves_evolve; [apply evolve_refl | reflexivity].
      * destruct (moves_enters _ _ [] Ha) as [x Hx]. exists (Enter x).
        simpl. exact Hx.
    + destruct evaluate; discriminate Hq.
Qed.

Lemma pstep_Then_inner path q k w :
  is_settled q = false ->
  pstep path (Then q k) w =
  match pstep path q w with
  | Some (q', w') => Some (Then q' k, w')
  | None => None
  end.
Proof. destruct q; intros H; try reflexivity. discriminate H. Qed.

Lemma pstep_moves p : forall path w p' w',
  pstep path p w = Some (p', w') ->
  exists kd,
    moves kd w (all_wrappers (pending w) ++ wrappers p)
          w' (all_wrappers (pending w') ++ wrappers p').
Proof.
  induction p as [r| |q k IH|ps IH] using proc_ind'; intros path w p' w' H.
  - discriminate.
  - discriminate.
  - assert (Hin : forall q' w1, pstep path q w = Some (q', w1) ->
              p' = Then q' k -> w' = w1 ->
              exists kd, moves kd w (all_wrappers (pending w) ++ wrappers (Then q k))
                           w' (all_wrappers (pending w') ++ wrappers p')).
    { intros q' w1 Hq -> ->. destruct (IH _ _ _ _ Hq) as [kd Hkd].
      exists kd. simpl. eapply moves_frame; [exact Hkd| |];
        rewrite <- app_assoc; reflexivity. }
    destruct (is_settled q) eqn:Hset.
    + destruct q as [r| | |]; try discriminate Hset.
      simpl in H. injection H as H.
      rewrite (surjective_pairing (react k r w)) in H. injection H as <- <-.
      destruct (react_moves k r w) as [kd Hkd]. exists kd. exact Hkd.
    + rewrite pstep_Then_inner in H by exact Hset.
      destruct (pstep path q w) as [[q' w1]|] eqn:Hq; [|discriminate].
      injection H as <- <-. eapply Hin; reflexivity.
  - simpl in H. destruct (join ps) as [r|] eqn:Hj.
    + injection H as <- <-. exists Quiet. split; simpl; auto.
      * lia.
      * exists []. rewrite app_nil_r. auto.
      * rewrite all_wrappers_app, all_wrappers_unsettled, app_nil_r.
        reflexivity.
    + destruct path as [|i path']; [discriminate|].
      destruct (step_nth _ ps i w) as [[ps1 w1]|] eqn:Hs; [|discriminate].
      injection H as <- <-.
      destruct (step_nth_inv _ _ _ _ _ _ Hs)
        as (pre & q & post & q' & -> & -> & Hq).
      apply Forall_app in IH as [_ IH]. apply Forall_cons in IH as [IH _].
      destruct (IH _ _ _ _ Hq) as [kd Hkd]. exists kd.
      eapply (moves_frame _ _ _ _ _ _ _ (all_wrappers pre ++ all_wrappers post));
        [exact Hkd| |];
        simpl; rewrite !all_wrappers_app; simpl;
        rewrite !(Permutation_app_comm (all_wrappers pre));
        rewrite <- !app_assoc; reflexivity.
Qed.

(** The head of the theory: whatever the scheduler does next, the
    bookkeeping makes one of the four moves. *)
Lemma step_moves l w w' :
  step l w = Some w' ->
  exists kd, moves kd w (all_wrappers (pending w)) w' (all_wrappers (pending w')).
Proof.
  pose proof (reenter_at_evolve prog depth) as Hre.
  destruct l as [c|i path|]; simpl; intros H.
  - injection H as <-. exists Quiet.
    apply moves_evolve.
    + eapply evolve_mono; [apply covers_all | apply api_evolve; exact Hre].
    + pose proof (api_evolve prog _ Hre c w) as [_ _ _ _ -> _]. reflexivity.
  - destruct (pending w !! i) as [p|] eqn:Hp; [|discriminate].
    destruct (pstep path p _) as [[p' w1]|] eqn:Hs; [|discriminate].
    injection H as <-.
    destruct (pstep_moves _ _ _ _ _ Hs) as [kd Hkd]. exists kd.
    simpl in Hkd.
    eapply moves_from;
      [| |eapply (moves_to _ _ _ w1);
          [| |eapply moves_ledger; [exact Hkd| |]]].
    + reflexivity.
    + reflexivity.
    + reflexivity.
    + reflexivity.
    + apply delete_Permutation, all_wrappers_Permutation in Hp.
      rewrite Hp. simpl. apply Permutation_app_comm.
    + simpl. rewrite all_wrappers_app. simpl. rewrite app_nil_r. reflexivity.
  - destruct (immediates w) as [|n] eqn:Hi; [discriminate|].
    injection H as <-.
    destruct (evaluateQueue_cases StringToNumber prog _ Hre (set_immediates n w))
      as [->|Ha].
    + exists Quiet. apply moves_evolve; [|reflexivity].
      split; simpl; auto. exists []. rewrite app_nil_r. auto.
    + destruct (moves_enters _ _ [] Ha) as [x Hx]. exists (Enter x).
      rewrite !app_nil_r in Hx.
      eapply moves_from; [| |exact Hx]; reflexivity.
Qed.

End Moves.

(** ** What holds of every reachable world *)

Lemma num_le_mono l a b :
  (a <= b)%Z -> num_le l (num_of_Z a) = true -> num_le l (num_of_Z b) = true.
Proof.
  intros Hab. destruct l as [| |q|]; simpl; auto.
  rewrite !Qle_bool_iff. intros H.
  eapply Qle_trans; [exact H|]. rewrite <- Zle_Qle. exact Hab.
Qed.

Lemma num_le_Z a b : num_le (num_of_Z a) (num_of_Z b) = true <-> (a <= b)%Z.
Proof. simpl. rewrite Qle_bool_iff, <- Zle_Qle. reflexivity. Qed.

Lemma num_lt_Z a b : num_lt (num_of_Z a) (num_of_Z b) = true <-> (a < b)%Z.
Proof.
  simpl. rewrite negb_true_iff, <- not_true_iff_false, Qle_bool_iff, <- Zle_Qle.
  lia.
Qed.

Section Reachable.

Variable StringToNumber : string -> number.
Variable prog : program.
Variable depth : nat.

Abbreviation step := (step StringToNumber prog depth).
Abbreviation exec := (exec StringToNumber prog depth).
Abbreviation moves := (moves StringToNumber).
Abbreviation consistent := (consistent StringToNumber).

Lemma exec_invariant (I : world -> Prop) :
  (forall l w w', I w -> step l w = Some w' -> I w') ->
  forall ls w w', I w -> exec ls w = Some w' -> I w'.
Proof.
  intros Hstep ls. induction ls as [|l ls IH]; intros w w' Hw H; simpl in H.
  - injection H as <-. exact Hw.
  - destruct (step l w) as [w1|] eqn:Hs; [|discriminate].
    eapply IH; [eapply Hstep; eassumption | exact H].
Qed.

Lemma exec_app ls1 ls2 w :
  exec (ls1 ++ ls2) w =
  match exec ls1 w with Some w1 => exec ls2 w1 | None => None end.
Proof.
  revert w. induction ls1 as [|l ls1 IH]; intros w; simpl; [reflexivity|].
  destruct (step l w); [apply IH | reflexivity].
Qed.

Lemma moves_dequeued kd w L w' L' :
  moves kd w L w' L' ->
  dequeued (history w') =
  dequeued (history w) ++ match kd with Enter x => [x] | _ => [] end.
Proof.
  intros [_ _ _ (evs & Fe & ->) _ _ _].
  rewrite !dequeued_app, (quiet_dequeued _ _ Fe).
  destruct kd; simpl; rewrite ?app_nil_r; reflexivity.
Qed.

Lemma moves_finished kd w L w' L' :
  moves kd w L w' L' ->
  finished (history w') =
  finished (history w) ++ match kd with Retire x => [x] | _ => [] end.
Proof.
  intros [_ _ _ (evs & Fe & ->) _ _ _].
  rewrite !finished_app, (quiet_finished _ _ Fe).
  destruct kd; simpl; rewrite ?app_nil_r; reflexivity.
Qed.

Lemma moves_consistent kd w w' :
  moves kd w (all_wrappers (pending w)) w' (all_wrappers (pending w')) ->
  consistent w -> consistent w'.
Proof.
  intros Hm [Hf Hl Hc Hu].
  pose proof (moves_dequeued _ _ _ _ _ Hm) as Hd.
  pose proof (moves_finished _ _ _ _ _ Hm) as Hfin.
  destruct Hm as [o h n hi wr ad f].
  split.
  - auto.
  - rewrite n. destruct kd; apply Permutation_length in wr; simpl in wr; lia.
  - rewrite Hd, Hfin, n, !length_app. destruct kd; simpl; lia.
  - unfold within_limit in *. rewrite n, o.
    destruct kd as [|x|x|x].
    + replace (_inProgressCount (self w) + 0)%Z
        with (_inProgressCount (self w)) by lia. exact Hu.
    + right. destruct ad as [(_ & _ & Hg) _].
      replace (_inProgressCount (self w) + 1 - 1)%Z
        with (_inProgressCount (self w)) by lia. exact Hg.
    + destruct Hu as [Hu|Hu]; [left; lia|]. right.
      apply not_true_iff_false. intros Hle. apply not_true_iff_false in Hu.
      apply Hu. eapply num_le_mono; [|exact Hle]. lia.
    + replace (_inProgressCount (self w) + 0)%Z
        with (_inProgressCount (self w)) by lia. exact Hu.
Qed.

Lemma step_consistent l w w' :
  consistent w -> step l w = Some w' -> consistent w'.
Proof.
  intros Hw Hs. destruct (step_moves _ _ _ _ _ _ Hs) as [kd Hkd].
  eapply moves_consistent; eassumption.
Qed.

Lemma exec_consistent ls w w' :
  consistent w -> exec ls w = Some w' -> consistent w'.
Proof. apply exec_invariant. intros l. apply step_consistent. Qed.

Lemma step_options l w w' :
  step l w = Some w' -> _options (self w') = _options (self w).
Proof.
  intros Hs. destruct (step_moves _ _ _ _ _ _ Hs) as [kd Hkd]. apply Hkd.
Qed.

Lemma exec_options ls w w' :
  exec ls w = Some w' -> _options (self w') = _options (self w).
Proof.
  revert w. induction ls as [|l ls IH]; intros w H; simpl in H.
  - injection H as <-. reflexivity.
  - destruct (step l w) as [w1|] eqn:Hs; [|discriminate].
    rewrite (IH _ H). eapply step_options, Hs.
Qed.

(** Once halted, always halted, and nothing is taken from the queue. *)
Lemma step_halted l w w' :
  _halted (self w) = true -> step l w = Some w' ->
  _halted (self w') = true /\ dequeued (history w') = dequeued (history w).
Proof.
  intros Hh Hs. destruct (step_moves _ _ _ _ _ _ Hs) as [kd Hkd].
  split; [apply Hkd, Hh|].
  rewrite (moves_dequeued _ _ _ _ _ Hkd).
  destruct kd; rewrite ?app_nil_r; try reflexivity.
  destruct Hkd as [_ _ _ _ _ [(Hn & _) _] _]. congruence.
Qed.

Lemma exec_halted ls w w' :
  _halted (self w) = true -> exec ls w = Some w' ->
  _halted (self w') = true /\ dequeued (history w') = dequeued (history w).
Proof.
  revert w. induction ls as [|l ls IH]; intros w Hh H; simpl in H.
  - injection H as <-. auto.
  - destruct (step l w) as [w1|] eqn:Hs; [|discriminate].
    destruct (step_halted _ _ _ Hh Hs) as [Hh1 Hd1].
    destruct (IH _ Hh1 H) as [Hh2 Hd2]. split; congruence.
Qed.

Lemma constructor_consistent options w0 :
  constructor StringToNumber options = Normal w0 -> consistent w0.
Proof.
  unfold constructor. destruct (_validateOptions _ _); [|discriminate].
  intros [= <-]. split; simpl; try reflexivity.
  left. simpl. lia.
Qed.

(** With a limit of one the queue is sequential. *)
Lemma moves_sequential kd w w' :
  ToNumber StringToNumber (concurrencyLimit (_options (self w))) = Fin 1 ->
  moves kd w (all_wrappers (pending w)) w' (all_wrappers (pending w')) ->
  consistent w -> sequential w -> sequential w'.
Proof.
  intros Hone Hm [Hf Hl Hc Hu] (tail & Ht & Hin).
  pose proof (moves_dequeued _ _ _ _ _ Hm) as Hd.
  pose proof (moves_finished _ _ _ _ _ Hm) as Hfin.
  assert (Hlen : Z.of_nat (length tail) = _inProgressCount (self w)).
  { rewrite Ht, length_app in Hc. lia. }
  assert (Hle : (_inProgressCount (self w) <= 1)%Z).
  { destruct Hu as [Hu|Hu]; [lia|]. rewrite Hone in Hu.
    apply not_true_iff_false in Hu.
    destruct (Z_le_gt_dec (_inProgressCount (self w)) 1) as [|Hgt]; [assumption|].
    exfalso. apply Hu. change (Fin 1) with (num_of_Z 1).
    apply num_le_Z. lia. }
  destruct Hm as [o h n hi wr ad f].
  unfold sequential. rewrite Hd, Hfin.
  destruct kd as [|x|x|x]; rewrite ?app_nil_r.
  - exists tail. split; [exact Ht|]. intros y Hy. apply Hin.
    rewrite <- wr. exact Hy.
  - destruct ad as [(_ & _ & Hg) _]. rewrite Hone in Hg.
    assert (Hz : _inProgressCount (self w) = 0%Z).
    { apply not_true_iff_false in Hg.
      destruct (Z_le_gt_dec 1 (_inProgressCount (self w))) as [Hge|]; [|lia].
      exfalso. apply Hg. change (Fin 1) with (num_of_Z 1).
      apply num_le_Z. exact Hge. }
    destruct tail; [|simpl in Hlen; lia].
    exists [x]. rewrite Ht, app_nil_r. split; [reflexivity|].
    intros y Hy. rewrite wr in Hy. destruct Hy as [<-|Hy]; [left; reflexivity|].
    destruct (Hin _ Hy).
  - assert (Hx : In x tail). { apply Hin. rewrite wr. left. reflexivity. }
    destruct tail as [|t [|t' tail]]; [destruct Hx| |simpl in Hlen; lia].
    destruct Hx as [->|[]].
    exists []. rewrite Ht, app_nil_r. split; [reflexivity|].
    intros y Hy. apply Permutation_length in wr. simpl in wr, Hlen.
    destruct (all_wrappers (pending w')); [destruct Hy | simpl in wr; lia].
  - exists tail. split; [exact Ht|]. intros y Hy. apply Hin.
    rewrite wr. right. exact Hy.
Qed.

Lemma exec_sequential ls w w' :
  ToNumber StringToNumber (concurrencyLimit (_options (self w))) = Fin 1 ->
  consistent w -> sequential w -> exec ls w = Some w' ->
  consistent w' /\ sequential w'.
Proof.
  intros Hone Hc Hs H.
  apply (exec_invariant (fun w1 =>
    _options (self w1) = _options (self w) /\ consistent w1 /\ sequential w1)
    ) with (w' := w') in H.
  - tauto.
  - intros l w1 w2 (Ho & Hc1 & Hs1) Hstep.
    destruct (step_moves _ _ _ _ _ _ Hstep) as [kd Hkd].
    split; [transitivity (_options (self w1)); [apply Hkd | exact Ho]|].
    split; [eapply moves_consistent; eassumption|].
    apply (moves_sequential kd w1 w2);
      [rewrite Ho; exact Hone | exact Hkd | exact Hc1 | exact Hs1].
  - auto.
Qed.

End Reachable.

Lemma cleared_nil_removed h : cleared h = [] -> removed h = dequeued h.
Proof.
  induction h as [|e h IH]; simpl; [reflexivity|].
  destruct e; simpl; auto.
  - intros H. rewrite IH by exact H. reflexivity.
  - intros [-> H]%app_eq_nil. simpl. auto.
Qed.

(** ** The constructor *)

Section Constructor.

Variable StringToNumber : string -> number.

(** The options as the constructor reads them: nothing given is [{}], and
    a [concurrencyLimit] that is not given is 1. *)
Lemma validateOptions_Normal options opts :
  _validateOptions StringToNumber options = Normal opts ->
  let given := match options with
               | None => {| concurrencyLimit := VUndefined;
                            processor := VUndefined |}
               | Some o => o
               end in
  opts = {| concurrencyLimit :=
              if is_nullish (concurrencyLimit given)
              then DEFAULT_CONCURRENCY_LIMIT else concurrencyLimit given;
            processor := processor given |} /\
  isNaN StringToNumber (concurrencyLimit opts) = false /\
  num_lt (ToNumber StringToNumber (concurrencyLimit opts)) (Fin 1) = false /\
  (is_nullish (processor opts) || is_function (processor opts)) = true.
Proof.
  unfold _validateOptions. cbv zeta. intros H.
  remember (match options with
            | Some o => o
            | None => {| concurrencyLimit := VUndefined; processor := VUndefined |}
            end) as given eqn:Hg.
  clear Hg. destruct given as [cl pr].
  cbn [concurrencyLimit processor] in *.
  set (o := if is_nullish cl
            then {| concurrencyLimit := DEFAULT_CONCURRENCY_LIMIT;
                    processor := pr |}
            else {| concurrencyLimit := cl; processor := pr |}) in H.
  assert (Ho : o = {| concurrencyLimit :=
                        if is_nullish cl then DEFAULT_CONCURRENCY_LIMIT else cl;
                      processor := pr |})
    by (unfold o; destruct (is_nullish cl); reflexivity).
  clearbody o.
  destruct (isNaN StringToNumber (concurrencyLimit o)) eqn:H1; [discriminate|].
  destruct (num_lt _ _) eqn:H2; [discriminate|].
  destruct (negb (is_nullish (processor o)) && negb (is_function (processor o)))
    eqn:H3; [discriminate|].
  injection H as <-. repeat split; auto.
  destruct (is_nullish (processor o)), (is_function (processor o));
    simpl in *; congruence.
Qed.

Lemma constructor_Normal options w0 :
  constructor StringToNumber options = Normal w0 ->
  exists opts,
    _validateOptions StringToNumber options = Normal opts /\
    w0 = {| self := {| _options := opts; _queue := [];
                       _inProgressCount := 0%Z; _callbacks := ∅;
                       _halted := false; _paused := false |};
            pending := []; immediates := 0; history := [] |}.
Proof.
  unfold constructor. destruct (_validateOptions _ _) as [opts|]; [|discriminate].
  intros [= <-]. eauto.
Qed.

End Constructor.

(** * The claims *)

Section Claims.

Variable StringToNumber : string -> number.
Variable prog : program.
Variable depth : nat.

Abbreviation exec := (exec StringToNumber prog depth).
Abbreviation constructor := (constructor StringToNumber).
Abbreviation _evaluateQueue :=
  (_evaluateQueue StringToNumber prog (reenter_at prog depth)).

(** C1.  Whatever the user's code does and in whatever order the event loop
    runs the reactions, a queue whose [concurrencyLimit] is the whole number
    [k] (given, or 1 by default) has between 0 and [k] items in progress in
    every world it reaches; and a call of [_evaluateQueue] that changes the
    count finds it below [k] and adds one. *)
Theorem in_progress_never_exceeds_limit
    (k : Z) (options : option Options) (w0 w : world) (ls : list label) :
  constructor options = Normal w0 ->
  concurrencyLimit (_options (self w0)) = VNum (num_of_Z k) ->
  exec ls w0 = Some w ->
  (0 <= _inProgressCount (self w) <= k)%Z /\
  (_inProgressCount (self (_evaluateQueue w).2) <> _inProgressCount (self w) ->
   (_inProgressCount (self w) < k)%Z /\
   _inProgressCount (self (_evaluateQueue w).2) =
     (_inProgressCount (self w) + 1)%Z).
Proof.
  intros Hc Hlimit He.
  pose proof (exec_consistent _ _ _ _ _ _
                (constructor_consistent _ _ _ Hc) He) as [_ Hl _ Hu].
  pose proof (exec_options _ _ _ _ _ _ He) as Ho.
  destruct (constructor_Normal _ _ _ Hc) as (opts & Hv & ->).
  destruct (validateOptions_Normal _ _ _ Hv) as (_ & _ & Hk & _).
  cbn [self _options] in Hlimit, Ho. rewrite Hlimit in Hk.
  cbn [ToNumber] in Hk.
  assert (Hk1 : (1 <= k)%Z).
  { apply not_true_iff_false in Hk. change (Fin 1) with (num_of_Z 1) in Hk.
    rewrite num_lt_Z in Hk. lia. }
  unfold within_limit in Hu. rewrite Ho, Hlimit in Hu.
  cbn [ToNumber] in Hu.
  split.
  - split; [lia|]. destruct Hu as [Hu|Hu]; [lia|].
    apply not_true_iff_false in Hu. rewrite num_le_Z in Hu. lia.
  - intros Hne.
    destruct (evaluateQueue_cases StringToNumber prog _
                (reenter_at_evolve prog depth) w) as [Hsame|Ha].
    + rewrite Hsame in Hne. congruence.
    + pose proof Ha as (x & q & w2 & P & (_ & _ & Hg) & _).
      destruct (moves_enters StringToNumber _ _ [] Ha) as [y [_ _ Hn _ _ _ _]].
      split; [|exact Hn].
      rewrite Ho, Hlimit in Hg. cbn [ToNumber] in Hg.
      apply not_true_iff_false in Hg. rewrite num_le_Z in Hg. lia.
Qed.


End Claims.

(** Four tasks on a queue of limit two, at the moment one of them is in
    progress and [_evaluateQueue] is about to take in the second. *)
Lemma in_progress_never_exceeds_limit_witness :
  let w := Demo.play (firstn 9 Demo.four_tasks) Demo.limit_two in
  let w' := (_evaluateQueue Demo.numerals Demo.code
               (reenter_at Demo.code Demo.nesting) w).2 in
  _inProgressCount (self w) = 1%Z /\
  (0 <= _inProgressCount (self w) <= 2)%Z /\
  (_inProgressCount (self w) < 2)%Z /\
  _inProgressCount (self w') = (_inProgressCount (self w) + 1)%Z.
Proof.
  intros w w'.
  destruct (in_progress_never_exceeds_limit Demo.numerals Demo.code Demo.nesting
              2 (Some {| concurrencyLimit := VNum (num_of_Z 2);
                         processor := VUndefined |})
              Demo.limit_two w (firstn 9 Demo.four_tasks))
    as [Hbounds Hadmit].
  - vm_compute. reflexivity.
  - vm_compute. reflexivity.
  - vm_compute. reflexivity.
  - split; [vm_compute; reflexivity|]. split; [exact Hbounds|].
    apply Hadmit. vm_compute. discriminate.
Defined.


(** ** The methods, one call at a time *)

Section Calls.

Variable prog : program.
Variable reenter : api_call -> world -> world.

Lemma call_run site f arg w :
  call prog reenter site (VFun f) arg w =
  (result (next_call prog f arg w),
   after_effects reenter (effects (next_call prog f arg w)) (record_call site f arg w)).
Proof. reflexivity. Qed.

Lemma callback_registered name f w :
  _callbacks (self w) !! name = Some (VFun f) ->
  callback name w = (Some (VFun f), w).
Proof. unfold callback. intros ->. reflexivity. Qed.

Lemma callback_missing name w :
  _callbacks (self w) !! name = None -> callback name w = (None, w).
Proof. unfold callback. intros ->. reflexivity. Qed.

Lemma onHalted_run reason f w :
  _callbacks (self w) !! "halted" = Some (VFun f) ->
  _onHalted prog reenter reason w =
  (match result (next_call prog f reason w) with
   | Throws ex => Settled (Rej (tag ERROR_SOURCES.CALLBACK ex))
   | Returns v => if is_thenable v then Then (of_value v) KOnHalted
                  else Settled (Res VUndefined)
   end,
   after_effects reenter (effects (next_call prog f reason w)) (record_call "halted" f reason w)).
Proof.
  intros Hcb. unfold _onHalted. rewrite bind_run, (callback_registered _ _ _ Hcb).
  cbn [fst snd]. rewrite bind_run, call_run. cbn [fst snd].
  destruct (result _) as [v|ex]; [destruct (is_thenable v)|]; reflexivity.
Qed.

Lemma onHalted_missing reason w :
  _callbacks (self w) !! "halted" = None ->
  _onHalted prog reenter reason w = (Settled (Res VUndefined), w).
Proof.
  intros Hcb. unfold _onHalted. rewrite bind_run, (callback_missing _ _ Hcb).
  reflexivity.
Qed.

Lemma halt_halted reason w :
  _halted (self w) = true ->
  _halt prog reenter reason w = (Settled (Res VUndefined), w).
Proof. intros Hh. unfold _halt. rewrite bind_run. simpl. rewrite Hh. reflexivity. Qed.

Lemma halt_run reason w :
  _halted (self w) = false ->
  _halt prog reenter reason w =
  (Then (_onHalted prog reenter reason (with_self (set_halted true) w)).1 KHalt,
   (_onHalted prog reenter reason (with_self (set_halted true) w)).2).
Proof.
  intros Hh. unfold _halt. rewrite bind_run. simpl. rewrite Hh.
  rewrite !bind_run. reflexivity.
Qed.

Lemma onError_run err f w :
  _callbacks (self w) !! "error" = Some (VFun f) ->
  _onError prog reenter err w =
  let w1 := after_effects reenter (effects (next_call prog f err w)) (record_call "error" f err w) in
  match result (next_call prog f err w) with
  | Throws ex =>
      (Then (_halt prog reenter
               (WorkQueueHaltData (VStr HALT_REASONS.ERRORCALLBACKERROR) ex
                                  (VStr "error")) w1).1 KSettle,
       (_halt prog reenter
          (WorkQueueHaltData (VStr HALT_REASONS.ERRORCALLBACKERROR) ex
                             (VStr "error")) w1).2)
  | Returns v => (Then (of_value v) KOnError, w1)
  end.
Proof.
  intros Hcb. unfold _onError. rewrite bind_run, (callback_registered _ _ _ Hcb).
  cbn [fst snd]. rewrite bind_run, call_run. cbn [fst snd].
  destruct (result _) as [v|ex]; [reflexivity|].
  rewrite bind_run. reflexivity.
Qed.

Lemma onError_missing err w :
  _callbacks (self w) !! "error" = None ->
  _onError prog reenter err w = (Settled (Res VUndefined), w).
Proof.
  intros Hcb. unfold _onError. rewrite bind_run, (callback_missing _ _ Hcb).
  reflexivity.
Qed.

Lemma callHandler_run name parameter f w :
  _callbacks (self w) !! name = Some (VFun f) ->
  _callHandler prog reenter name parameter w =
  let w1 := after_effects reenter (effects (next_call prog f parameter w))
              (record_call name f parameter w) in
  match result (next_call prog f parameter w) with
  | Throws ex =>
      (Then (_onError prog reenter (tag ERROR_SOURCES.CALLBACK ex) w1).1 KSettle,
       (_onError prog reenter (tag ERROR_SOURCES.CALLBACK ex) w1).2)
  | Returns v => (Then (of_value v) (KCallHandler name), w1)
  end.
Proof.
  intros Hcb. unfold _callHandler. rewrite bind_run, (callback_registered _ _ _ Hcb).
  cbn [fst snd]. rewrite bind_run, call_run. cbn [fst snd].
  destruct (result _) as [v|ex]; [reflexivity|].
  rewrite bind_run. reflexivity.
Qed.

Lemma callHandler_missing name parameter w :
  _callbacks (self w) !! name = None ->
  _callHandler prog reenter name parameter w = (Settled (Res VUndefined), w).
Proof.
  intros Hcb. unfold _callHandler. rewrite bind_run, (callback_missing _ _ Hcb).
  reflexivity.
Qed.

End Calls.

(** ** Halting *)

Section Halting.

Variable StringToNumber : string -> number.
Variable prog : program.
Variable depth : nat.

Abbreviation exec := (exec StringToNumber prog depth).
Abbreviation settle := (settle StringToNumber prog depth).
Abbreviation react := (react StringToNumber prog depth).
Abbreviation _halt := (_halt prog (reenter_at prog depth)).
Abbreviation _onError := (_onError prog (reenter_at prog depth)).

Lemma settle_done fuel r w : settle fuel (Settled r) w = (Settled r, w).
Proof. destruct fuel; reflexivity. Qed.

Lemma settle_react fuel k r w :
  settle (S fuel) (Then (Settled r) k) w = settle fuel (react k r w).1 (react k r w).2.
Proof. simpl. destruct (react k r w). reflexivity. Qed.

Lemma settle_react_inner fuel k k' r w :
  settle (S fuel) (Then (Then (Settled r) k) k') w =
  settle fuel (Then (react k r w).1 k') (react k r w).2.
Proof. simpl. destruct (react k r w). reflexivity. Qed.

(** C4.  [_halt] on a queue that is halted returns at once and leaves the
    world as it is: the [halted] callback is not called again.  On a queue
    that is not halted, with a [halted] callback and an [error] callback that
    both throw whenever they are called, the chain of [_halt] ends after
    three reactions, having called the [halted] callback once and then the
    [error] callback once, with the error of the [halted] callback; the queue
    is halted.  And a queue that is halted stays halted whatever runs next. *)
Theorem halt_is_idempotent :
  (forall reason w,
     _halted (self w) = true -> _halt reason w = (Settled (Res VUndefined), w)) /\
  (forall reason w fh fe,
     _halted (self w) = false ->
     _callbacks (self w) !! "halted" = Some (VFun fh) ->
     _callbacks (self w) !! "error" = Some (VFun fe) ->
     (forall n a, effects (prog fh n a) = [] /\
                  exists ex, result (prog fh n a) = Throws ex) ->
     (forall n a, effects (prog fe n a) = [] /\
                  exists ex, result (prog fe n a) = Throws ex) ->
     exists err,
       source_of err = VStr ERROR_SOURCES.CALLBACK /\
       forall fuel, 3 <= fuel ->
         settle fuel (_halt reason w).1 (_halt reason w).2 =
         (Settled (Res VUndefined),
          record_call "error" fe err
            (record_call "halted" fh reason (with_self (set_halted true) w)))) /\
  (forall ls w w',
     _halted (self w) = true -> exec ls w = Some w' -> _halted (self w') = true).
Proof.
  split; [|split].
  - intros reason w Hh. apply halt_halted, Hh.
  - intros reason w fh fe Hh Hcbh Hcbe Hfh Hfe.
    set (w1 := with_self (set_halted true) w).
    destruct (Hfh (calls_of fh (history w1)) reason) as [Heff (exh & Hres)].
    set (err := tag ERROR_SOURCES.CALLBACK exh).
    set (w2 := record_call "halted" fh reason w1).
    destruct (Hfe (calls_of fe (history w2)) err) as [Heff' (exe & Hres')].
    exists err. split.
    { unfold err, tag. destruct exh; reflexivity. }
    intros fuel Hfuel.
    destruct fuel as [|[|[|fuel]]]; try lia.
    rewrite (halt_run _ _ _ _ Hh).
    rewrite (onHalted_run _ _ _ fh) by exact Hcbh.
    fold w1. unfold next_call. rewrite Heff, Hres.
    cbn [fst snd after_effects fold_left]. fold w2. fold err.
    rewrite settle_react.
    assert (Hr1 : react KHalt (Rej err) w2 =
                  (Then (Then (Settled (Res VUndefined)) KSettle) KGiveUp,
                   record_call "error" fe err w2)).
    { unfold_react. cbn [run_kont]. rewrite bind_run.
      rewrite (onError_run _ _ _ fe) by exact Hcbe.
      unfold next_call. rewrite Heff', Hres'.
      cbn [fst snd after_effects fold_left].
      rewrite halt_halted by reflexivity. reflexivity. }
    rewrite Hr1. cbn [fst snd].
    rewrite settle_react_inner. cbn_react.
    rewrite settle_react. cbn_react.
    apply settle_done.
  - intros ls w w' Hh He. eapply exec_halted; eassumption.
Qed.

End Halting.

Section Halts.

Variable StringToNumber : string -> number.
Variable prog : program.
Variable depth : nat.

Abbreviation exec := (exec StringToNumber prog depth).
Abbreviation react := (react StringToNumber prog depth).
Abbreviation reenter := (reenter_at prog depth).
Abbreviation _halt := (_halt prog (reenter_at prog depth)).
Abbreviation _evaluateQueue :=
  (_evaluateQueue StringToNumber prog (reenter_at prog depth)).

Lemma after_effects_evolve cs w :
  evolve api_sites w (after_effects reenter cs w).
Proof. apply effects_evolve, reenter_at_evolve. Qed.

Lemma after_effects_history cs w :
  exists evs, history (after_effects reenter cs w) = history w ++ evs.
Proof.
  destruct (after_effects_evolve cs w) as [_ _ _ (evs & He & _) _ _]. eauto.
Qed.

Lemma halt_halts reason w : _halted (self (_halt reason w).2) = true.
Proof.
  destruct (_halted (self w)) eqn:Hh.
  - rewrite halt_halted by exact Hh. exact Hh.
  - rewrite halt_run by exact Hh. cbn [snd].
    apply (sat_onHalted prog _ (reenter_at_evolve prog depth) api_sites reason
             covers_api (with_self (set_halted true) w)).
    reflexivity.
Qed.

Lemma evaluateQueue_halted w :
  _halted (self w) = true -> _evaluateQueue w = (tt, w).
Proof.
  intros Hh. unfold_evaluateQueue. rewrite bind_run. simpl.
  rewrite Hh. reflexivity.
Qed.


End Halts.



(** Both callbacks throw: the chain of [_halt] calls each of them once. *)
Lemma halt_is_idempotent_witness :
  let w := Demo.play Demo.both_throw (Demo.fresh None) in
  let reason :=
    WorkQueueHaltData (VStr HALT_REASONS.PROCESSRETVAL) VUndefined VUndefined in
  let halting := _halt Demo.code (reenter_at Demo.code Demo.nesting) reason w in
  exists err,
    source_of err = VStr ERROR_SOURCES.CALLBACK /\
    forall fuel, 3 <= fuel ->
      settle Demo.numerals Demo.code Demo.nesting fuel halting.1 halting.2 =
      (Settled (Res VUndefined),
       record_call "error" 8 err
         (record_call "halted" 8 reason (with_self (set_halted true) w))).
Proof.
  intros w reason halting.
  apply (proj1 (proj2 (halt_is_idempotent Demo.numerals Demo.code Demo.nesting))).
  - vm_compute. reflexivity.
  - vm_compute. reflexivity.
  - vm_compute. reflexivity.
  - intros n a. split; [reflexivity | eexists; reflexivity].
  - intros n a. split; [reflexivity | eexists; reflexivity].
Defined.

(** ** Hooks *)

Lemma calls_at_quiet name sites evs :
  Forall (site_in sites) evs -> ~ In name sites -> calls_at name evs = [].
Proof.
  intros H Hn. induction H as [|e evs He _ IH]; [reflexivity|].
  simpl. rewrite IH, app_nil_r. destruct e; try reflexivity.
  simpl in He. destruct (String.eqb_spec name site) as [->|]; [tauto | reflexivity].
Qed.

Section Hooks.

Variable StringToNumber : string -> number.
Variable prog : program.
Variable depth : nat.

Abbreviation exec := (exec StringToNumber prog depth).
Abbreviation react := (react StringToNumber prog depth).
Abbreviation settle := (settle StringToNumber prog depth).
Abbreviation reenter := (reenter_at prog depth).
Abbreviation _halt := (_halt prog (reenter_at prog depth)).
Abbreviation _onHalted := (_onHalted prog (reenter_at prog depth)).
Abbreviation _onError := (_onError prog (reenter_at prog depth)).
Abbreviation _callHandler := (_callHandler prog (reenter_at prog depth)).
Abbreviation _evaluateQueue :=
  (_evaluateQueue StringToNumber prog (reenter_at prog depth)).
Abbreviation completed := (completed prog (reenter_at prog depth)).
Abbreviation add := (add prog (reenter_at prog depth)).
Abbreviation addAll := (addAll prog (reenter_at prog depth)).
Abbreviation pause := (pause prog (reenter_at prog depth)).
Abbreviation next_call := (next_call prog).
Abbreviation after_effects := (after_effects (reenter_at prog depth)).

Lemma onError_history err fe w :
  _callbacks (self w) !! "error" = Some (VFun fe) ->
  exists evs,
    history (_onError err w).2 = history w ++ EvCall "error" fe err :: evs /\
    Forall (site_in api_sites) evs.
Proof.
  intros Hcb. rewrite (onError_run _ _ _ fe) by exact Hcb. cbv zeta.
  destruct (after_effects_evolve prog depth (effects (next_call fe err w))
              (record_call "error" fe err w)) as [_ _ _ (evs & He & Fe) _ _].
  destruct (result _) as [v|ex]; cbn [snd].
  - exists evs. rewrite He. simpl. rewrite <- app_assoc. auto.
  - destruct (sat_halt prog _ (reenter_at_evolve prog depth) api_sites
                (WorkQueueHaltData (VStr HALT_REASONS.ERRORCALLBACKERROR) ex
                                   (VStr "error")) covers_api
                (after_effects (effects (next_call fe err w))
                               (record_call "error" fe err w)))
      as [[_ _ _ (evs2 & He2 & Fe2) _ _] _].
    exists (evs ++ evs2). rewrite He2, He. simpl. rewrite <- !app_assoc.
    split; [reflexivity | apply Forall_app; auto].
Qed.

Lemma callHandler_history name parameter f w :
  _callbacks (self w) !! name = Some (VFun f) ->
  exists evs,
    history (_callHandler name parameter w).2 =
      history w ++ EvCall name f parameter :: evs /\
    Forall (site_in api_sites) evs.
Proof.
  intros Hcb. rewrite (callHandler_run _ _ _ _ f) by exact Hcb. cbv zeta.
  destruct (after_effects_evolve prog depth (effects (next_call f parameter w))
              (record_call name f parameter w)) as [_ _ _ (evs & He & Fe) _ _].
  destruct (result _) as [v|ex]; cbn [snd].
  - exists evs. rewrite He. simpl. rewrite <- app_assoc. auto.
  - destruct (sat_onError prog _ (reenter_at_evolve prog depth) api_sites
                (tag ERROR_SOURCES.CALLBACK ex) covers_api
                (after_effects (effects (next_call f parameter w))
                               (record_call name f parameter w)))
      as [[_ _ _ (evs2 & He2 & Fe2) _ _] _].
    exists (evs ++ evs2). rewrite He2, He. simpl. rewrite <- !app_assoc.
    split; [reflexivity | apply Forall_app; auto].
Qed.

(** The checks after the [noWork] check call no other hook than
    [afterHaltCompleted] and [afterPauseCompleted], and what these reach. *)
Lemma after_notices_history p1 w :
  Forall quietp p1 ->
  exists evs,
    history (after_notices prog reenter p1 w).2 = history w ++ evs /\
    Forall (site_in ("afterHaltCompleted" :: "afterPauseCompleted" :: api_sites)) evs.
Proof.
  intros Hp1.
  destruct (sat_after_notices prog _ (reenter_at_evolve prog depth)
              ("afterHaltCompleted" :: "afterPauseCompleted" :: api_sites) p1)
    with (w := w) as [[_ _ _ He _ _] _]; auto.
  - simpl. tauto.
  - simpl. tauto.
  - apply covers_cons, covers_cons, covers_api.
Qed.

(** C9.  When the wrapper of an item does its bookkeeping, with a [noWork]
    callback registered, the callback is called, once and first, if and only
    if the count of items in progress has just come down to 0 and the queue
    is empty.  The test reads the count and the queue each time: in the
    example the callback adds a task from inside its first call, and it is
    called again when that task has completed. *)
Theorem noWork_iff_idle (x r : value) (w : world) (f : fnid) :
  _callbacks (self w) !! "noWork" = Some (VFun f) ->
  (exists evs,
     history (react (KWrapper x) (Res r) w).2 = history w ++ EvComplete x :: evs /\
     ((_inProgressCount (self w) - 1)%Z = 0%Z /\ _queue (self w) = [] ->
      calls_at "noWork" evs = [(f, VUndefined)] /\
      exists rest, evs = EvCall "noWork" f VUndefined :: rest) /\
     (~ ((_inProgressCount (self w) - 1)%Z = 0%Z /\ _queue (self w) = []) ->
      calls_at "noWork" evs = [])) /\
  calls_at "noWork"
    (history (Demo.play Demo.add_again (Demo.fresh None))) =
    [(4, VUndefined); (4, VUndefined)].
Proof.
  intros Hcb. split; [|vm_compute; reflexivity].
  assert (Hno : ~ In "noWork" ("afterHaltCompleted" :: "afterPauseCompleted"
                                 :: api_sites)).
  { simpl. intros H. repeat destruct H as [H|H]; try discriminate H; exact H. }
  assert (Hno' : ~ In "noWork" api_sites).
  { simpl. intros H. repeat destruct H as [H|H]; try discriminate H; exact H. }
  unfold_react. cbn [run_kont]. rewrite completed_run. cbv zeta.
  set (w1 := retire x w).
  assert (Hcb1 : _callbacks (self w1) !! "noWork" = Some (VFun f)) by exact Hcb.
  destruct (Z.eqb 0 (_inProgressCount (self w1))
            && Nat.eqb 0 (length (_queue (self w1)))) eqn:Hcond.
  - (* idle *)
    apply andb_true_iff in Hcond as [Hz Hq].
    apply Z.eqb_eq in Hz. apply Nat.eqb_eq in Hq.
    unfold push_if. rewrite bind_run. cbn [fst snd mret M_ret].
    destruct (callHandler_history "noWork" VUndefined f w1 Hcb1)
      as (evs1 & He1 & Fe1).
    unfold _onNoWork.
    set (c := _callHandler "noWork" VUndefined w1) in *.
    destruct (after_notices_history [c.1] c.2) as (evs2 & He2 & Fe2).
    { repeat constructor.
      apply (sat_callHandler prog _ (reenter_at_evolve prog depth) all_sites
               "noWork" VUndefined); [unfold all_sites; simpl; tauto|].
      apply covers_all. }
    exists (EvCall "noWork" f VUndefined :: evs1 ++ evs2). split; [|split].
    + rewrite He2, He1. unfold w1. simpl. rewrite <- !app_assoc. reflexivity.
    + intros _. split; [|eauto].
      simpl. rewrite calls_at_app.
      rewrite (calls_at_quiet _ _ _ Fe1 Hno'), (calls_at_quiet _ _ _ Fe2 Hno).
      reflexivity.
    + intros Hn. exfalso. apply Hn.
      change (_inProgressCount (self w1)) with (_inProgressCount (self w) - 1)%Z in Hz.
      change (_queue (self w1)) with (_queue (self w)) in Hq.
      split; [lia|]. destruct (_queue (self w)); [reflexivity | discriminate].
  - (* not idle *)
    unfold push_if. cbn [fst snd mret M_ret].
    destruct (after_notices_history [] w1) as (evs2 & He2 & Fe2); [constructor|].
    exists evs2. split; [|split].
    + rewrite He2. unfold w1. simpl. rewrite <- app_assoc. reflexivity.
    + intros [Hz Hq]. exfalso. apply andb_false_iff in Hcond as [Hc|Hc].
      * apply Z.eqb_neq in Hc.
        change (_inProgressCount (self w1)) with (_inProgressCount (self w) - 1)%Z in Hc.
        lia.
      * apply Nat.eqb_neq in Hc.
        change (_queue (self w1)) with (_queue (self w)) in Hc.
        rewrite Hq in Hc. apply Hc. reflexivity.
    + intros _. apply (calls_at_quiet _ _ _ Fe2 Hno).
Qed.

(** C8.  The SKIP sentinel goes through the hook protocol as a result, not
    as a halt.  For an item [x] whose [beforeItemProcessed] hook resolved to
    SKIP, the chain of [x] runs to its wrapper without calling user code and
    without changing the world; the wrapper then does its bookkeeping: the
    count goes down by one, the completion is recorded, and the only hooks
    called are those of the bookkeeping (and what they reach), never the
    item or the processor.  In the example of three tasks with the second one
    skipped, the first and the third are launched, in that order, and all
    three are completed. *)
Theorem skip_completes_without_launching (x : value) (w : world) :
  react (KCallHandler "beforeItemProcessed") (Res (VStr BEFORE_CALLBACK_VALS.SKIP)) w
    = (Settled (Res (VStr BEFORE_CALLBACK_VALS.SKIP)), w) /\
  settle 2 (Then (Then (Then (Settled (Res (VStr BEFORE_CALLBACK_VALS.SKIP)))
                             (KRetrieveBefore x))
                       KProcessRetrieved)
                 (KWrapper x)) w
    = (Then (Settled (Res VUndefined)) (KWrapper x), w) /\
  (exists evs,
     history (react (KWrapper x) (Res VUndefined) w).2
       = history w ++ EvComplete x :: evs /\
     calls_at "item" evs = [] /\ calls_at "processor" evs = []) /\
  _inProgressCount (self (react (KWrapper x) (Res VUndefined) w).2)
    = (_inProgressCount (self w) - 1)%Z /\
  (let w' := Demo.play Demo.skip_second (Demo.fresh None) in
   calls_at "item" (history w') = [(11, VUndefined); (13, VUndefined)] /\
   dequeued (history w') = [VFun 11; VFun 12; VFun 13] /\
   finished (history w') = [VFun 11; VFun 12; VFun 13] /\
   _inProgressCount (self w') = 0%Z).
Proof.
  split; [reflexivity|]. split; [reflexivity|].
  split; [|split; [|vm_compute; repeat split; reflexivity]].
  - unfold_react. cbn [run_kont]. rewrite completed_run. cbv zeta.
    set (w1 := retire x w).
    set (n := push_if _ _ w1).
    assert (Hn : exists evs1,
               history n.2 = history w1 ++ evs1 /\
               Forall (site_in ("noWork" :: api_sites)) evs1 /\
               Forall quietp n.1).
    { destruct (sat_push_if prog _ (reenter_at_evolve prog depth)
                  ("noWork" :: api_sites)
                  (Z.eqb 0 (_inProgressCount (self w1))
                   && Nat.eqb 0 (length (_queue (self w1)))) "noWork")
        with (w := w1) as [[_ _ _ (evs1 & He1 & Fe1) _ _] Hq];
        [simpl; tauto | apply covers_cons, covers_api |].
      exists evs1. auto. }
    destruct Hn as (evs1 & He1 & Fe1 & Hq1).
    destruct (after_notices_history n.1 n.2 Hq1) as (evs2 & He2 & Fe2).
    exists (evs1 ++ evs2). split.
    + rewrite He2, He1. unfold w1. simpl. rewrite <- !app_assoc. reflexivity.
    + rewrite !calls_at_app.
      rewrite (calls_at_quiet "item" _ _ Fe1), (calls_at_quiet "item" _ _ Fe2),
        (calls_at_quiet "processor" _ _ Fe1), (calls_at_quiet "processor" _ _ Fe2);
        [split; reflexivity|..];
        simpl; intros H; repeat destruct H as [H|H]; try discriminate H; exact H.
  - destruct (completed_evolve prog _ (reenter_at_evolve prog depth) x w)
      as [[_ Hn _ _ _ _] _]. exact Hn.
Qed.

(** C5.  On a queue without a processor, [add] of something that is not a
    function throws a [WorkQueueError] of source BADREQUEST and the world of
    the caller is as before the call.  [addAll] never throws and pushes its
    items as they are; with no [queueSizeChange] and [queueEmpty] callback
    the queue afterwards is the old one followed by the items.  Such an item
    is detected when its turn to be launched has come: the [error] callback
    is called with a [WorkQueueError] of source BADREQUEST.  In the example
    [addAll] pushes a string, which is taken from the queue and reported to
    the [error] callback, where [add] of the same string throws. *)
Theorem add_validates_addAll_defers :
  (forall item w,
     is_nullish (processor (_options (self w))) = true ->
     is_function item = false ->
     add item w =
       Throw (WorkQueueError
                (VStr "Only functions may be added to the queue when no processor has been defined")
                (VStr ERROR_SOURCES.BADREQUEST)) /\
     invoke prog reenter (CAdd item) w = w) /\
  (forall items w,
     exists w' rest,
       addAll items w = Normal w' /\
       history w' = history w ++ map EvEnqueue items ++ rest /\
       (_callbacks (self w) !! "queueSizeChange" = None ->
        _callbacks (self w) !! "queueEmpty" = None ->
        _queue (self w') = _queue (self w) ++ items)) /\
  (forall item v w fe,
     is_nullish (processor (_options (self w))) = true ->
     is_function item = false ->
     (is_str BEFORE_CALLBACK_VALS.SKIP v || is_str BEFORE_CALLBACK_VALS.HALT v
      || is_false v) = false ->
     _callbacks (self w) !! "error" = Some (VFun fe) ->
     exists rest,
       history (react (KRetrieveBefore item) (Res v) w).2 =
       history w ++
       EvCall "error" fe
         (WorkQueueError
            (VStr "Enqueued item is not a function, and processor was not defined")
            (VStr ERROR_SOURCES.BADREQUEST))
       :: rest) /\
  (let w0 := Demo.play [LApi (COn (VStr "error") (VFun 6))] (Demo.fresh None) in
   let w' := Demo.play Demo.unchecked_item (Demo.fresh None) in
   Demo.add_item (VStr "x") w0 =
     Throw (WorkQueueError
              (VStr "Only functions may be added to the queue when no processor has been defined")
              (VStr ERROR_SOURCES.BADREQUEST)) /\
   dequeued (history w') = [VStr "x"] /\
   calls_at "error" (history w') =
     [(6, WorkQueueError
            (VStr "Enqueued item is not a function, and processor was not defined")
            (VStr ERROR_SOURCES.BADREQUEST))]).
Proof.
  split; [|split; [|split; [|vm_compute; repeat split; reflexivity]]].
  - intros item w Hp Hf. unfold invoke. cbn [api]. unfold_add.
    rewrite Hp, Hf. split; reflexivity.
  - intros items w. unfold_addAll. eexists. 
    set (c := (p ← _onQueueSizeChange prog reenter;
               detach (Then p (KApi true "queueSizeChange")))).
    assert (Hc : sat api_sites (fun _ => True) c).
    { eapply sat_bind;
        [apply sat_onQueueSizeChange;
           [apply reenter_at_evolve | apply covers_api]|].
      intros p Hp. apply sat_detach. unfold quietp in Hp. simpl. rewrite Hp.
      reflexivity. }
    destruct (Hc (push items w).2) as [[_ _ _ (evs & He & _) _ _] _].
    exists evs. split; [reflexivity|]. rewrite bind_run. cbv beta.
    fold c. split.
    + rewrite He. simpl. rewrite <- app_assoc. reflexivity.
    + intros H1 H2. unfold c. rewrite bind_run. unfold _onQueueSizeChange.
      rewrite bind_run. cbn [getQueueSize fst snd]. rewrite bind_run.
      rewrite callHandler_missing by exact H1. cbn [fst snd].
      destruct (Nat.eqb 0 _).
      * rewrite bind_run, callHandler_missing by exact H2. reflexivity.
      * reflexivity.
  - intros item v w fe Hp Hf Hv Hcb.
    unfold_react. cbn [run_kont]. rewrite Hv.
    unfold launch. rewrite Hf. rewrite bind_run.
    rewrite (bind_run get). cbn [get fst snd]. rewrite Hp. cbn [mret M_ret fst snd].
    rewrite bind_run.
    destruct (onError_history
                (WorkQueueError
                   (VStr "Enqueued item is not a function, and processor was not defined")
                   (VStr ERROR_SOURCES.BADREQUEST)) fe w Hcb) as (evs & He & _).
    exists evs. exact He.
Qed.


(** C6, as the code has it.  [pause] on a halted queue returns normally and
    leaves the queue halted, but it does set [_paused] and call the [paused]
    callback: with no [paused] callback the flag is set and nothing else
    changes but the pending chains; with one, it is called, and if it makes
    no method call and returns the flag is set.  [_evaluateQueue] still does
    nothing.  When the last item in flight of a queue both halted and paused
    completes (no [noWork] and no [error] callback registered, the
    [afterHaltCompleted] callback making no method call), both
    [afterHaltCompleted] and [afterPauseCompleted] are called. *)
Theorem pause_on_halted_queue (w : world) :
  _halted (self w) = true ->
  exists w',
    pause w = Normal w' /\
    _halted (self w') = true /\
    _evaluateQueue w' = (tt, w') /\
    (_callbacks (self w) !! "paused" = None ->
     _paused (self w') = true /\ history w' = history w) /\
    (forall f, _callbacks (self w) !! "paused" = Some (VFun f) ->
       (exists rest, history w' = history w ++ EvCall "paused" f VUndefined :: rest) /\
       (forall v, next_call f VUndefined (with_self (set_paused true) w)
                  = Behaviour [] (Returns v) ->
                  _paused (self w') = true)) /\
    (forall x r w1 fh fp,
       _halted (self w1) = true -> _paused (self w1) = true ->
       _inProgressCount (self w1) = 1%Z ->
       _callbacks (self w1) !! "noWork" = None ->
       _callbacks (self w1) !! "error" = None ->
       _callbacks (self w1) !! "afterHaltCompleted" = Some (VFun fh) ->
       _callbacks (self w1) !! "afterPauseCompleted" = Some (VFun fp) ->
       effects (next_call fh VUndefined (retire x w1)) = [] ->
       exists rest,
         history (react (KWrapper x) (Res r) w1).2 =
         history w1 ++ EvComplete x :: EvCall "afterHaltCompleted" fh VUndefined
                    :: EvCall "afterPauseCompleted" fp VUndefined :: rest).
Proof.
  intros Hh. unfold_pause. eexists. split; [reflexivity|].
  set (w1 := with_self (set_paused true) w).
  assert (Hrun : forall c : M unit,
             (modify (with_self (set_paused true));; c) w = c w1)
    by (intros c; rewrite bind_run; reflexivity).
  rewrite Hrun. rewrite bind_run.
  set (h := _onPaused prog reenter w1).
  assert (Hev : evolve api_sites w1 h.2).
  { apply (sat_callHandler prog _ (reenter_at_evolve prog depth) api_sites
             "paused" VUndefined); [simpl; tauto | apply covers_api]. }
  split; [apply Hev; exact Hh|].
  split; [apply evaluateQueue_halted; apply Hev; exact Hh|].
  split; [|split].
  - intros Hcb. unfold h, _onPaused.
    rewrite callHandler_missing by exact Hcb. split; reflexivity.
  - intros f Hcb. split.
    + destruct (callHandler_history "paused" VUndefined f w1 Hcb)
        as (evs & He & _).
      exists evs. exact He.
    + intros v Hb. unfold h, _onPaused.
      rewrite (callHandler_run _ _ _ _ f) by exact Hcb. cbv zeta.
      fold (next_call f VUndefined w1). rewrite Hb. reflexivity.
  - clear. intros x r w1 fh fp Hh Hp Hn Hnw Herr Hfh Hfp Heff.
    unfold_react. cbn [run_kont]. rewrite completed_run. cbv zeta.
    set (w2 := retire x w1) in *.
    assert (Hidle : _inProgressCount (self w2) = 0%Z)
      by (unfold w2; simpl; lia).
    assert (Hn1 : push_if (Z.eqb 0 (_inProgressCount (self w2))
                           && Nat.eqb 0 (length (_queue (self w2))))
                          (_onNoWork prog reenter) w2 =
                  ((if Nat.eqb 0 (length (_queue (self w2)))
                    then [Settled (Res VUndefined)] else []), w2)).
    { rewrite Hidle. unfold push_if.
      destruct (Nat.eqb 0 (length (_queue (self w2)))); [|reflexivity].
      cbn [Z.eqb andb]. rewrite bind_run. unfold _onNoWork.
      rewrite callHandler_missing by exact Hnw. reflexivity. }
    rewrite Hn1. cbn [fst snd]. rewrite after_notices_run. cbv zeta.
    set (w3 := record_call "afterHaltCompleted" fh VUndefined w2).
    assert (Hn2 : exists P,
               push_if (Z.eqb 0 (_inProgressCount (self w2)) && _halted (self w2))
                       (_onAfterHaltCompleted prog reenter) w2 = ([P], w3)).
    { rewrite Hidle. change (_halted (self w2)) with (_halted (self w1)).
      rewrite Hh. cbn [Z.eqb andb push_if]. rewrite bind_run.
      unfold _onAfterHaltCompleted.
      rewrite (callHandler_run _ _ _ _ fh) by exact Hfh. cbv zeta.
      fold (next_call fh VUndefined w2). rewrite Heff.
      cbn_after_effects. fold w3.
      destruct (result (next_call fh VUndefined w2)) as [v|ex].
      - eexists. reflexivity.
      - assert (Herr3 : _callbacks (self w3) !! "error" = None) by exact Herr.
        rewrite (onError_missing _ _ _ w3 Herr3). eexists. reflexivity. }
    destruct Hn2 as [P ->]. cbn [fst snd].
    change (_inProgressCount (self w3)) with (_inProgressCount (self w2)).
    change (_paused (self w3)) with (_paused (self w1)).
    rewrite Hidle, Hp. cbn [Z.eqb andb push_if]. rewrite bind_run.
    destruct (callHandler_history "afterPauseCompleted" VUndefined fp w3 Hfp)
      as (evs & He & _).
    exists evs. cbn [fst snd mret M_ret]. unfold _onAfterPauseCompleted.
    rewrite He. unfold w3, w2. simpl. rewrite <- !app_assoc. reflexivity.
Qed.

End Hooks.

(** The last task of the example completes: the [noWork] callback is called. *)
Lemma noWork_iff_idle_witness :
  let w := Demo.play (firstn 10 Demo.add_again) (Demo.fresh None) in
  exists evs,
    history (react Demo.numerals Demo.code Demo.nesting
               (KWrapper (VFun 11)) (Res VUndefined) w).2
      = history w ++ EvComplete (VFun 11) :: evs /\
    calls_at "noWork" evs = [(4, VUndefined)].
Proof.
  intros w.
  destruct (noWork_iff_idle Demo.numerals Demo.code Demo.nesting
              (VFun 11) VUndefined w 4) as [(evs & He & Hidle & _) _].
  - vm_compute. reflexivity.
  - exists evs. split; [exact He|]. apply Hidle. vm_compute. split; reflexivity.
Defined.

(** C6 as the specification has it fails: [pause] on the halted
    queue of the example sets [_paused] and calls the [paused] callback, and
    when the two tasks in flight have completed the [afterPauseCompleted]
    callback is called, which it is not when [pause] is not called. *)
Lemma pause_on_halted_counterexample :
  let w := Demo.play Demo.halted_in_flight Demo.limit_two in
  let w' := Demo.play [LApi CPause] w in
  _halted (self w) = true /\
  _paused (self w) = false /\
  _paused (self w') = true /\
  calls_at "paused" (history w) = [] /\
  calls_at "paused" (history w') = [(6, VUndefined)] /\
  calls_at "afterPauseCompleted"
    (history (Demo.play (Demo.drained [] w) w)) = [] /\
  calls_at "afterPauseCompleted"
    (history (Demo.play (Demo.drained [LApi CPause] w) w)) = [(6, VUndefined)].
Proof. vm_compute. repeat split; reflexivity. Qed.

(** [pause] on the halted queue of the example. *)
Lemma pause_on_halted_queue_witness :
  let w := Demo.play Demo.halted_in_flight Demo.limit_two in
  exists w',
    pause Demo.code (reenter_at Demo.code Demo.nesting) w = Normal w' /\
    _halted (self w') = true /\
    _paused (self w') = true /\
    exists rest, history w' = history w ++ EvCall "paused" 6 VUndefined :: rest.
Proof.
  intros w.
  destruct (pause_on_halted_queue Demo.numerals Demo.code Demo.nesting w)
    as (w' & Hp & Hh & _ & _ & Hcb & _).
  - vm_compute. reflexivity.
  - exists w'. split; [exact Hp|]. split; [exact Hh|].
    destruct (Hcb 6) as [Hcall Hflag]; [vm_compute; reflexivity|].
    split; [|exact Hcall].
    apply (Hflag VUndefined). vm_compute. reflexivity.
Defined.



(** ** The options *)

Section Options.

Variable StringToNumber : string -> number.

Abbreviation constructor := (constructor StringToNumber).
Abbreviation options_refused := (options_refused StringToNumber).


End Options.

(** ** The other methods, and the ways an item can fail *)

Lemma is_str_refl s : is_str s (VStr s) = true.
Proof. simpl. apply String.eqb_refl. Qed.

Lemma is_str_neq s t : t <> VStr s -> is_str s t = false.
Proof.
  intros H. destruct t; try reflexivity. simpl.
  destruct (String.eqb_spec s s0); [subst; congruence | reflexivity].
Qed.

(** [on] refuses a callback that is not a function, whatever the trigger,
    and a trigger that is none of the eleven it knows; otherwise it stores
    the callback under the trigger, where [callback] finds it, and changes
    nothing else: no other callback, and nothing of the queue. *)
Theorem on_registers_known_triggers (trigger cb : value) (w : world) :
  (is_function cb = false ->
   exists message,
     on trigger cb w =
     Throw (VError true (VStr message) (VStr ERROR_SOURCES.BADREQUEST))) /\
  (is_function cb = true ->
   (forall name, In name triggers -> trigger = VStr name ->
      on trigger cb w = Normal (register name cb w)) /\
   ((forall name, In name triggers -> trigger <> VStr name) ->
    on trigger cb w =
    Throw (WorkQueueError (VStr "Invalid trigger specified")
                          (VStr ERROR_SOURCES.BADREQUEST)))) /\
  (forall name,
     is_function cb = true ->
     (callback name (register name cb w)).1 = Some cb /\
     (forall other, other <> name ->
        (callback other (register name cb w)).1 = (callback other w).1) /\
     _queue (self (register name cb w)) = _queue (self w) /\
     _inProgressCount (self (register name cb w)) = _inProgressCount (self w) /\
     _halted (self (register name cb w)) = _halted (self w) /\
     _paused (self (register name cb w)) = _paused (self w) /\
     pending (register name cb w) = pending w /\
     history (register name cb w) = history w).
Proof.
  split; [|split].
  - intros Hf. unfold on.
    destruct (is_nullish cb); [eexists; reflexivity|].
    rewrite Hf. eexists; reflexivity.
  - intros Hf.
    assert (Hn : is_nullish cb = false) by (destruct cb; try discriminate; reflexivity).
    split.
    + intros name Hin ->. unfold on. rewrite Hn, Hf. cbn [negb].
      simpl in Hin.
      repeat (destruct Hin as [<-|Hin]; [reflexivity|]). destruct Hin.
    + intros Hno. unfold on. rewrite Hn, Hf. cbn [negb].
      rewrite !is_str_neq; [reflexivity| ..]; apply Hno; simpl; tauto.
  - intros name Hf.
    assert (Hn : is_nullish cb = false) by (destruct cb; try discriminate; reflexivity).
    split; [|split; [|repeat split]].
    + unfold callback, register. cbn [fst self with_self _callbacks set_callbacks].
      rewrite lookup_insert. rewrite decide_True by reflexivity. rewrite Hn. reflexivity.
    + intros other Hne. unfold callback, register.
      cbn [fst self with_self _callbacks set_callbacks].
      rewrite lookup_insert_ne by congruence. reflexivity.
Qed.


Lemma removed_length h :
  length (removed h) = length (dequeued h) + length (cleared h).
Proof.
  induction h as [|e h IH]; [reflexivity|].
  destruct e; simpl; rewrite ?length_app; simpl; lia.
Qed.

Section Further.

Variable StringToNumber : string -> number.
Variable prog : program.
Variable depth : nat.

Abbreviation reenter := (reenter_at prog depth).
Abbreviation react := (react StringToNumber prog depth).
Abbreviation step := (step StringToNumber prog depth).
Abbreviation exec := (exec StringToNumber prog depth).
Abbreviation settle := (settle StringToNumber prog depth).
Abbreviation constructor := (constructor StringToNumber).
Abbreviation _evaluateQueue :=
  (_evaluateQueue StringToNumber prog (reenter_at prog depth)).
Abbreviation _onQueueSizeChange := (_onQueueSizeChange prog (reenter_at prog depth)).
Abbreviation _callHandler := (_callHandler prog (reenter_at prog depth)).
Abbreviation _onError := (_onError prog (reenter_at prog depth)).
Abbreviation _halt := (_halt prog (reenter_at prog depth)).
Abbreviation launch := (launch prog (reenter_at prog depth)).
Abbreviation add := (add prog (reenter_at prog depth)).
Abbreviation addAll := (addAll prog (reenter_at prog depth)).
Abbreviation clear := (clear prog (reenter_at prog depth)).
Abbreviation pause := (pause prog (reenter_at prog depth)).
Abbreviation resume := (resume prog (reenter_at prog depth)).
Abbreviation next_call := (next_call prog).
Abbreviation after_effects := (after_effects (reenter_at prog depth)).

(** A step of the event loop takes at most one item from the queue: the
    head, and only when before the step the queue was neither halted nor
    paused and had fewer items in progress than its limit. *)
Theorem admission_needs_running_queue (l : label) (w w' : world) :
  step l w = Some w' ->
  dequeued (history w') = dequeued (history w) \/
  exists x q,
    dequeued (history w') = dequeued (history w) ++ [x] /\
    _queue (self w) = x :: q /\
    _halted (self w) = false /\
    _paused (self w) = false /\
    num_le (ToNumber StringToNumber (concurrencyLimit (_options (self w))))
           (num_of_Z (_inProgressCount (self w))) = false.
Proof.
  intros Hs.
  destruct (step_moves StringToNumber prog depth l w w' Hs) as [kd Hm].
  pose proof (moves_dequeued _ _ _ _ _ _ Hm) as Hd.
  destruct kd as [|x|x|x]; try (left; rewrite Hd, app_nil_r; reflexivity).
  right. destruct Hm as [_ _ _ _ _ [(Hh & Hp & Hl) [q Hq]] _].
  exists x, q. auto.
Qed.

(** While the queue is paused, no step takes an item from it. *)
Theorem paused_queue_takes_nothing (l : label) (w w' : world) :
  _paused (self w) = true ->
  step l w = Some w' ->
  dequeued (history w') = dequeued (history w) /\
  _evaluateQueue w = (tt, w).
Proof.
  intros Hp Hs. split.
  - destruct (step_moves StringToNumber prog depth l w w' Hs) as [kd Hm].
    pose proof (moves_dequeued _ _ _ _ _ _ Hm) as Hd.
    destruct kd as [|x|x|x]; try (rewrite Hd, app_nil_r; reflexivity).
    destruct Hm as [_ _ _ _ _ [(_ & Hp' & _) _] _]. congruence.
  - unfold_evaluateQueue. rewrite bind_run. simpl. rewrite Hp, orb_true_r.
    reflexivity.
Qed.

(** Every item pushed is in the queue, in progress, completed or cleared;
    [hasWork()] is false exactly when all of them are completed or cleared. *)
Theorem hasWork_until_all_done
    (options : option Options) (w0 w : world) (ls : list label) :
  constructor options = Normal w0 ->
  exec ls w0 = Some w ->
  Z.of_nat (length (enqueued (history w))) =
    (Z.of_nat (length (finished (history w))) +
     Z.of_nat (length (cleared (history w))) +
     Z.of_nat (length (_queue (self w))) + _inProgressCount (self w))%Z /\
  (hasWork w = false <->
   length (enqueued (history w)) =
   length (finished (history w)) + length (cleared (history w))).
Proof.
  intros Hc He.
  pose proof (exec_consistent StringToNumber prog depth ls w0 w
                (constructor_consistent StringToNumber options w0 Hc) He)
    as [Hf Hl Hn _].
  unfold fifo in Hf.
  assert (Hlen : Z.of_nat (length (enqueued (history w))) =
    (Z.of_nat (length (finished (history w))) +
     Z.of_nat (length (cleared (history w))) +
     Z.of_nat (length (_queue (self w))) + _inProgressCount (self w))%Z).
  { rewrite Hf, length_app, removed_length. lia. }
  split; [exact Hlen|].
  unfold_hasWork.
  rewrite orb_false_iff, Nat.ltb_ge, Z.ltb_ge. lia.
Qed.

(** [resume] on a queue that is not paused does nothing, and calls no
    callback; on a paused queue it clears the flag, calls the [resumed]
    callback and leaves a chain that looks at the queue again. *)
Theorem resume_only_if_paused (w : world) :
  (_paused (self w) = false -> resume w = Normal w) /\
  (_paused (self w) = true ->
   exists w' ps p,
     resume w = Normal w' /\
     pending w' = ps ++ [Then p (KApi true "resumed")] /\
     dequeued (history w') = dequeued (history w) /\
     (_callbacks (self w) !! "resumed" = None ->
      w' = set_pending
             (pending w ++ [Then (Settled (Res VUndefined)) (KApi true "resumed")])
             (with_self (set_paused false) w)) /\
     (forall f, _callbacks (self w) !! "resumed" = Some (VFun f) ->
        exists rest,
          history w' = history w ++ EvCall "resumed" f VUndefined :: rest)) /\
  (forall name v w1,
     react (KApi true name) (Res v) w1 =
     (Settled (Res VUndefined), (_evaluateQueue w1).2)).
Proof.
  split; [|split].
  - intros Hp. unfold_resume. rewrite Hp. reflexivity.
  - intros Hp. unfold_resume. rewrite Hp. cbn [negb].
    set (w1 := with_self (set_paused false) w).
    assert (Hrun : forall c : M unit,
               (modify (with_self (set_paused false));; c) w = c w1)
      by (intros c; rewrite bind_run; reflexivity).
    rewrite Hrun, bind_run.
    set (h := _onResumed prog reenter w1).
    assert (Hev : evolve api_sites w1 h.2).
    { apply (sat_callHandler prog _ (reenter_at_evolve prog depth) api_sites
               "resumed" VUndefined); [simpl; tauto | apply covers_api]. }
    exists (detach (Then h.1 (KApi true "resumed")) h.2).2, (pending h.2), h.1.
    split; [reflexivity|]. split; [reflexivity|]. split; [|split].
    + destruct Hev as [_ _ _ (evs & He & Hs) _ _]. simpl. rewrite He.
      rewrite dequeued_app, (quiet_dequeued _ _ Hs), app_nil_r. reflexivity.
    + intros Hcb. unfold h, _onResumed.
      rewrite callHandler_missing by exact Hcb. reflexivity.
    + intros f Hcb.
      destruct (callHandler_history prog depth "resumed" VUndefined f w1 Hcb)
        as (evs & He & _).
      exists evs. exact He.
  - intros name v w1. unfold_react. cbn [run_kont]. rewrite bind_run.
    destruct (_evaluateQueue w1) as [[] w2]. reflexivity.
Qed.

(** [pause] and then [resume], with no callback for either: the queue
    object is as before, and two chains are left, of which only that of
    [resume] will look at the queue. *)
Theorem pause_then_resume (w : world) :
  _paused (self w) = false ->
  _callbacks (self w) !! "paused" = None ->
  _callbacks (self w) !! "resumed" = None ->
  exists w1 w2,
    pause w = Normal w1 /\ resume w1 = Normal w2 /\
    _paused (self w1) = true /\
    self w2 = self w /\ history w2 = history w /\
    immediates w2 = immediates w /\
    pending w2 = pending w ++ [Then (Settled (Res VUndefined)) (KApi false "paused");
                               Then (Settled (Res VUndefined)) (KApi true "resumed")].
Proof.
  intros Hp Hc1 Hc2.
  set (w1 := set_pending
               (pending w ++ [Then (Settled (Res VUndefined)) (KApi false "paused")])
               (with_self (set_paused true) w)).
  assert (H1 : pause w = Normal w1).
  { unfold_pause. rewrite !bind_run. cbn [modify fst snd]. unfold _onPaused.
    rewrite callHandler_missing by exact Hc1. reflexivity. }
  assert (Hc2' : _callbacks (self (with_self (set_paused false) w1)) !! "resumed"
                 = None) by exact Hc2.
  exists w1, (set_pending
                (pending w1 ++ [Then (Settled (Res VUndefined)) (KApi true "resumed")])
                (with_self (set_paused false) w1)).
  split; [exact H1|].
  split.
  { unfold_resume. cbn [negb _paused self w1 set_pending with_self set_paused].
    rewrite !bind_run. cbn [modify fst snd]. unfold _onResumed.
    rewrite callHandler_missing by exact Hc2'. reflexivity. }
  split; [reflexivity|].
  split; [|split; [reflexivity|split; [reflexivity|]]].
  - destruct w as [[o q n c h p] ps i hi]. simpl in *. subst p. reflexivity.
  - simpl. rewrite <- app_assoc. reflexivity.
Qed.


Lemma halt_history reason f w :
  _halted (self w) = false ->
  _callbacks (self w) !! "halted" = Some (VFun f) ->
  exists rest,
    history (_halt reason w).2 = history w ++ EvCall "halted" f reason :: rest.
Proof.
  intros Hh Hcb. rewrite halt_run by exact Hh. cbn [snd].
  rewrite (onHalted_run _ _ _ f) by exact Hcb. cbn [snd].
  destruct (after_effects_history prog depth
              (effects (next_call f reason (with_self (set_halted true) w)))
              (record_call "halted" f reason (with_self (set_halted true) w)))
    as [evs He].
  exists evs. rewrite He. simpl. rewrite <- app_assoc. reflexivity.
Qed.

(** [clear] empties the queue and reports the new size; it takes nothing
    from the queue for processing, leaves the items in progress alone, and
    its chain does not look at the queue. *)
Theorem clear_drops_waiting_items (w : world) :
  exists w' rest,
    clear w = Normal w' /\
    history w' = history w ++ EvClear (_queue (self w)) :: rest /\
    dequeued rest = [] /\ finished rest = [] /\
    _inProgressCount (self w') = _inProgressCount (self w) /\
    all_wrappers (pending w') = all_wrappers (pending w) /\
    (_callbacks (self w) !! "queueSizeChange" = None ->
     _callbacks (self w) !! "queueEmpty" = None ->
     rest = [] /\ self w' = set_queue [] (self w) /\
     pending w' =
       pending w ++ [Then (All [Settled (Res VUndefined); Settled (Res VUndefined)])
                          (KApi false "queueSizeChange")]) /\
    (forall f, _callbacks (self w) !! "queueSizeChange" = Some (VFun f) ->
       exists rest', rest = EvCall "queueSizeChange" f (VNum (num_of_Z 0)) :: rest') /\
    (forall v w1,
       react (KApi false "queueSizeChange") (Res v) w1 = (Settled (Res VUndefined), w1)).
Proof.
  set (w0 := with_self (set_queue [])
               (set_history (history w ++ [EvClear (_queue (self w))]) w)).
  assert (Hrun : clear w =
    Normal (detach (Then (_onQueueSizeChange w0).1 (KApi false "queueSizeChange"))
              (_onQueueSizeChange w0).2).2).
  { unfold_clear. rewrite !bind_run. reflexivity. }
  destruct (sat_onQueueSizeChange prog _ (reenter_at_evolve prog depth) api_sites
              covers_api w0) as [[_ Hn _ (evs & He & Hs) Hpe _] Hq].
  exists (detach (Then (_onQueueSizeChange w0).1 (KApi false "queueSizeChange"))
              (_onQueueSizeChange w0).2).2, evs.
  split; [exact Hrun|].
  split; [simpl; rewrite He; simpl; rewrite <- app_assoc; reflexivity|].
  split; [eapply quiet_dequeued; exact Hs|].
  split; [eapply quiet_finished; exact Hs|].
  split; [simpl; rewrite Hn; reflexivity|].
  split.
  { simpl. rewrite all_wrappers_app, Hpe. simpl.
    unfold quietp in Hq. rewrite Hq. simpl. rewrite app_nil_r. reflexivity. }
  split; [|split].
  - intros H1 H2.
    assert (Hw0 : _onQueueSizeChange w0 =
                  (All [Settled (Res VUndefined); Settled (Res VUndefined)], w0)).
    { unfold_onQueueSizeChange. rewrite bind_run.
      cbn [getQueueSize fst snd]. rewrite bind_run.
      rewrite callHandler_missing by exact H1. cbn [fst snd].
      change (length (_queue (self w0))) with 0. cbn [Nat.eqb].
      rewrite bind_run, callHandler_missing by exact H2. reflexivity. }
    rewrite Hw0 in He. cbn [snd] in He.
    assert (evs = []) as ->.
    { apply (f_equal (@length event)) in He. rewrite length_app in He.
      destruct evs; [reflexivity|simpl in He; lia]. }
    rewrite Hw0. split; [reflexivity|]. split; reflexivity.
  - intros f Hcb.
    assert (Hcb0 : _callbacks (self w0) !! "queueSizeChange" = Some (VFun f))
      by exact Hcb.
    destruct (callHandler_history prog depth "queueSizeChange"
                (VNum (num_of_Z 0)) f w0 Hcb0) as (evs1 & He1 & _).
    revert He. unfold_onQueueSizeChange. rewrite bind_run.
    cbn [getQueueSize fst snd]. rewrite bind_run.
    change (length (_queue (self w0))) with 0. cbn [Nat.eqb].
    change (Z.of_nat 0) with 0%Z.
    rewrite bind_run. cbn [mret M_ret snd].
    set (c := _callHandler "queueSizeChange" (VNum (num_of_Z 0)) w0) in *.
    destruct (sat_callHandler prog _ (reenter_at_evolve prog depth) api_sites
                "queueEmpty" VUndefined ltac:(simpl; tauto) covers_api c.2)
      as [[_ _ _ (evs2 & He2 & _) _ _] _].
    rewrite He2, He1. rewrite <- !app_assoc. intros He.
    apply app_inv_head in He. exists (evs1 ++ evs2). rewrite <- He. reflexivity.
  - intros v w1. reflexivity.
Qed.

(** [_onQueueSizeChange] reads the size of the queue once, calls the
    [queueSizeChange] callback with it, and calls the [queueEmpty] callback
    after it exactly when that size is 0. *)
Theorem queueEmpty_follows_size_zero (w : world) (fq fe : fnid) (v : value) :
  _callbacks (self w) !! "queueSizeChange" = Some (VFun fq) ->
  _callbacks (self w) !! "queueEmpty" = Some (VFun fe) ->
  next_call fq (VNum (num_of_Z (Z.of_nat (length (_queue (self w)))))) w
    = Behaviour [] (Returns v) ->
  let w1 := record_call "queueSizeChange" fq
              (VNum (num_of_Z (Z.of_nat (length (_queue (self w)))))) w in
  (_queue (self w) <> [] -> (_onQueueSizeChange w).2 = w1) /\
  (_queue (self w) = [] ->
   exists rest,
     history (_onQueueSizeChange w).2 =
     history w1 ++ EvCall "queueEmpty" fe VUndefined :: rest).
Proof.
  intros Hq He Hb w1.
  assert (Hc : _callHandler "queueSizeChange"
                 (VNum (num_of_Z (Z.of_nat (length (_queue (self w)))))) w =
               (Then (of_value v) (KCallHandler "queueSizeChange"), w1)).
  { rewrite (callHandler_run _ _ _ _ fq) by exact Hq. cbv zeta.
    fold (next_call fq (VNum (num_of_Z (Z.of_nat (length (_queue (self w)))))) w).
    rewrite Hb. reflexivity. }
  unfold_onQueueSizeChange. rewrite bind_run.
  cbn [getQueueSize fst snd]. rewrite bind_run, Hc. cbn [fst snd].
  split.
  - intros Hne. destruct (_queue (self w)); [congruence|]. reflexivity.
  - intros Hnil. rewrite Hnil. cbn [length Nat.eqb]. rewrite bind_run.
    assert (He1 : _callbacks (self w1) !! "queueEmpty" = Some (VFun fe)) by exact He.
    destruct (callHandler_history prog depth "queueEmpty" VUndefined fe w1 He1)
      as (evs & Hh & _).
    exists evs. exact Hh.
Qed.

(** A hook callback halts the queue by returning (or resolving to) [false]
    or HALT, and by nothing else; the [error] callback by [false] only, or by
    failing. *)
Theorem callback_result_halts (name : string) (v : value) (w : world) :
  _halted (self w) = false ->
  (let c := react (KCallHandler name) (Res v) w in
   _halted (self c.2) = (is_false v || is_str BEFORE_CALLBACK_VALS.HALT v) /\
   ((is_false v || is_str BEFORE_CALLBACK_VALS.HALT v) = false ->
    c = (Settled (Res v), w)) /\
   ((is_false v || is_str BEFORE_CALLBACK_VALS.HALT v) = true ->
    (exists p, c.1 = Then p (KSettleWith v)) /\
    forall f, _callbacks (self w) !! "halted" = Some (VFun f) ->
      exists rest,
        history c.2 =
        history w ++
        EvCall "halted" f
          (WorkQueueHaltData (VStr HALT_REASONS.CALLBACKRETVAL) VUndefined (VStr name))
        :: rest)) /\
  (let e := react KOnError (Res v) w in
   _halted (self e.2) = is_false v /\
   (is_false v = false -> e = (Settled (Res VUndefined), w)) /\
   (is_false v = true ->
    forall f, _callbacks (self w) !! "halted" = Some (VFun f) ->
      exists rest,
        history e.2 =
        history w ++
        EvCall "halted" f
          (WorkQueueHaltData (VStr HALT_REASONS.CALLBACKRETVAL) VUndefined (VStr "error"))
        :: rest)) /\
  (let e := react KOnError (Rej v) w in
   _halted (self e.2) = true /\
   forall f, _callbacks (self w) !! "halted" = Some (VFun f) ->
     exists rest,
       history e.2 =
       history w ++
       EvCall "halted" f
         (WorkQueueHaltData (VStr HALT_REASONS.ERRORCALLBACKERROR) v (VStr "error"))
       :: rest) /\
  (forall u w1, react (KSettleWith v) (Res u) w1 = (Settled (Res v), w1)).
Proof.
  intros Hh. split; [|split; [|split]].
  - cbv zeta. unfold_react. cbn [run_kont].
    destruct (is_false v || is_str BEFORE_CALLBACK_VALS.HALT v) eqn:Hv.
    + rewrite bind_run. cbn [fst snd mret M_ret].
      split; [apply halt_halts|]. split; [discriminate|]. intros _.
      split; [eexists; reflexivity|]. intros f Hcb.
      apply halt_history; assumption.
    + split; [exact Hh|]. split; [reflexivity|discriminate].
  - cbv zeta. unfold_react. cbn [run_kont].
    destruct (is_false v) eqn:Hv.
    + rewrite bind_run. cbn [fst snd mret M_ret].
      split; [apply halt_halts|]. split; [discriminate|]. intros _ f Hcb.
      apply halt_history; assumption.
    + split; [exact Hh|]. split; [reflexivity|discriminate].
  - cbv zeta. unfold_react. cbn [run_kont]. rewrite bind_run.
    cbn [fst snd mret M_ret].
    split; [apply halt_halts|]. intros f Hcb. apply halt_history; assumption.
  - reflexivity.
Qed.


Lemma settle_step fuel p path p' w w' :
  ready_path p = Some path ->
  pstep StringToNumber prog depth path p w = Some (p', w') ->
  settle (S fuel) p w = settle fuel p' w'.
Proof. intros Hr Hs. simpl. rewrite Hr, Hs. reflexivity. Qed.

Lemma of_value_plain v : is_thenable v = false -> of_value v = Settled (Res v).
Proof. destruct v; try reflexivity. discriminate. Qed.

(** The error callback is called with [err], does nothing else and returns
    [v], which is neither a promise nor [false]. *)
Lemma onError_plain err fe v w :
  _callbacks (self w) !! "error" = Some (VFun fe) ->
  next_call fe err w = Behaviour [] (Returns v) ->
  is_thenable v = false ->
  _onError err w = (Then (Settled (Res v)) KOnError, record_call "error" fe err w).
Proof.
  intros Hcb Hb Hv. rewrite (onError_run _ _ _ fe) by exact Hcb. cbv zeta.
  fold (next_call fe err w). rewrite Hb. cbn [result effects].
  rewrite of_value_plain by exact Hv. reflexivity.
Qed.



(** With a processor, [add] takes any item; when the item is launched, a
    function is called itself, without argument, and anything else is
    passed to the processor. *)
Theorem processor_gets_other_items (pf : fnid) (w : world) :
  processor (_options (self w)) = VFun pf ->
  (forall item, exists w', add item w = Normal w') /\
  (forall item, is_function item = false ->
     exists rest,
       history (launch item w).2 = history w ++ EvCall "processor" pf item :: rest /\
       calls_at "item" rest = [] /\ calls_at "processor" rest = []) /\
  (forall f,
     exists rest,
       history (launch (VFun f) w).2 = history w ++ EvCall "item" f VUndefined :: rest /\
       calls_at "item" rest = [] /\ calls_at "processor" rest = []).
Proof.
  intros Hp.
  assert (Hni : ~ In "item" api_sites)
    by (simpl; intros H; repeat destruct H as [H|H]; try discriminate H; exact H).
  assert (Hnp : ~ In "processor" api_sites)
    by (simpl; intros H; repeat destruct H as [H|H]; try discriminate H; exact H).
  assert (Hend : forall r : outcome,
    sat api_sites quietp
      (match r with
       | Returns nextItemPromise =>
           if is_thenable nextItemPromise
           then mret (Settled (Res (VWrapper nextItemPromise)))
           else
             p ← _onError (WorkQueueError
                    (VStr "Enqueued function did not return a Promise")
                    (VStr ERROR_SOURCES.BADREQUEST));
             mret (Then p KSettle)
       | Throws ex => p ← _onError ex; mret (Then p KSettle)
       end)).
  { intros [v|ex].
    - destruct (is_thenable v); [apply sat_ret; reflexivity|].
      eapply sat_bind;
        [apply sat_onError; [apply reenter_at_evolve|apply covers_api]|].
      intros p Hq. apply sat_ret. unfold quietp in *. simpl. rewrite Hq.
      reflexivity.
    - eapply sat_bind;
        [apply sat_onError; [apply reenter_at_evolve|apply covers_api]|].
      intros p Hq. apply sat_ret. unfold quietp in *. simpl. rewrite Hq.
      reflexivity. }
  assert (Hcall : forall site g arg (c : M outcome) (k : outcome -> M outcome),
    (forall r, exists o, k r = mret o) ->
    c w = (r ← call prog reenter site (VFun g) arg; k r) w ->
    exists evs,
      history ((r ← c;
                match r with
                | Returns nextItemPromise =>
                    if is_thenable nextItemPromise
                    then mret (Settled (Res (VWrapper nextItemPromise)))
                    else
                      p ← _onError (WorkQueueError
                             (VStr "Enqueued function did not return a Promise")
                             (VStr ERROR_SOURCES.BADREQUEST));
                      mret (Then p KSettle)
                | Throws ex => p ← _onError ex; mret (Then p KSettle)
                end) w).2 = history w ++ EvCall site g arg :: evs /\
      Forall (site_in api_sites) evs).
  { intros site g arg c k Hk Hc. rewrite bind_run, Hc, bind_run, call_run.
    cbn [fst snd].
    destruct (Hk (result (next_call g arg w))) as [o ->]. cbn [mret M_ret fst snd].
    destruct (after_effects_evolve prog depth (effects (next_call g arg w))
                (record_call site g arg w)) as [_ _ _ (evs1 & He1 & Hs1) _ _].
    destruct (Hend o (after_effects (effects (next_call g arg w))
                        (record_call site g arg w)))
      as [[_ _ _ (evs2 & He2 & Hs2) _ _] _].
    exists (evs1 ++ evs2). rewrite He2, He1. simpl. rewrite <- !app_assoc.
    split; [reflexivity|apply Forall_app; auto]. }
  split; [|split].
  - intros item. unfold_add. rewrite Hp. eexists. reflexivity.
  - intros item Hf. unfold_launch. rewrite Hf.
    match goal with
    | |- ex (fun _ => history ((?c ≫= _) w).2 = _ /\ _) =>
        destruct (Hcall "processor" pf item c
                    (fun r => match r with
                              | Throws ex =>
                                  mret (Throws (tag ERROR_SOURCES.PROCESS ex))
                              | Returns v => mret (Returns v)
                              end)) as (evs & He & Hs)
    end.
    { intros [v|ex]; eexists; reflexivity. }
    { rewrite (bind_run get). cbn [get fst snd]. rewrite Hp. reflexivity. }
    exists evs. split; [exact He|].
    split; eapply calls_at_quiet; eauto.
  - intros f. unfold_launch. cbn [is_function].
    match goal with
    | |- ex (fun _ => history ((?c ≫= _) w).2 = _ /\ _) =>
        destruct (Hcall "item" f VUndefined c
                    (fun r => match r with
                              | Throws ex =>
                                  mret (Throws (tag ERROR_SOURCES.PROCESS ex))
                              | Returns v => mret (Returns v)
                              end)) as (evs & He & Hs)
    end.
    { intros [v|ex]; eexists; reflexivity. }
    { reflexivity. }
    exists evs. split; [exact He|].
    split; eapply calls_at_quiet; eauto.
Qed.

End Further.


(** The reaction to [add] on a new queue takes the task. *)
Lemma admission_needs_running_queue_witness :
  let w := Demo.play [LApi (CAdd (VFun 1))] (Demo.fresh None) in
  let w' := Demo.play [LReact 0 []] w in
  dequeued (history w') = dequeued (history w) \/
  exists x q,
    dequeued (history w') = dequeued (history w) ++ [x] /\
    _queue (self w) = x :: q /\
    _halted (self w) = false /\
    _paused (self w) = false /\
    num_le (ToNumber Demo.numerals (concurrencyLimit (_options (self w))))
           (num_of_Z (_inProgressCount (self w))) = false.
Proof.
  intros w w'.
  apply (admission_needs_running_queue Demo.numerals Demo.code Demo.nesting
           (LReact 0 []) w w').
  vm_compute. reflexivity.
Defined.

(** The same reaction on a paused queue leaves the task waiting. *)
Lemma paused_queue_takes_nothing_witness :
  let w := Demo.paused_with_task in
  let w' := Demo.play [LReact 0 []] w in
  _queue (self w) = [VFun 1] /\
  dequeued (history w') = dequeued (history w) /\
  _evaluateQueue Demo.numerals Demo.code (reenter_at Demo.code Demo.nesting) w
    = (tt, w).
Proof.
  intros w w'. split; [reflexivity|].
  apply (paused_queue_takes_nothing Demo.numerals Demo.code Demo.nesting
           (LReact 0 []) w w').
  - vm_compute. reflexivity.
  - vm_compute. reflexivity.
Defined.

(** The three tasks of the example, all done. *)
Lemma hasWork_until_all_done_witness :
  let w := Demo.play Demo.three_tasks (Demo.fresh None) in
  Z.of_nat (length (enqueued (history w))) =
    (Z.of_nat (length (finished (history w))) +
     Z.of_nat (length (cleared (history w))) +
     Z.of_nat (length (_queue (self w))) + _inProgressCount (self w))%Z /\
  (hasWork w = false <->
   length (enqueued (history w)) =
   length (finished (history w)) + length (cleared (history w))).
Proof.
  intros w.
  apply (hasWork_until_all_done Demo.numerals Demo.code Demo.nesting
           None (Demo.fresh None) w Demo.three_tasks).
  - vm_compute. reflexivity.
  - vm_compute. reflexivity.
Defined.

(** [pause] and [resume] on a new queue. *)
Lemma pause_then_resume_witness :
  let w := Demo.fresh None in
  exists w1 w2,
    pause Demo.code (reenter_at Demo.code Demo.nesting) w = Normal w1 /\
    resume Demo.code (reenter_at Demo.code Demo.nesting) w1 = Normal w2 /\
    _paused (self w1) = true /\
    self w2 = self w /\ history w2 = history w /\
    immediates w2 = immediates w /\
    pending w2 = pending w ++ [Then (Settled (Res VUndefined)) (KApi false "paused");
                               Then (Settled (Res VUndefined)) (KApi true "resumed")].
Proof.
  intros w.
  apply (pause_then_resume Demo.code Demo.nesting w); vm_compute; reflexivity.
Defined.

(** The size of an empty queue reported to callbacks that only look. *)
Lemma queueEmpty_follows_size_zero_witness :
  let w := Demo.watched in
  let w1 := record_call "queueSizeChange" 6 (VNum (num_of_Z 0)) w in
  exists rest,
    history (_onQueueSizeChange Demo.code (reenter_at Demo.code Demo.nesting) w).2 =
    history w1 ++ EvCall "queueEmpty" 6 VUndefined :: rest.
Proof.
  intros w w1.
  apply (queueEmpty_follows_size_zero Demo.code Demo.nesting w 6 6 VUndefined);
    vm_compute; reflexivity.
Defined.

(** HALT returned by the [queueSizeChange] callback halts the queue; HALT
    returned by the [error] callback does not. *)
Lemma callback_result_halts_witness :
  let w := Demo.fresh None in
  let c := react Demo.numerals Demo.code Demo.nesting
             (KCallHandler "queueSizeChange")
             (Res (VStr BEFORE_CALLBACK_VALS.HALT)) w in
  let e := react Demo.numerals Demo.code Demo.nesting
             KOnError (Res (VStr BEFORE_CALLBACK_VALS.HALT)) w in
  _halted (self c.2) = true /\ e = (Settled (Res VUndefined), w).
Proof.
  intros w c e.
  destruct (callback_result_halts Demo.numerals Demo.code Demo.nesting
              "queueSizeChange" (VStr BEFORE_CALLBACK_VALS.HALT) w)
    as ((Hc & _) & (_ & He & _) & _).
  - vm_compute. reflexivity.
  - split; [exact Hc|]. apply He. reflexivity.
Defined.



(** A string launched on a queue whose processor is function 1. *)
Lemma processor_gets_other_items_witness :
  let w := Demo.with_processor in
  exists rest,
    history (launch Demo.code (reenter_at Demo.code Demo.nesting) (VStr "x") w).2 =
    history w ++ EvCall "processor" 1 (VStr "x") :: rest /\
    calls_at "item" rest = [] /\ calls_at "processor" rest = [].
Proof.
  intros w.
  destruct (processor_gets_other_items Demo.code Demo.nesting 1 w) as (_ & H & _).
  - vm_compute. reflexivity.
  - apply H. reflexivity.
Defined.

(** ** What the chains of the queue never do *)

Lemma calm_orderly p : calm p = true -> orderly p = true.
Proof.
  destruct p as [r| |q k|ps]; try (intros H; exact H).
  destruct k; try discriminate; intros H; exact H.
Qed.

Lemma calm_wrappers p : calm p = true -> wrappers p = [].
Proof.
  induction p as [r| |q k IH|ps IH] using proc_ind'; intros H; try reflexivity.
  - simpl in *.
    assert (Hq : forall q', leaf q' = true -> wrappers q' = [])
      by (intros [ | | | ]; intros; try discriminate; reflexivity).
    assert (Hh : forall q', halted_chain q' = true -> wrappers q' = []).
    { intros [[]| |q' []|]; intros Hc; try discriminate; try reflexivity.
      simpl in *. rewrite (Hq q' Hc). reflexivity. }
    destruct k; try discriminate; rewrite ?app_nil_r; auto.
    apply andb_prop in H as [H _]. auto.
  - simpl in *. induction IH as [|p ps Hp _ IHps]; [reflexivity|].
    simpl in *. apply andb_prop in H as [H1 H2].
    rewrite Hp, IHps; auto.
Qed.

Lemma tagged_tag src ex : reported_source src = true -> tagged (tag src ex) = true.
Proof. intros H. destruct ex; simpl; exact H. Qed.

Lemma leaf_of_value v : leaf (of_value v) = true.
Proof. destruct v as [| | | | | | | |[] ?| |]; reflexivity. Qed.

Section GrowthLemmas.

Variable StringToNumber : string -> number.

Abbreviation ext := (ext StringToNumber).
Abbreviation rel := (rel StringToNumber).
Abbreviation waiting := (waiting StringToNumber).

Lemma ext_refl full w : ext full w w.
Proof.
  split; auto.
  - exists []. rewrite app_nil_r. auto.
  - exists []. rewrite app_nil_r. simpl. auto.
Qed.

Lemma woken_trans_l w1 w2 w3 :
  woken w1 w2 -> immediates w2 <= immediates w3 ->
  (exists new, pending w3 = pending w2 ++ new) -> woken w1 w3.
Proof.
  intros [Hi|(new & Hp & Ht)] Hle [new2 Hp2].
  - left. lia.
  - right. exists (new ++ new2). rewrite Hp2, Hp, <- app_assoc.
    split; [reflexivity|]. apply Exists_app. left. exact Ht.
Qed.

Lemma woken_trans_r w1 w2 w3 :
  immediates w1 <= immediates w2 ->
  (exists new, pending w2 = pending w1 ++ new) -> woken w2 w3 -> woken w1 w3.
Proof.
  intros Hle [new1 Hp1] [Hi|(new & Hp & Ht)].
  - left. lia.
  - right. exists (new1 ++ new). rewrite Hp, Hp1, <- app_assoc.
    split; [reflexivity|]. apply Exists_app. right. exact Ht.
Qed.

Lemma ext_trans full w1 w2 w3 : ext full w1 w2 -> ext full w2 w3 -> ext full w1 w3.
Proof.
  intros [(n1 & Hp1 & Ho1) Hi1 Hh1 (e1 & He1 & Hx1 & Hc1) Hw1]
         [(n2 & Hp2 & Ho2) Hi2 Hh2 (e2 & He2 & Hx2 & Hc2) Hw2].
  split.
  - exists (n1 ++ n2). rewrite Hp2, Hp1, <- app_assoc.
    split; [reflexivity | apply Forall_app; auto].
  - lia.
  - auto.
  - exists (e1 ++ e2). rewrite He2, He1, <- app_assoc.
    split; [reflexivity|]. split; [apply Forall_app; auto|].
    rewrite calls_at_app.
    destruct (calls_at "halted" e1) as [|a [|b l]];
      destruct (calls_at "halted" e2) as [|a' [|b' l']]; simpl; auto;
      try contradiction.
    + destruct Hc2 as [H2 H3]. split; [|exact H3].
      destruct (_halted (self w1)) eqn:E; [|reflexivity].
      rewrite Hh1 in H2 by reflexivity. discriminate.
    + destruct Hc1 as [H1 H2]. split; [exact H1|]. auto.
    + destruct Hc1 as [_ H1]. destruct Hc2 as [H2 _]. congruence.
  - intros Hf Hw. destruct (Hw2 Hf Hw) as [Hw'|Hk].
    + destruct (Hw1 Hf Hw') as [Hw0|Hk]; [left; exact Hw0|].
      right. eapply woken_trans_l; eauto.
    + right. eapply woken_trans_r; eauto.
Qed.

Lemma ext_weaken full w w' : ext full w w' -> ext false w w'.
Proof. intros [? ? ? ? ?]. split; auto. discriminate. Qed.

Lemma ext_any full w w' : ext true w w' -> ext full w w'.
Proof. intros [? ? ? ? ?]. split; auto. Qed.

Lemma rel_ret {A} full (Q : A -> Prop) (a : A) : Q a -> rel full Q (mret a).
Proof. intros Ha w. split; [apply ext_refl | exact Ha]. Qed.

Lemma rel_bind {A B} full (Q : A -> Prop) (Q' : B -> Prop) (c : M A) (k : A -> M B) :
  rel full Q c -> (forall a, Q a -> rel full Q' (k a)) -> rel full Q' (c ≫= k).
Proof.
  intros Hc Hk w. rewrite bind_run.
  destruct (Hc w) as [H1 Ha]. destruct (Hk _ Ha (c w).2) as [H2 Hb].
  split; [eapply ext_trans; eassumption | exact Hb].
Qed.

Lemma rel_any {A} full (Q Q' : A -> Prop) (c : M A) :
  (forall a, Q a -> Q' a) -> rel true Q c -> rel full Q' c.
Proof. intros HQ Hc w. destruct (Hc w). split; [apply ext_any|]; auto. Qed.

Lemma rel_ext {A} full (Q : A -> Prop) (c : M A) w : rel full Q c -> ext full w (c w).2.
Proof. intros H. apply H. Qed.

(** A change of the queue object alone after which the queue is not
    waiting unless it was. *)
Lemma ext_self full (f : WorkQueue -> WorkQueue) w :
  (_halted (self w) = true -> _halted (f (self w)) = true) ->
  (full = true -> waiting (with_self f w) -> waiting w) ->
  ext full w (with_self f w).
Proof.
  intros Hh Hw. split; simpl; auto.
  - exists []. rewrite app_nil_r. auto.
  - exists []. rewrite app_nil_r. simpl. auto.
Qed.

Lemma rel_get full : rel full (fun _ => True) get.
Proof. intros w. split; [apply ext_refl | exact I]. Qed.

Lemma rel_callback full name : rel full (fun _ => True) (callback name).
Proof. intros w. split; [apply ext_refl | exact I]. Qed.

Lemma rel_getQueueSize full : rel full (fun _ => True) getQueueSize.
Proof. intros w. split; [apply ext_refl | exact I]. Qed.

Lemma waiting_same w w' :
  self w' = self w -> waiting w' -> waiting w.
Proof. unfold waiting, may_enter. intros ->. auto. Qed.

Lemma ext_emit full e w :
  expected e = true ->
  calls_at "halted" [e] = [] ->
  ext full w (set_history (history w ++ [e]) w).
Proof.
  intros He Hc. split; simpl; auto.
  - exists []. rewrite app_nil_r. auto.
  - exists [e]. rewrite Hc. auto.
Qed.

Lemma rel_emit full e :
  expected e = true -> calls_at "halted" [e] = [] ->
  rel full (fun _ => True) (emit e).
Proof. intros He Hc w. split; [apply ext_emit; assumption | exact I]. Qed.

Lemma rel_set_halted full :
  rel full (fun _ => True) (modify (with_self (set_halted true))).
Proof.
  intros w. split; [|exact I]. apply ext_self; [reflexivity|].
  intros _ [(Hh & _) _]. discriminate Hh.
Qed.

Lemma rel_pause full :
  rel full (fun _ => True) (modify (with_self (set_paused true))).
Proof.
  intros w. split; [|exact I]. apply ext_self; [auto|].
  intros _ [(_ & Hp & _) _]. discriminate Hp.
Qed.

Lemma rel_unpause :
  rel false (fun _ => True) (modify (with_self (set_paused false))).
Proof.
  intros w. split; [|exact I]. apply ext_self; [auto|discriminate].
Qed.

Lemma rel_setImmediate full : rel full (fun _ => True) setImmediate_evaluate.
Proof.
  intros w. split; [|exact I]. split; simpl; auto.
  - exists []. rewrite app_nil_r. auto.
  - exists []. rewrite app_nil_r. simpl. auto.
Qed.

Lemma expected_enqueue items : Forall (fun e => expected e = true) (map EvEnqueue items).
Proof. induction items; constructor; auto. Qed.

Lemma calls_at_enqueue s items : calls_at s (map EvEnqueue items) = [].
Proof. induction items; auto. Qed.

Lemma rel_push items : rel false (fun _ => True) (push items).
Proof.
  intros w. split; [|exact I]. split; simpl; auto; try discriminate.
  - exists []. rewrite app_nil_r. auto.
  - exists (map EvEnqueue items). rewrite calls_at_enqueue.
    auto using expected_enqueue.
Qed.

Lemma rel_clear_queue full : rel full (fun _ => True) clear_queue.
Proof.
  intros w. split; [|exact I]. unfold clear_queue. rewrite !bind_run. simpl.
  split; simpl; auto.
  - exists []. rewrite app_nil_r. auto.
  - exists [EvClear (_queue (self w))]. simpl. auto.
  - intros _ [_ Hq]. simpl in Hq. congruence.
Qed.

Lemma rel_detach full p : orderly p = true -> rel full (fun _ => True) (detach p).
Proof.
  intros Hp w. split; [|exact I]. split; simpl; auto.
  - exists [p]. auto.
  - exists []. rewrite app_nil_r. simpl. auto.
Qed.

Lemma ext_register full trigger cb w : ext full w (register trigger cb w).
Proof.
  apply ext_self; [auto|]. intros _ Hw. exact Hw.
Qed.

(** A chain that looks at the queue makes up for anything. *)
Lemma ext_trigger full w w' p :
  ext false w w' -> orderly p = true -> trigger p = true ->
  ext full w (detach p w').2.
Proof.
  intros [(n & Hp & Ho) Hi Hh (e & He & Hx & Hc) _] Hop Ht.
  split; simpl; auto.
  - exists (n ++ [p]). rewrite Hp, <- app_assoc.
    split; [reflexivity | apply Forall_app; auto].
  - exists e. auto.
  - intros _ _. right. right. exists (n ++ [p]). rewrite Hp, <- app_assoc.
    split; [reflexivity|]. apply Exists_app. right. constructor. exact Ht.
Qed.

End GrowthLemmas.

Lemma calls_at_other s site f arg :
  String.eqb site s = false -> calls_at s [EvCall site f arg] = [].
Proof.
  intros H. unfold calls_at. cbn [flat_map]. rewrite String.eqb_sym, H.
  reflexivity.
Qed.

Lemma reported_CALLBACK : reported_source ERROR_SOURCES.CALLBACK = true.
Proof. reflexivity. Qed.

Lemma reported_PROCESS : reported_source ERROR_SOURCES.PROCESS = true.
Proof. reflexivity. Qed.

Section MethodsGrow.

Variable StringToNumber : string -> number.
Variable prog : program.
Variable reenter : api_call -> world -> world.

Abbreviation ext := (ext StringToNumber).
Abbreviation rel := (rel StringToNumber).
Abbreviation waiting := (waiting StringToNumber).

Hypothesis reenter_ext : forall c w, ext true w (reenter c w).

Lemma effects_ext full cs w :
  ext full w (fold_left (fun w c => reenter c w) cs w).
Proof.
  revert w. induction cs as [|c cs IH]; intros w; simpl.
  - apply ext_refl.
  - eapply ext_trans; [apply ext_any, reenter_ext | apply IH].
Qed.

Lemma rel_call full site f arg :
  String.eqb site "halted" = false ->
  (String.eqb site "error" = true -> tagged arg = true) ->
  rel full (fun _ => True) (call prog reenter site f arg).
Proof.
  intros Hs Ht. unfold call. destruct f; try (apply rel_ret; exact I).
  eapply rel_bind; [apply rel_get|]. intros w0 _.
  eapply rel_bind with (Q := fun _ => True).
  - apply rel_emit.
    + simpl. rewrite Hs. destruct (String.eqb site "error"); auto.
    + apply calls_at_other. exact Hs.
  - intros _ _.
    eapply rel_bind with (Q := fun _ => True); [|intros; apply rel_ret; exact I].
    intros w. split; [|exact I]. apply effects_ext.
Qed.

Lemma rel_halt full reason :
  reason_given reason = true ->
  rel full (fun p => calm p = true) (_halt prog reenter reason).
Proof.
  intros Hr w. unfold _halt. rewrite bind_run. cbn [get fst snd].
  destruct (_halted (self w)) eqn:Hh; [split; [apply ext_refl|reflexivity]|].
  rewrite !bind_run. cbn [modify fst snd].
  set (w1 := with_self (set_halted true) w).
  assert (H1 : ext full w w1).
  { apply ext_self; [reflexivity|]. intros _ [(Hx & _) _]. discriminate Hx. }
  assert (Hcb : exists o, callback "halted" w1 = (o, w1))
    by (unfold callback; eexists; reflexivity).
  destruct Hcb as [o Hcb].
  unfold _onHalted. rewrite bind_run, Hcb. cbn [fst snd].
  destruct o as [v|]; [|split; [exact H1|reflexivity]].
  rewrite bind_run. unfold call.
  destruct v as [| | | | |f| | | | |];
    try (split; [exact H1|reflexivity]).
  rewrite !bind_run. cbn [get emit modify fst snd mret M_ret].
  set (wa := set_history (history w1 ++ [EvCall "halted" f reason]) w1).
  set (b := prog f (calls_of f (history w1)) reason).
  assert (Ha : ext full w wa).
  { split; simpl; auto.
    - exists []. rewrite app_nil_r. auto.
    - exists [EvCall "halted" f reason].
      split; [reflexivity|]. split; [constructor; [exact Hr|constructor]|].
      change (calls_at "halted" [EvCall "halted" f reason]) with [(f, reason)].
      split; [exact Hh|reflexivity].
    - intros _ [(Hx & _) _]. discriminate Hx. }
  assert (Hb : ext full w
                 (fold_left (fun w c => reenter c w) (effects b) wa))
    by (eapply ext_trans; [exact Ha | apply effects_ext]).
  destruct (result b) as [r|ex]; [destruct (is_thenable r)|];
    (split; [exact Hb|]); cbn [fst mret M_ret calm halted_chain].
  - apply leaf_of_value.
  - reflexivity.
  - apply tagged_tag. reflexivity.
Qed.

Lemma rel_onError full err :
  tagged err = true ->
  rel full (fun p => calm p = true) (_onError prog reenter err).
Proof.
  intros Ht. unfold _onError.
  eapply rel_bind; [apply rel_callback|]. intros [f|] _;
    [|apply rel_ret; reflexivity].
  eapply rel_bind;
    [apply rel_call; [reflexivity | intros _; exact Ht]|].
  intros [v|ex] _.
  - apply rel_ret. simpl. apply leaf_of_value.
  - eapply rel_bind; [apply rel_halt; reflexivity|]. intros p Hp.
    apply rel_ret. exact Hp.
Qed.

Lemma rel_callHandler full name parameter :
  String.eqb name "halted" = false ->
  String.eqb name "error" = false ->
  rel full (fun p => calm p = true) (_callHandler prog reenter name parameter).
Proof.
  intros Hh He. unfold _callHandler.
  eapply rel_bind; [apply rel_callback|]. intros [f|] _;
    [|apply rel_ret; reflexivity].
  eapply rel_bind;
    [apply rel_call; [exact Hh | rewrite He; discriminate]|].
  intros [v|ex] _.
  - apply rel_ret. simpl. apply leaf_of_value.
  - eapply rel_bind; [apply rel_onError, tagged_tag; reflexivity|]. intros p Hp.
    apply rel_ret. exact Hp.
Qed.

Lemma rel_onQueueSizeChange full :
  rel full (fun p => calm p = true) (_onQueueSizeChange prog reenter).
Proof.
  unfold _onQueueSizeChange.
  eapply rel_bind; [apply rel_getQueueSize|]. intros n _.
  eapply rel_bind; [apply rel_callHandler; reflexivity|].
  intros p1 Hp1. destruct (Nat.eqb 0 n).
  - eapply rel_bind; [apply rel_callHandler; reflexivity|].
    intros p2 Hp2. apply rel_ret. simpl. rewrite Hp1, Hp2. reflexivity.
  - apply rel_ret. simpl. rewrite Hp1. reflexivity.
Qed.

Lemma rel_launch full nextItem :
  rel full (fun p => calm p = true /\ retrieves p = true)
      (launch prog reenter nextItem).
Proof.
  unfold launch.
  assert (Hend : forall r : outcome,
    match r with Throws ex => tagged ex = true | _ => True end ->
    rel full (fun p => calm p = true /\ retrieves p = true)
      (match r with
       | Returns nextItemPromise =>
           if is_thenable nextItemPromise
           then mret (Settled (Res (VWrapper nextItemPromise)))
           else
             p ← _onError prog reenter (WorkQueueError
                    (VStr "Enqueued function did not return a Promise")
                    (VStr ERROR_SOURCES.BADREQUEST));
             mret (Then p KSettle)
       | Throws ex => p ← _onError prog reenter ex; mret (Then p KSettle)
       end)).
  { intros [v|ex] Ht.
    - destruct (is_thenable v); [apply rel_ret; split; reflexivity|].
      eapply rel_bind; [apply rel_onError; reflexivity|].
      intros p Hp. apply rel_ret. split; [exact Hp|reflexivity].
    - eapply rel_bind; [apply rel_onError; exact Ht|].
      intros p Hp. apply rel_ret. split; [exact Hp|reflexivity]. }
  eapply rel_bind
    with (Q := fun r => match r with Throws ex => tagged ex = true | _ => True end);
    [|intros r Hr; apply Hend; exact Hr].
  destruct (is_function nextItem).
  - eapply rel_bind; [apply rel_call; [reflexivity|discriminate]|].
    intros [v|ex] _; apply rel_ret; [exact I|apply tagged_tag; reflexivity].
  - eapply rel_bind; [apply rel_get|]. intros w0 _.
    destruct (is_nullish _); [apply rel_ret; reflexivity|].
    eapply rel_bind; [apply rel_call; [reflexivity|discriminate]|].
    intros [v|ex] _; apply rel_ret; [exact I|apply tagged_tag; reflexivity].
Qed.

Lemma waiting_enter x q w :
  _queue (self w) = x :: q -> waiting (enter x q w) -> waiting w.
Proof.
  intros Hq [(Hh & Hp & Hl) _]. simpl in *.
  split; [|rewrite Hq; discriminate].
  split; [exact Hh|]. split; [exact Hp|].
  apply not_true_iff_false. intros Hle. apply not_true_iff_false in Hl.
  apply Hl. eapply num_le_mono; [|exact Hle]. lia.
Qed.

Lemma rel_retrieveNextPromise full :
  rel full (fun p => calm p = true /\ retrieves p = true)
      (_retrieveNextPromise prog reenter).
Proof.
  intros w. unfold _retrieveNextPromise. rewrite !bind_run.
  cbn [modify emit fst snd mret M_ret].
  match goal with
  | |- context [_onQueueSizeChange prog reenter ?w0] => set (wa := w0)
  end.
  assert (Ha : ext full w wa).
  { unfold wa, shift. destruct (_queue (self w)) as [|x q] eqn:Hq; cbn [fst snd].
    - split; simpl; auto.
      + exists []. rewrite app_nil_r. auto.
      + exists [EvDequeue VUndefined]. simpl. auto.
      + intros _ [_ Hne]. simpl in Hne. congruence.
    - split; simpl; auto.
      + exists []. rewrite app_nil_r. auto.
      + exists [EvDequeue x]. simpl. auto.
      + intros _ Hw. left. apply (waiting_enter x q); [exact Hq|exact Hw]. }
  destruct (rel_onQueueSizeChange full wa) as [Hq Hc].
  split; [eapply ext_trans; eassumption|].
  split; [exact Hc|reflexivity].
Qed.

Lemma rel_processNextItemWrapper full :
  rel full (fun p => exists q x, p = Then q (KWrapper x) /\ calm q = true)
      (_processNextItemWrapper prog reenter).
Proof.
  unfold _processNextItemWrapper, _processNextItem.
  eapply rel_bind; [apply rel_get|]. intros w0 _.
  eapply rel_bind.
  - eapply rel_bind; [apply rel_retrieveNextPromise|].
    intros p [Hp Hr]. apply (rel_ret _ _ (fun q => calm q = true)).
    simpl. rewrite Hp, Hr. reflexivity.
  - intros p Hp. apply rel_ret. eauto.
Qed.

Lemma rel_evaluateQueue full :
  rel full (fun _ => True) (_evaluateQueue StringToNumber prog reenter).
Proof.
  unfold _evaluateQueue.
  eapply rel_bind; [apply rel_get|]. intros w0 _.
  destruct (_ || _); [apply rel_ret; exact I|].
  destruct (num_le _ _); [apply rel_ret; exact I|].
  destruct (Nat.eqb _ _); [apply rel_ret; exact I|].
  eapply rel_bind; [apply rel_processNextItemWrapper|].
  intros p (q & x & -> & Hq).
  eapply rel_bind; [apply rel_detach; exact Hq|]. intros _ _.
  apply rel_setImmediate.
Qed.

(** If the queue is still waiting when [_evaluateQueue] returns, a
    [setImmediate] call was left. *)
Lemma evaluateQueue_wakes w :
  waiting (_evaluateQueue StringToNumber prog reenter w).2 ->
  immediates w < immediates (_evaluateQueue StringToNumber prog reenter w).2.
Proof.
  unfold _evaluateQueue. rewrite bind_run. cbn [get fst snd].
  destruct (_halted (self w) || _paused (self w)) eqn:Hhp.
  { intros [(Hh & Hp & _) _]. cbn [mret M_ret snd] in *.
    rewrite Hh, Hp in Hhp. discriminate. }
  destruct (num_le _ _) eqn:Hl.
  { intros [(_ & _ & Hl') _]. cbn [mret M_ret snd] in *. congruence. }
  destruct (Nat.eqb _ _) eqn:Hq.
  { intros [_ Hne]. cbn [mret M_ret snd] in *.
    destruct (_queue (self w)); [congruence|discriminate]. }
  intros _. rewrite !bind_run. cbn [detach setImmediate_evaluate modify fst snd].
  destruct (rel_processNextItemWrapper false w) as [[_ Hi _ _ _] _].
  simpl. lia.
Qed.

Lemma rel_push_if full (b : bool) name :
  String.eqb name "halted" = false ->
  String.eqb name "error" = false ->
  rel full (Forall (fun p => calm p = true))
      (push_if b (_callHandler prog reenter name VUndefined)).
Proof.
  intros Hh He. unfold push_if. destruct b; [|apply rel_ret; constructor].
  eapply rel_bind; [apply rel_callHandler; assumption|].
  intros p Hp. apply rel_ret. constructor; [exact Hp|constructor].
Qed.

Lemma calm_All ps : Forall (fun p => calm p = true) ps -> calm (All ps) = true.
Proof.
  intros H. simpl. induction H as [|p ps Hp _ IH]; [reflexivity|].
  simpl. rewrite Hp, IH. reflexivity.
Qed.

Lemma rel_after_notices full p1 :
  Forall (fun p => calm p = true) p1 ->
  rel full (fun p => calm p = true) (after_notices prog reenter p1).
Proof.
  intros H1. unfold after_notices.
  eapply rel_bind; [apply rel_get|]. intros w0 _.
  eapply rel_bind; [apply rel_push_if; reflexivity|]. intros p2 H2.
  eapply rel_bind; [apply rel_get|]. intros w1 _.
  eapply rel_bind; [apply rel_push_if; reflexivity|]. intros p3 H3.
  apply rel_ret. change (calm (All (p1 ++ p2 ++ p3)) = true).
  apply calm_All. repeat apply Forall_app_2; assumption.
Qed.

Lemma ext_retire x w : ext false w (retire x w).
Proof.
  split; simpl; auto; try discriminate.
  - exists []. rewrite app_nil_r. auto.
  - exists [EvComplete x]. simpl. auto.
Qed.

Lemma rel_completed x :
  rel false (fun p => calm p = true) (completed prog reenter x).
Proof.
  unfold completed.
  eapply rel_bind with (Q := fun _ => True).
  { intros w. split; [apply ext_retire|exact I]. }
  intros _ _.
  eapply rel_bind; [apply rel_get|]. intros w0 _.
  eapply rel_bind; [apply rel_push_if; reflexivity|]. intros p1 H1.
  apply rel_after_notices. exact H1.
Qed.

Lemma rel_api_chain full (c : M unit) evaluate name :
  rel full (fun _ => True) c ->
  rel full (fun _ => True)
    (c;; p ← _onQueueSizeChange prog reenter; detach (Then p (KApi evaluate name))).
Proof.
  intros Hc.
  eapply rel_bind; [exact Hc|]. intros _ _.
  eapply rel_bind; [apply rel_onQueueSizeChange|]. intros p Hp.
  apply rel_detach. destruct evaluate; exact Hp.
Qed.

(** A method that pushes or resumes leaves a chain that looks at the
    queue. *)
Lemma ext_api_trigger (c : M proc) name w :
  rel false (fun p => calm p = true) c ->
  ext true w ((p ← c; detach (Then p (KApi true name))) w).2.
Proof.
  intros Hc. rewrite bind_run. destruct (Hc w) as [He Hp].
  apply ext_trigger; [exact He|exact Hp|reflexivity].
Qed.

Lemma api_ext c w : ext true w (invoke prog reenter c w).
Proof.
  unfold invoke. destruct c as [item|items| | | |trigger cb]; simpl.
  - unfold add. destruct (_ && _); [apply ext_refl|].
    cbn [snd]. rewrite bind_run.
    match goal with
    | |- ext true w ((?k ?a) ?w1).2 =>
        change ((k a) w1) with
          ((p ← (fun w0 => _onQueueSizeChange prog reenter (push [item] w0).2);
            detach (Then p (KApi true "queueSizeChange"))) w)
    end.
    apply ext_api_trigger. intros w0.
    destruct (rel_push StringToNumber [item] w0) as [H1 _].
    destruct (rel_onQueueSizeChange false (push [item] w0).2) as [H2 Hp].
    split; [eapply ext_trans; eassumption|exact Hp].
  - unfold addAll. cbn [snd]. rewrite bind_run.
    match goal with
    | |- ext true w ((?k ?a) ?w1).2 =>
        change ((k a) w1) with
          ((p ← (fun w0 => _onQueueSizeChange prog reenter (push items w0).2);
            detach (Then p (KApi true "queueSizeChange"))) w)
    end.
    apply ext_api_trigger. intros w0.
    destruct (rel_push StringToNumber items w0) as [H1 _].
    destruct (rel_onQueueSizeChange false (push items w0).2) as [H2 Hp].
    split; [eapply ext_trans; eassumption|exact Hp].
  - unfold clear. eapply rel_ext, rel_api_chain, rel_clear_queue.
  - unfold pause. apply (rel_ext StringToNumber true (fun _ => True)).
    eapply rel_bind; [apply rel_pause|]. intros _ _.
    eapply rel_bind; [apply rel_callHandler; reflexivity|].
    intros p Hp. apply rel_detach. exact Hp.
  - unfold resume. destruct (negb _); [apply ext_refl|].
    cbn [snd]. rewrite bind_run.
    match goal with
    | |- ext true w ((?k ?a) ?w1).2 =>
        change ((k a) w1) with
          ((p ← (fun w0 => _onResumed prog reenter
                             (modify (with_self (set_paused false)) w0).2);
            detach (Then p (KApi true "resumed"))) w)
    end.
    apply ext_api_trigger. intros w0.
    destruct (rel_unpause StringToNumber w0) as [H1 _].
    destruct (rel_callHandler false "resumed" VUndefined eq_refl eq_refl
                (modify (with_self (set_paused false)) w0).2) as [H2 Hp].
    split; [eapply ext_trans; eassumption|exact Hp].
  - unfold on.
    repeat match goal with
           | |- context [if ?b then _ else _] => destruct b
           end; try apply ext_refl; apply ext_register.
Qed.

Lemma run_kont_calm k r :
  calm (Then (Settled r) k) = true ->
  rel true (fun p => calm p = true /\
                     (retrieves (Then (Settled r) k) = true -> retrieves p = true))
      (run_kont StringToNumber prog reenter k r).
Proof.
  assert (Hhalt : forall reason k',
            reason_given reason = true ->
            match k' with KSettle | KSettleWith _ => True | _ => False end ->
            retrieves (Then (Settled r) k) = false ->
            rel true (fun p => calm p = true /\
                       (retrieves (Then (Settled r) k) = true -> retrieves p = true))
              (p ← _halt prog reenter reason; mret (Then p k'))).
  { intros reason k' Hr Hk Hn.
    eapply rel_bind; [apply rel_halt; exact Hr|]. intros p Hp.
    apply rel_ret. split; [|rewrite Hn; discriminate].
    destruct k'; try contradiction; exact Hp. }
  assert (Herr : forall err,
            tagged err = true ->
            retrieves (Then (Settled r) k) = false ->
            rel true (fun p => calm p = true /\
                       (retrieves (Then (Settled r) k) = true -> retrieves p = true))
              (p ← _onError prog reenter err; mret (Then p KSettle))).
  { intros err Ht Hn.
    eapply rel_bind; [apply rel_onError; exact Ht|]. intros p Hp.
    apply rel_ret. split; [exact Hp|rewrite Hn; discriminate]. }
  intros Hc.
  destruct k; simpl in Hc; try discriminate Hc;
    destruct r as [v|err]; try discriminate Hc; cbn [run_kont].
  - (* KOnError, resolved *)
    destruct (is_false v); [apply Hhalt; auto|].
    apply rel_ret. split; [reflexivity|discriminate].
  - apply Hhalt; auto.
  - (* KCallHandler *)
    destruct (_ || _); [apply Hhalt; auto|].
    apply rel_ret. split; [reflexivity|discriminate].
  - apply Herr; [apply tagged_tag; reflexivity|reflexivity].
  - (* KSettle *)
    apply rel_ret. split; reflexivity.
  - (* KSettleWith *)
    apply rel_ret. split; [reflexivity|discriminate].
  - (* KHalt *)
    apply rel_ret. split; [reflexivity|discriminate].
  - eapply rel_bind; [apply rel_onError; exact Hc|]. intros p Hp.
    apply rel_ret. split; [exact Hp|discriminate].
  - (* KGiveUp *)
    apply rel_ret. split; [reflexivity|discriminate].
  - (* KRetrieveSizeChanged *)
    eapply rel_bind; [apply rel_callHandler; reflexivity|]. intros p Hp.
    apply rel_ret. split; [exact Hp|reflexivity].
  - (* KRetrieveBefore *)
    destruct (_ || _); [apply rel_ret; split; reflexivity|].
    eapply rel_any; [|apply rel_launch]. intros p [H1 H2]. auto.
  - (* KProcessRetrieved *)
    apply andb_prop in Hc as [_ Hc]. simpl in Hc.
    destruct (is_nullish v) eqn:Hn; [apply rel_ret; split; [reflexivity|discriminate]|].
    destruct v; try discriminate Hc.
    apply rel_ret. split; [apply leaf_of_value|discriminate].
  - (* KProcessSettled *)
    eapply rel_bind; [apply rel_callHandler; reflexivity|]. intros p Hp.
    apply rel_ret. split; [exact Hp|discriminate].
  - apply Herr; [apply tagged_tag; reflexivity|reflexivity].
  - (* KProcessItemProcessed *)
    destruct (is_false itemResult); [apply Hhalt; auto|].
    apply rel_ret. split; [reflexivity|discriminate].
  - (* KApi *)
    eapply rel_bind with (Q := fun _ => True).
    + destruct evaluate; [apply rel_evaluateQueue|apply rel_ret; exact I].
    + intros _ _. apply rel_ret. split; [reflexivity|discriminate].
Qed.

End MethodsGrow.

Lemma reenter_at_ext StringToNumber prog depth c w :
  ext StringToNumber true w (reenter_at prog depth c w).
Proof.
  revert c w. induction depth as [|d IH]; intros c w; simpl.
  - apply ext_refl.
  - apply api_ext. exact IH.
Qed.

Lemma calm_no_rejection ps :
  forallb calm ps = true -> join ps = Some (Res (VObject 0)) \/ join ps = None.
Proof.
  intros H. unfold join.
  assert (Hf : first_rejection ps = None).
  { induction ps as [|p ps IH]; [reflexivity|]. simpl in *.
    apply andb_prop in H as [Hp Hps].
    destruct p as [[]| | |]; simpl in *; try discriminate; auto. }
  rewrite Hf. destruct (forallb is_resolved ps); auto.
Qed.

Lemma calm_unsettled ps :
  forallb calm ps = true -> Forall (fun p => orderly p = true) (unsettled ps).
Proof.
  unfold unsettled. induction ps as [|p ps IH]; intros H; [constructor|].
  simpl in H. apply andb_prop in H as [Hp Hps].
  rewrite filter_cons. case_decide.
  - constructor; [apply calm_orderly; exact Hp|auto].
  - auto.
Qed.

Lemma orderly_evaluate q : calm q = true -> orderly (Then q KEvaluate) = true.
Proof.
  intros H. destruct q as [| |q' k|]; try exact H.
  destruct k; try exact H; discriminate H.
Qed.


Section ChainsGrow.

Variable StringToNumber : string -> number.
Variable prog : program.
Variable depth : nat.

Abbreviation ext := (ext StringToNumber).
Abbreviation waiting := (waiting StringToNumber).
Abbreviation tidy := (tidy StringToNumber).
Abbreviation react := (react StringToNumber prog depth).
Abbreviation pstep := (pstep StringToNumber prog depth).
Abbreviation step := (step StringToNumber prog depth).
Abbreviation exec := (exec StringToNumber prog depth).

Lemma react_calm k r w :
  calm (Then (Settled r) k) = true ->
  ext true w (react k r w).2 /\ calm (react k r w).1 = true /\
  (retrieves (Then (Settled r) k) = true -> retrieves (react k r w).1 = true).
Proof.
  intros Hc.
  destruct (run_kont_calm StringToNumber prog _
              (reenter_at_ext StringToNumber prog depth) k r Hc w) as [He [H1 H2]].
  auto.
Qed.

Lemma pstep_halted_chain path p w p' w' :
  pstep path p w = Some (p', w') -> halted_chain p = true ->
  w' = w /\ halted_chain p' = true.
Proof.
  destruct p as [[]| |q k|]; try discriminate.
  destruct k; try discriminate.
  destruct q as [[v|err]| | |]; try discriminate; intros H _;
    cbn_pstep_in H; unfold_react_in H;
    injection H as <- <-; split; try reflexivity.
  apply tagged_tag. reflexivity.
Qed.

Lemma pstep_calm p : forall path w p' w',
  pstep path p w = Some (p', w') -> calm p = true ->
  ext true w w' /\ calm p' = true /\ (retrieves p = true -> retrieves p' = true).
Proof.
  induction p as [r| |q k IH|ps IH] using proc_ind'; intros path w p' w' Hs Hc.
  - discriminate.
  - discriminate.
  - destruct (is_settled q) eqn:Hq.
    + destruct q as [r| | |]; try discriminate Hq. cbn_pstep_in Hs.
      destruct (react_calm k r w Hc) as (He & Hc' & Hr).
      injection Hs as Hs. rewrite Hs in *. auto.
    + rewrite pstep_Then_inner in Hs by exact Hq.
      destruct (pstep path q w) as [[q' w1]|] eqn:Hi; [|discriminate].
      injection Hs as <- <-.
      assert (Hleaf : leaf q = true -> False).
      { destruct q; try discriminate. }
      assert (Hr : retrieves (Then q k) = true -> retrieves (Then q' k) = true)
        by (destruct k; auto).
      simpl in Hc.
      destruct k; try discriminate Hc;
        try (exfalso; apply Hleaf; exact Hc);
        try (destruct (IH _ _ _ _ Hi Hc) as (He & Hc' & _);
             split; [exact He|split; [exact Hc'|exact Hr]]).
      * destruct (pstep_halted_chain _ _ _ _ _ Hi Hc) as [-> Hh].
        split; [apply ext_refl|]. split; [exact Hh|exact Hr].
      * apply andb_prop in Hc as [Hc1 Hc2].
        destruct (IH _ _ _ _ Hi Hc1) as (He & Hc' & Hr').
        split; [exact He|]. split; [|exact Hr].
        simpl. rewrite Hc', (Hr' Hc2). reflexivity.
  - simpl in Hs, Hc.
    destruct (calm_no_rejection ps Hc) as [Hj|Hj]; rewrite Hj in Hs.
    + injection Hs as <- <-. split; [|split; [reflexivity|discriminate]].
      split; simpl; auto.
      * exists (unsettled ps). split; [reflexivity|].
        apply calm_unsettled. exact Hc.
      * exists []. rewrite app_nil_r. simpl. auto.
    + destruct path as [|i path']; [discriminate|].
      destruct (step_nth _ ps i w) as [[ps' w1]|] eqn:Hn; [|discriminate].
      injection Hs as <- <-.
      apply step_nth_inv in Hn as (pre & q & post & q' & -> & -> & Hq).
      rewrite forallb_app in Hc. apply andb_prop in Hc as [Hpre Hc].
      simpl in Hc. apply andb_prop in Hc as [Hcq Hpost].
      apply Forall_app in IH as [_ IH]. apply Forall_cons in IH as [IHq _].
      destruct (IHq _ _ _ _ Hq Hcq) as (He & Hc' & _).
      split; [exact He|]. split; [|discriminate].
      simpl. rewrite forallb_app. simpl. rewrite Hpre, Hc', Hpost. reflexivity.
Qed.

Lemma ext_finished full w w' :
  ext full w w' -> length (finished (history w)) <= length (finished (history w')).
Proof.
  intros [_ _ _ (evs & He & _) _]. rewrite He, finished_app, length_app. lia.
Qed.

Lemma pstep_calm_wakes path p w p' w' :
  pstep path p w = Some (p', w') -> calm p = true ->
  waiting w' ->
  woken w w' \/ trigger p' = true \/ (waiting w /\ trigger p = false).
Proof.
  intros Hs Hc Hw.
  destruct (pstep_calm _ _ _ _ _ Hs Hc) as ([_ _ _ _ Hk] & _ & _).
  destruct (trigger p) eqn:Ht.
  - destruct p as [| |q k|]; try discriminate Ht.
    destruct k as [| | | | | | | | | | | | | |[] name| |]; try discriminate Ht;
      try discriminate Hc.
    destruct (is_settled q) eqn:Hq.
    + destruct q as [[v|err]| | |]; try discriminate Hq; try discriminate Hc.
      cbn_pstep_in Hs. unfold_react_in Hs. rewrite bind_run in Hs.
      cbn [mret M_ret] in Hs. injection Hs as <- <-.
      left. left. apply evaluateQueue_wakes with (1 := reenter_at_ext _ _ _).
      exact Hw.
    + rewrite pstep_Then_inner in Hs by exact Hq.
      destruct (pstep path q w) as [[q' w1]|]; [|discriminate].
      injection Hs as <- <-. right. left. reflexivity.
  - destruct (Hk eq_refl Hw) as [H|H]; auto.
Qed.

Lemma pstep_orderly path p w p' w' :
  pstep path p w = Some (p', w') -> orderly p = true ->
  ext false w w' /\ orderly p' = true /\
  (waiting w' ->
   woken w w' \/ trigger p' = true \/ (waiting w /\ trigger p = false)) /\
  length (wrappers p) + length (finished (history w))
  <= length (wrappers p') + length (finished (history w')).
Proof.
  intros Hs Ho.
  assert (Hcalm : calm p = true ->
    ext false w w' /\ orderly p' = true /\
    (waiting w' ->
     woken w w' \/ trigger p' = true \/ (waiting w /\ trigger p = false)) /\
    length (wrappers p) + length (finished (history w))
    <= length (wrappers p') + length (finished (history w'))).
  { intros Hc. destruct (pstep_calm _ _ _ _ _ Hs Hc) as (He & Hc' & _).
    split; [eapply ext_weaken; exact He|].
    split; [apply calm_orderly; exact Hc'|].
    split; [apply (pstep_calm_wakes _ _ _ _ _ Hs Hc)|].
    rewrite (calm_wrappers _ Hc), (calm_wrappers _ Hc').
    pose proof (ext_finished _ _ _ He). simpl. lia. }
  destruct p as [r| |q k|ps]; try discriminate Hs; [|apply Hcalm; exact Ho].
  destruct k; try (apply Hcalm; exact Ho). clear Hcalm.
  assert (Hinner : forall q0 q' w0, calm q0 = true ->
    pstep path q0 w = Some (q', w0) ->
    ext false w w0 /\ orderly (Then q' KEvaluate) = true /\
    (waiting w0 ->
     woken w w0 \/ trigger (Then q' KEvaluate) = true
     \/ (waiting w /\ trigger (Then q0 KEvaluate) = false)) /\
    length (wrappers (Then q0 KEvaluate)) + length (finished (history w))
    <= length (wrappers (Then q' KEvaluate)) + length (finished (history w0))).
  { clear. intros q0 q' w0 Hc Hi.
    destruct (pstep_calm _ _ _ _ _ Hi Hc) as (He & Hc' & _).
    split; [eapply ext_weaken; exact He|].
    split; [apply orderly_evaluate; exact Hc'|].
    split; [intros _; right; left; reflexivity|].
    simpl. rewrite (calm_wrappers _ Hc), (calm_wrappers _ Hc').
    pose proof (ext_finished _ _ _ He). simpl. lia. }
  destruct q as [[v|err]| |q1 k1|ps1]; try discriminate Ho; try discriminate Hs.
  - (* the wrapper's chain has resolved *)
    cbn_pstep_in Hs. unfold_react_in Hs. rewrite bind_run in Hs.
    cbn [setImmediate_evaluate modify mret M_ret fst snd] in Hs.
    injection Hs as <- <-.
    split; [apply (rel_setImmediate StringToNumber false w)|].
    split; [reflexivity|].
    split; [intros _; left; left; simpl; lia|]. simpl. lia.
  - destruct (is_settled (Then q1 k1)) eqn:Hq; [discriminate|].
    rewrite pstep_Then_inner in Hs by exact Hq. clear Hq.
    destruct (pstep path (Then q1 k1) w) as [[q' w1]|] eqn:Hi;
      [|discriminate].
    injection Hs as <- <-.
    destruct k1 as [| |n| |v| | |x1|x2| | |r|item| |e c|h|]; try discriminate Ho;
      try (apply Hinner; [exact Ho|exact Hi]). clear Hinner.
    (* the wrapper of an item *)
    simpl in Ho.
    destruct (is_settled q1) eqn:Hq.
    + destruct q1 as [[v|err]| | |]; try discriminate Hq; try discriminate Ho.
      cbn_pstep_in Hi. unfold_react_in Hi. injection Hi as Hi.
      destruct (rel_completed StringToNumber prog _
                  (reenter_at_ext StringToNumber prog depth) item w) as [He Hc].
      destruct (completed_evolve prog _ (reenter_at_evolve prog depth) item w)
        as [[_ _ _ (evs & Hh & _) _ _] _].
      rewrite Hi in He, Hc, Hh. cbn [fst snd] in He, Hc, Hh.
      split; [exact He|].
      split; [apply orderly_evaluate; exact Hc|].
      split; [intros _; right; left; reflexivity|].
      rewrite Hh. simpl. rewrite !finished_app, !length_app. simpl. lia.
    + rewrite pstep_Then_inner in Hi by exact Hq.
      destruct (pstep path q1 w) as [[q2 w2]|] eqn:Hj;
        [|discriminate].
      injection Hi as <- <-.
      destruct (pstep_calm _ _ _ _ _ Hj Ho) as (He & Hc' & _).
      split; [eapply ext_weaken; exact He|].
      split; [exact Hc'|].
      split; [intros _; right; left; reflexivity|].
      simpl. rewrite (calm_wrappers _ Ho), (calm_wrappers _ Hc').
      pose proof (ext_finished _ _ _ He). simpl. lia.
  - (* [Promise.all] under the last reaction *)
    rewrite pstep_Then_inner in Hs by reflexivity.
    destruct (pstep path (All ps1) w) as [[q' w1]|] eqn:Hi;
      [|discriminate].
    injection Hs as <- <-. apply Hinner; [exact Ho|exact Hi].
Qed.

Lemma ext_accounted full w w' : ext full w w' -> accounted w <= accounted w'.
Proof.
  intros [(n & Hp & _) _ _ (evs & He & _) _]. unfold accounted.
  rewrite Hp, He, all_wrappers_app, finished_app, !length_app. lia.
Qed.

(** What [tidy] says of the chains, the history and the [halted] callback
    goes from a world to the worlds that extend it. *)
Lemma ext_tidy_core full w0 w w' :
  pending w0 = pending w -> history w0 = history w -> self w0 = self w ->
  tidy w0 -> ext full w w' ->
  Forall (fun p => orderly p = true) (pending w') /\
  Forall (fun e => expected e = true) (history w') /\
  match calls_at "halted" (history w') with
  | [] => True
  | [_] => _halted (self w') = true
  | _ => False
  end.
Proof.
  intros Ep Eh Es [Tp Th Tc _] [(n & Hp & Ho) _ Hh (evs & He & Hx & Hc) _].
  rewrite Ep in Tp. rewrite Eh in Th, Tc. rewrite Es in Tc.
  split; [rewrite Hp; apply Forall_app; auto|].
  split; [rewrite He; apply Forall_app; auto|].
  rewrite He, calls_at_app.
  destruct (calls_at "halted" (history w)) as [|a [|b l]];
    destruct (calls_at "halted" evs) as [|a' [|b' l']]; simpl; auto;
    try contradiction.
  - apply Hc.
  - destruct Hc as [Hc _]. congruence.
Qed.

Lemma ext_tidy w w' : tidy w -> ext true w w' -> tidy w'.
Proof.
  intros Ht He.
  destruct (ext_tidy_core true w w w' eq_refl eq_refl eq_refl Ht He)
    as (H1 & H2 & H3).
  split; auto.
  intros Hw. destruct He as [(n & Hp & _) Hi _ _ Hk].
  destruct (Hk eq_refl Hw) as [Hw0|[Hlt|(n' & Hp' & Hx)]].
  - destruct (t_awake _ _ Ht Hw0) as [H|H]; [left; lia|].
    right. rewrite Hp. apply Exists_app. left. exact H.
  - left. lia.
  - right. rewrite Hp'. apply Exists_app. right. exact Hx.
Qed.

Lemma Exists_delete {A} (P : A -> Prop) (l : list A) i x :
  l !! i = Some x -> ~ P x -> Exists P l -> Exists P (delete i l).
Proof.
  intros Hl Hn He. apply delete_Permutation in Hl.
  rewrite Hl in He. apply Exists_cons in He as [H|H]; [contradiction|exact H].
Qed.

Lemma constructor_tidy options w0 :
  constructor StringToNumber options = Normal w0 -> tidy w0.
Proof.
  intros H. apply constructor_Normal in H as (opts & _ & ->).
  split; simpl; auto. intros [_ Hq]. simpl in Hq. congruence.
Qed.

Lemma step_tidy l w w' :
  tidy w -> step l w = Some w' -> tidy w' /\ accounted w <= accounted w'.
Proof.
  intros Ht Hs. destruct l as [c|i path|]; cbn_step_in Hs.
  - injection Hs as <-.
    pose proof (api_ext StringToNumber prog _
                  (reenter_at_ext StringToNumber prog depth) c w) as He.
    split; [eapply ext_tidy; eassumption|eapply ext_accounted; exact He].
  - destruct (pending w !! i) as [p|] eqn:Hp; [|discriminate].
    set (w1 := set_pending (delete i (pending w)) w) in *.
    destruct (pstep path p w1) as [[p' w2]|] eqn:Hstep; [|discriminate].
    injection Hs as <-.
    assert (Hop : orderly p = true).
    { destruct Ht as [Tp _ _ _]. rewrite Forall_lookup in Tp. eapply Tp, Hp. }
    destruct (pstep_orderly _ _ _ _ _ Hstep Hop) as (He & Hop' & Hk & Hacc).
    assert (Ht1 : Forall (fun p => orderly p = true) (pending w1)).
    { simpl. destruct Ht as [Tp _ _ _]. apply Forall_delete. exact Tp. }
    destruct He as [(n & Hpn & Hon) Hi Hh (evs & Hev & Hx & Hc) Hwk].
    assert (Hcore : Forall (fun e => expected e = true) (history w2) /\
                    match calls_at "halted" (history w2) with
                    | [] => True
                    | [_] => _halted (self w2) = true
                    | _ => False
                    end).
    { destruct Ht as [_ Th Tc _].
      split; [rewrite Hev; apply Forall_app; auto|].
      rewrite Hev, calls_at_app. simpl.
      destruct (calls_at "halted" (history w)) as [|a [|b l]];
        destruct (calls_at "halted" evs) as [|a' [|b' l']]; simpl; auto;
        try contradiction.
      - apply Hc.
      - destruct Hc as [Hc _]. simpl in Hc. congruence. }
    destruct Hcore as [Hc1 Hc2].
    split.
    + split; simpl; auto.
      * apply Forall_app. split; [|constructor; [exact Hop'|constructor]].
        rewrite Hpn. apply Forall_app. auto.
      * intros Hw.
        assert (Hw2 : waiting w2) by exact Hw.
        destruct (Hk Hw2) as [[Hlt|(n' & Hp' & Hx')]|[Htr|[Hw1 Hnt]]].
        -- left. simpl in Hlt. lia.
        -- right. rewrite Hp'. apply Exists_app. left. apply Exists_app.
           right. exact Hx'.
        -- right. apply Exists_app. right. constructor. exact Htr.
        -- assert (Hw0 : waiting w) by exact Hw1.
           destruct (t_awake _ _ Ht Hw0) as [H|H]; [left; simpl in Hi; lia|].
           right. apply Exists_app. left. rewrite Hpn. apply Exists_app. left.
           simpl. eapply Exists_delete; [exact Hp| |exact H]. congruence.
    + unfold accounted in *. simpl.
      apply delete_Permutation, all_wrappers_Permutation, Permutation_length in Hp.
      rewrite Hp. simpl. rewrite length_app.
      rewrite all_wrappers_app, Hpn, all_wrappers_app, !length_app. simpl.
      rewrite app_nil_r. simpl in Hacc. lia.
  - destruct (immediates w) as [|n] eqn:Hi; [discriminate|].
    injection Hs as <-.
    set (w1 := set_immediates n w).
    destruct (rel_evaluateQueue StringToNumber prog _
                (reenter_at_ext StringToNumber prog depth) true w1) as [He _].
    destruct (ext_tidy_core true w w1 _ eq_refl eq_refl eq_refl Ht He)
      as (H1 & H2 & H3).
    split.
    + split; auto. intros Hw. left.
      apply evaluateQueue_wakes with (1 := reenter_at_ext _ _ _) in Hw.
      lia.
    + apply (ext_accounted _ _ _ He).
Qed.

Lemma exec_tidy ls : forall w w',
  tidy w -> exec ls w = Some w' -> tidy w' /\ accounted w <= accounted w'.
Proof.
  induction ls as [|l ls IH]; intros w w' Ht He; simpl in He.
  - injection He as <-. auto.
  - destruct (step l w) as [w1|] eqn:Hs; [|discriminate].
    destruct (step_tidy _ _ _ Ht Hs) as [Ht1 Ha1].
    destruct (IH _ _ Ht1 He) as [Ht' Ha']. split; [exact Ht'|lia].
Qed.

End ChainsGrow.

Lemma calls_at_In s f arg h : In (f, arg) (calls_at s h) -> In (EvCall s f arg) h.
Proof.
  induction h as [|e h IH]; [intros []|].
  unfold calls_at. cbn [flat_map]. intros H. apply in_app_or in H as [H|H].
  - left. destruct e; try destruct H.
    destruct (String.eqb_spec s site); [|destruct H].
    destruct H as [H|[]]. congruence.
  - right. apply IH. exact H.
Qed.

Lemma calm_sound p : calm p = true -> internal_failure p = false.
Proof.
  assert (Hl : forall q, leaf q = true -> internal_failure q = false)
    by (intros [| | |]; intros H; try discriminate H; reflexivity).
  assert (Hh : forall q, halted_chain q = true -> internal_failure q = false).
  { intros [| |q []|]; intros H; try discriminate H; try reflexivity.
    simpl in *. destruct q; try discriminate H; reflexivity. }
  induction p as [r| |q k IH|ps IH] using proc_ind'; intros H; try reflexivity.
  - simpl in H.
    destruct k; try discriminate H; simpl;
      try (apply Hl in H); try (apply Hh in H);
      try (destruct q as [[]| | |]; auto; discriminate H).
    apply andb_prop in H as [H1 H2].
    destruct q as [[v|]| | |]; auto; try discriminate H1.
    simpl in H2. rewrite H2. reflexivity.
  - simpl in *. induction IH as [|p ps Hp _ IHps]; [reflexivity|].
    simpl in *. apply andb_prop in H as [H1 H2].
    rewrite Hp, IHps; auto.
Qed.

Lemma orderly_sound p : orderly p = true -> internal_failure p = false.
Proof.
  intros H. destruct p as [r| |q k|ps]; try (apply calm_sound; exact H).
  destruct k; try (apply calm_sound; exact H).
  destruct q as [[]| |q1 k1|ps1]; try discriminate H; try reflexivity;
    try (apply (calm_sound (All ps1)); exact H).
  change (internal_failure (Then q1 k1) = false).
  destruct k1; try discriminate H; try (apply calm_sound; exact H).
  simpl in *. destruct q1 as [[]| | |]; try discriminate H; try reflexivity;
    apply (calm_sound _ H).
Qed.

Lemma limit_above_zero l :
  is_NaN l = false -> num_lt l (Fin 1) = false -> num_le l (num_of_Z 0) = false.
Proof.
  destruct l as [| |q|]; simpl; try discriminate; auto.
  intros _ H. apply negb_false_iff, Qle_bool_iff in H.
  apply not_true_iff_false. intros H0. apply Qle_bool_iff in H0.
  unfold inject_Z in H0. lra.
Qed.

Section Orderly.

Variable StringToNumber : string -> number.
Variable prog : program.
Variable depth : nat.

Abbreviation waiting := (waiting StringToNumber).
Abbreviation tidy := (tidy StringToNumber).
Abbreviation step := (step StringToNumber prog depth).
Abbreviation exec := (exec StringToNumber prog depth).
Abbreviation constructor := (constructor StringToNumber).

Lemma reachable_tidy options w0 ls w :
  constructor options = Normal w0 -> exec ls w0 = Some w -> tidy w.
Proof.
  intros Hc He.
  apply (exec_tidy StringToNumber prog depth ls w0 w
           (constructor_tidy StringToNumber options w0 Hc) He).
Qed.




Lemma step_exact l w w' :
  tidy w -> step l w = Some w' ->
  dequeued (history w) ≡ₚ finished (history w) ++ all_wrappers (pending w) /\
  Z.of_nat (length (all_wrappers (pending w))) = _inProgressCount (self w) ->
  dequeued (history w') ≡ₚ finished (history w') ++ all_wrappers (pending w') /\
  Z.of_nat (length (all_wrappers (pending w'))) = _inProgressCount (self w').
Proof.
  intros Ht Hs [Hd Hn].
  destruct (step_tidy StringToNumber prog depth l w w' Ht Hs) as [_ Ha].
  destruct (step_moves StringToNumber prog depth l w w' Hs) as [kd Hm].
  pose proof (moves_dequeued _ _ _ _ _ _ Hm) as Hdq.
  pose proof (moves_finished _ _ _ _ _ _ Hm) as Hfin.
  destruct Hm as [_ _ Hc _ Hw _ _]. rewrite Hdq, Hfin, Hc.
  pose proof Hw as Hlen.
  destruct kd as [|x|x|x]; apply Permutation_length in Hlen; simpl in Hlen.
  - rewrite !app_nil_r. split; [|lia].
    rewrite Hd. apply Permutation_app_head. symmetry. exact Hw.
  - rewrite app_nil_r. split; [|lia].
    rewrite Hd, <- app_assoc. apply Permutation_app_head.
    rewrite Hw. symmetry. apply Permutation_cons_append.
  - rewrite app_nil_r. split; [|lia].
    rewrite Hd, <- app_assoc. apply Permutation_app_head. exact Hw.
  - exfalso. unfold accounted in Ha. rewrite Hfin, app_nil_r in Ha. lia.
Qed.

Lemma exec_exact ls : forall w w',
  tidy w -> exec ls w = Some w' ->
  dequeued (history w) ≡ₚ finished (history w) ++ all_wrappers (pending w) /\
  Z.of_nat (length (all_wrappers (pending w))) = _inProgressCount (self w) ->
  dequeued (history w') ≡ₚ finished (history w') ++ all_wrappers (pending w') /\
  Z.of_nat (length (all_wrappers (pending w'))) = _inProgressCount (self w').
Proof.
  induction ls as [|l ls IH]; intros w w' Ht He Hx; simpl in He.
  - injection He as <-. exact Hx.
  - destruct (step l w) as [w1|] eqn:Hs; [|discriminate].
    destruct (step_tidy StringToNumber prog depth l w w1 Ht Hs) as [Ht1 _].
    apply (IH w1 w' Ht1 He). apply (step_exact l w w1 Ht Hs Hx).
Qed.



End Orderly.






(** ** Limits that are not whole numbers, and a veto that halts *)

Section Limits.

Variable StringToNumber : string -> number.
Variable prog : program.
Variable depth : nat.

Abbreviation reenter := (reenter_at prog depth).
Abbreviation react := (react StringToNumber prog depth).
Abbreviation exec := (exec StringToNumber prog depth).
Abbreviation settle := (settle StringToNumber prog depth).
Abbreviation constructor := (constructor StringToNumber).
Abbreviation waiting := (waiting StringToNumber).
Abbreviation _evaluateQueue :=
  (_evaluateQueue StringToNumber prog (reenter_at prog depth)).
Abbreviation next_call := (next_call prog).

(** When the queue is waiting, [_evaluateQueue] takes the head of the
    queue. *)
Lemma evaluateQueue_takes w :
  waiting w ->
  _inProgressCount (self (_evaluateQueue w).2) = (_inProgressCount (self w) + 1)%Z /\
  exists x q, _queue (self w) = x :: q /\
    dequeued (history (_evaluateQueue w).2) = dequeued (history w) ++ [x].
Proof.
  intros Hw.
  destruct (evaluateQueue_cases StringToNumber prog _
              (reenter_at_evolve prog depth) w) as [Heq|Hent].
  - exfalso.
    assert (Hw' : waiting (_evaluateQueue w).2) by (rewrite Heq; exact Hw).
    apply evaluateQueue_wakes with (1 := reenter_at_ext _ _ _) in Hw'.
    rewrite Heq in Hw'. lia.
  - destruct Hent as (x & q & w2 & P & _ & Hq & [_ Hn _ (evs & He & Hs) _ _] & _ & ->).
    split; [simpl; rewrite Hn; reflexivity|].
    exists x, q. split; [exact Hq|]. simpl. rewrite He. simpl.
    rewrite !dequeued_app, (quiet_dequeued _ _ Hs). simpl.
    rewrite app_nil_r. reflexivity.
Qed.

(** A limit that is not a whole number: the count of items in progress
    stays below the limit plus one, and an item is taken whenever the count
    is below the limit, so that the count can exceed the limit by less than
    one. *)
Theorem fractional_limit_admits_one_more
    (options : option Options) (w0 w : world) (ls : list label) (q : Q) :
  constructor options = Normal w0 ->
  exec ls w0 = Some w ->
  ToNumber StringToNumber (concurrencyLimit (_options (self w0))) = Fin q ->
  (1 <= q)%Q /\
  (inject_Z (_inProgressCount (self w)) < q + 1)%Q /\
  (_halted (self w) = false -> _paused (self w) = false ->
   _queue (self w) <> [] ->
   (inject_Z (_inProgressCount (self w)) < q)%Q ->
   _inProgressCount (self (_evaluateQueue w).2)
   = (_inProgressCount (self w) + 1)%Z).
Proof.
  intros Hc He Hl.
  pose proof (exec_consistent StringToNumber prog depth ls w0 w
                (constructor_consistent StringToNumber options w0 Hc) He)
    as [_ _ _ Hlim].
  pose proof (exec_options StringToNumber prog depth ls w0 w He) as Ho.
  assert (H1 : (1 <= q)%Q).
  { apply constructor_Normal in Hc as (opts & Hv & ->). simpl in Hl.
    apply validateOptions_Normal in Hv as (_ & _ & Hlt & _).
    rewrite Hl in Hlt. simpl in Hlt.
    apply negb_false_iff, Qle_bool_iff in Hlt. exact Hlt. }
  split; [exact H1|]. split.
  - destruct Hlim as [Hz|Hle].
    + assert (inject_Z (_inProgressCount (self w)) <= inject_Z 0)%Q
        by (rewrite <- Zle_Qle; exact Hz).
      unfold inject_Z at 2 in H. lra.
    + rewrite Ho, Hl in Hle. simpl in Hle.
      apply not_true_iff_false in Hle. rewrite Qle_bool_iff in Hle.
      apply Qnot_le_lt in Hle.
      unfold Z.sub in Hle. rewrite inject_Z_plus in Hle.
      assert (Hm : (inject_Z (-1) == -1)%Q) by reflexivity.
      rewrite Hm in Hle. lra.
  - intros Hh Hp Hq Hlt. apply evaluateQueue_takes.
    split; [|exact Hq]. split; [exact Hh|]. split; [exact Hp|].
    rewrite Ho, Hl. simpl. apply not_true_iff_false.
    rewrite Qle_bool_iff. lra.
Qed.

(** A [beforeItemProcessed] callback that returns [false] or HALT: the queue
    is halted, with that callback named in the reason; the item that was
    taken is not launched, and its chain resolves up to the wrapper, which
    counts it as completed. *)
Theorem halting_before_item_skips_it
    (x v r : value) (fh : fnid) (w : world) :
  (is_false v || is_str BEFORE_CALLBACK_VALS.HALT v) = true ->
  _halted (self w) = false ->
  _callbacks (self w) !! "halted" = Some (VFun fh) ->
  let reason :=
    WorkQueueHaltData (VStr HALT_REASONS.CALLBACKRETVAL) VUndefined
                      (VStr "beforeItemProcessed") in
  next_call fh reason (with_self (set_halted true) w) = Behaviour [] (Returns r) ->
  is_thenable r = false ->
  settle 5 (Then (Then (Then (Then (Settled (Res v))
                                   (KCallHandler "beforeItemProcessed"))
                             (KRetrieveBefore x))
                       KProcessRetrieved)
                 (KWrapper x)) w
  = (Then (Settled (Res VUndefined)) (KWrapper x),
     record_call "halted" fh reason (with_self (set_halted true) w)).
Proof.
  intros Hv Hh Hcb reason Hb Hr.
  assert (H1 : react (KCallHandler "beforeItemProcessed") (Res v) w =
               (Then (Then (Settled (Res VUndefined)) KHalt) (KSettleWith v),
                record_call "halted" fh reason (with_self (set_halted true) w))).
  { unfold_react. cbn [run_kont]. rewrite Hv, bind_run.
    fold reason. rewrite halt_run by exact Hh.
    rewrite (onHalted_run _ _ _ fh) by exact Hcb.
    fold (next_call fh reason (with_self (set_halted true) w)).
    rewrite Hb. cbn [result effects fst snd mret M_ret]. rewrite Hr.
    reflexivity. }
  assert (Hskip : (is_str BEFORE_CALLBACK_VALS.SKIP v
                   || is_str BEFORE_CALLBACK_VALS.HALT v || is_false v) = true).
  { apply orb_prop in Hv as [Hv|Hv]; rewrite Hv;
      rewrite ?orb_true_r; reflexivity. }
  erewrite settle_step; [|reflexivity|cbn_pstep; rewrite H1; reflexivity].
  erewrite settle_step; [|reflexivity|reflexivity].
  erewrite settle_step; [|reflexivity|reflexivity].
  erewrite settle_step;
    [|reflexivity|cbn_pstep; unfold_react; cbn [run_kont]; rewrite Hskip; reflexivity].
  erewrite settle_step; [|reflexivity|reflexivity].
  reflexivity.
Qed.

End Limits.

(** With the limit one and a half, two tasks are in progress. *)
Lemma fractional_limit_admits_one_more_witness :
  let w := Demo.play (firstn 8 Demo.two_of_three) Demo.limit_one_and_a_half in
  _inProgressCount (self w) = 2%Z /\
  (1 <= 3 # 2)%Q /\
  (inject_Z (_inProgressCount (self w)) < (3 # 2) + 1)%Q.
Proof.
  intros w. split; [vm_compute; reflexivity|].
  destruct (fractional_limit_admits_one_more Demo.numerals Demo.code Demo.nesting
              (Some {| concurrencyLimit := VNum (Fin (3 # 2));
                       processor := VUndefined |})
              Demo.limit_one_and_a_half w (firstn 8 Demo.two_of_three) (3 # 2))
    as (H1 & H2 & _).
  - vm_compute. reflexivity.
  - vm_compute. reflexivity.
  - vm_compute. reflexivity.
  - split; [exact H1|exact H2].
Defined.

(** HALT returned for task 1, with a [halted] callback that only looks. *)
Lemma halting_before_item_skips_it_witness :
  let w := Demo.play [LApi (COn (VStr "halted") (VFun 6))] (Demo.fresh None) in
  let reason :=
    WorkQueueHaltData (VStr HALT_REASONS.CALLBACKRETVAL) VUndefined
                      (VStr "beforeItemProcessed") in
  settle Demo.numerals Demo.code Demo.nesting 5
    (Then (Then (Then (Then (Settled (Res (VStr BEFORE_CALLBACK_VALS.HALT)))
                            (KCallHandler "beforeItemProcessed"))
                      (KRetrieveBefore (VFun 1)))
                KProcessRetrieved)
          (KWrapper (VFun 1))) w
  = (Then (Settled (Res VUndefined)) (KWrapper (VFun 1)),
     record_call "halted" 6 reason (with_self (set_halted true) w)).
Proof.
  intros w reason.
  apply (halting_before_item_skips_it Demo.numerals Demo.code Demo.nesting
           (VFun 1) (VStr BEFORE_CALLBACK_VALS.HALT) VUndefined 6 w);
    vm_compute; reflexivity.
Defined.

(** * The life of one item *)

Section LifeCycle.

Variable StringToNumber : string -> number.
Variable prog : program.
Variable depth : nat.

Abbreviation reenter := (reenter_at prog depth).
Abbreviation react := (react StringToNumber prog depth).
Abbreviation settle := (settle StringToNumber prog depth).
Abbreviation _evaluateQueue :=
  (_evaluateQueue StringToNumber prog (reenter_at prog depth)).
Abbreviation _callHandler := (_callHandler prog (reenter_at prog depth)).
Abbreviation waiting := (waiting StringToNumber).

(** The callback [g] only looks: it calls nothing and returns nothing. *)
Lemma callHandler_looks name parameter g w :
  _callbacks (self w) !! name = Some (VFun g) ->
  (forall n a, prog g n a = Behaviour [] (Returns VUndefined)) ->
  _callHandler name parameter w =
  (Then (Settled (Res VUndefined)) (KCallHandler name),
   record_call name g parameter w).
Proof.
  intros Hcb Hg. rewrite (callHandler_run _ _ _ _ g) by exact Hcb. cbv zeta.
  unfold next_call. rewrite Hg. reflexivity.
Qed.

Lemma react_looked name w :
  react (KCallHandler name) (Res VUndefined) w = (Settled (Res VUndefined), w).
Proof. reflexivity. Qed.

(** The life of one item.  On a queue that is waiting with the task [f]
    alone in it, nothing in progress, and callbacks that only look,
    [_evaluateQueue] and the fifteen reactions of the chain it leaves make
    these calls, in this order: [queueSizeChange] with 0, [queueEmpty],
    [beforeItemProcessed], the task, [itemProcessed] with what the promise
    of the task resolved to, and, the item being counted as completed,
    [noWork]. *)
Theorem life_of_an_item
    (f fq fe fb fp fn : fnid) (r : value) (w : world) :
  waiting w ->
  _queue (self w) = [VFun f] ->
  _inProgressCount (self w) = 0%Z ->
  _callbacks (self w) !! "queueSizeChange" = Some (VFun fq) ->
  _callbacks (self w) !! "queueEmpty" = Some (VFun fe) ->
  _callbacks (self w) !! "beforeItemProcessed" = Some (VFun fb) ->
  _callbacks (self w) !! "itemProcessed" = Some (VFun fp) ->
  _callbacks (self w) !! "noWork" = Some (VFun fn) ->
  (forall g, In g [fq; fe; fb; fp; fn] ->
     forall n a, prog g n a = Behaviour [] (Returns VUndefined)) ->
  (forall n a, prog f n a = Behaviour [] (Returns (VPromise Resolves r))) ->
  is_false r = false ->
  exists p w',
    pending (_evaluateQueue w).2 = pending w ++ [p] /\
    settle 15 p (set_pending (pending w) (_evaluateQueue w).2)
      = (Settled (Res VUndefined), w') /\
    history w' =
      history w ++
      [EvDequeue (VFun f);
       EvCall "queueSizeChange" fq (VNum (num_of_Z 0));
       EvCall "queueEmpty" fe VUndefined;
       EvCall "beforeItemProcessed" fb VUndefined;
       EvCall "item" f VUndefined;
       EvCall "itemProcessed" fp r;
       EvComplete (VFun f);
       EvCall "noWork" fn VUndefined] /\
    _queue (self w') = [] /\
    _inProgressCount (self w') = 0%Z /\
    _halted (self w') = false /\
    immediates w' = S (S (immediates w)).
Proof.
  intros [(Hh & Hp & Hl) _] Hq Hn Hfq Hfe Hfb Hfp Hfn Hlook Hf Hr.
  assert (Lq := Hlook fq ltac:(simpl; tauto)).
  assert (Le := Hlook fe ltac:(simpl; tauto)).
  assert (Lb := Hlook fb ltac:(simpl; tauto)).
  assert (Lp := Hlook fp ltac:(simpl; tauto)).
  assert (Ln := Hlook fn ltac:(simpl; tauto)).
  clear Hlook.
  (* [_evaluateQueue] *)
  set (w0 := with_self (fun s => set_inProgressCount (_inProgressCount s + 1)%Z s)
               (with_self (set_queue []) w)).
  set (w1 := set_history (history w0 ++ [EvDequeue (VFun f)]) w0).
  set (w2 := record_call "queueSizeChange" fq (VNum (num_of_Z 0)) w1).
  set (w3 := record_call "queueEmpty" fe VUndefined w2).
  set (c := fun name => Then (Settled (Res VUndefined)) (KCallHandler name)).
  set (p := Then (Then (Then (Then (All [c "queueSizeChange"; c "queueEmpty"])
                                   (KRetrieveSizeChanged (VFun f)))
                             KProcessRetrieved)
                       (KWrapper (VFun f)))
                 KEvaluate).
  assert (He : _evaluateQueue w =
               (tt, set_immediates (S (immediates w3))
                      (set_pending (pending w3 ++ [p]) w3))).
  { unfold_evaluateQueue. rewrite bind_run. cbn [get fst snd].
    rewrite Hh, Hp, Hl, Hq. cbn [orb length Nat.eqb].
    unfold_wrapper. rewrite !bind_run. cbn [get fst snd].
    assert (Hs : shift w = (VFun f, with_self (set_queue []) w))
      by (unfold shift; rewrite Hq; reflexivity).
    rewrite !Hs. cbn [modify emit fst snd mret M_ret].
    fold w0. fold w1.
    unfold_onQueueSizeChange. rewrite !bind_run. cbn [getQueueSize fst snd].
    change (length (_queue (self w1))) with 0. cbn [Nat.eqb].
    change (Z.of_nat 0) with 0%Z.
    rewrite (callHandler_looks "queueSizeChange" _ fq w1 Hfq Lq). cbn [fst snd].
    fold w2. rewrite !bind_run.
    rewrite (callHandler_looks "queueEmpty" _ fe w2 Hfe Le).
    cbn [fst snd mret M_ret detach setImmediate_evaluate modify].
    rewrite Hq. reflexivity. }
  exists p. eexists. rewrite He. cbn [snd].
  split; [reflexivity|].
  set (ws := set_pending (pending w) _).
  assert (Hjoin : forall k (wa : world),
            pstep StringToNumber prog depth []
              (Then (All [Settled (Res VUndefined); Settled (Res VUndefined)]) k) wa
            = Some (Then (Settled (Res (VObject 0))) k,
                    set_pending (pending wa ++ []) wa))
    by reflexivity.
  split.
  - (* the two callbacks of [_onQueueSizeChange], and [Promise.all] *)
    erewrite settle_step;
      [|reflexivity
       |cbn [pstep step_nth join first_rejection rejection forallb is_resolved andb p c];
        rewrite react_looked; reflexivity].
    erewrite settle_step;
      [|reflexivity
       |cbn [pstep step_nth join first_rejection rejection forallb is_resolved andb p c];
        rewrite react_looked; reflexivity].
    erewrite settle_step;
      [|reflexivity
       |cbn [pstep step_nth join first_rejection rejection forallb is_resolved andb p c];
        reflexivity].
    (* [beforeItemProcessed] *)
    match goal with |- settle _ _ ?wa = _ => set (w4 := wa) end.
    erewrite settle_step;
      [|reflexivity
       |cbn_pstep; unfold_react; cbn [run_kont]; rewrite bind_run;
        unfold _onBeforeItemProcessed;
        rewrite (callHandler_looks "beforeItemProcessed" VUndefined fb w4 Hfb Lb);
        cbn [fst snd mret M_ret]; reflexivity].
    erewrite settle_step; [|reflexivity|cbn_pstep; rewrite react_looked; reflexivity].
    (* the task *)
    match goal with |- settle _ _ ?wa = _ => set (w5 := wa) end.
    erewrite settle_step;
      [|reflexivity
       |cbn_pstep; unfold_react; cbn [run_kont is_str is_false orb];
        unfold_launch; cbn [is_function]; rewrite !bind_run, call_run;
        unfold next_call; rewrite Hf;
        cbn [result effects fst snd mret M_ret is_thenable];
        cbn_after_effects; reflexivity].
    erewrite settle_step;
      [|reflexivity
       |cbn_pstep; unfold_react; cbn [run_kont is_nullish of_value mret M_ret];
        reflexivity].
    (* [itemProcessed] *)
    match goal with |- settle _ _ ?wa = _ => set (w6 := wa) end.
    erewrite settle_step;
      [|reflexivity
       |cbn_pstep; unfold_react; cbn [run_kont]; rewrite bind_run;
        unfold _onItemProcessed;
        rewrite (callHandler_looks "itemProcessed" r fp w6 Hfp Lp);
        cbn [fst snd mret M_ret]; reflexivity].
    erewrite settle_step; [|reflexivity|cbn_pstep; rewrite react_looked; reflexivity].
    erewrite settle_step;
      [|reflexivity
       |cbn_pstep; unfold_react; cbn [run_kont]; rewrite Hr; reflexivity].
    (* the wrapper *)
    match goal with |- settle _ _ ?wa = _ => set (w7 := wa) end.
    set (w8 := retire (VFun f) w7).
    set (w9 := record_call "noWork" fn VUndefined w8).
    assert (Hw : react (KWrapper (VFun f)) (Res VUndefined) w7 =
                 (Then (All [Then (Settled (Res VUndefined)) (KCallHandler "noWork")])
                       KSettle, w9)).
    { unfold_react. cbn [run_kont]. rewrite completed_run. cbv zeta. fold w8.
      assert (Hzero : _inProgressCount (self w8) = 0%Z)
        by (simpl; rewrite Hn; reflexivity).
      rewrite Hzero. change (_queue (self w8)) with (@nil value).
      change (Z.eqb 0 0 && Nat.eqb 0 (length (@nil value))) with true.
      cbn [push_if]. rewrite bind_run. unfold _onNoWork.
      rewrite (callHandler_looks "noWork" VUndefined fn w8 Hfn Ln).
      cbn [fst snd mret M_ret]. fold w9. rewrite after_notices_run. cbv zeta.
      assert (H2 : forall hook,
                push_if (Z.eqb 0 (_inProgressCount (self w9)) && _halted (self w9))
                        hook w9 = ([], w9)).
      { intros hook. change (_halted (self w9)) with (_halted (self w)).
        rewrite Hh, andb_false_r. reflexivity. }
      rewrite H2. cbn [fst snd].
      assert (H3 : forall hook,
                push_if (Z.eqb 0 (_inProgressCount (self w9)) && _paused (self w9))
                        hook w9 = ([], w9)).
      { intros hook. change (_paused (self w9)) with (_paused (self w)).
        rewrite Hp, andb_false_r. reflexivity. }
      rewrite H3. reflexivity. }
    erewrite settle_step; [|reflexivity|cbn_pstep; rewrite Hw; reflexivity].
    erewrite settle_step;
      [|reflexivity
       |cbn [pstep step_nth join first_rejection rejection forallb is_resolved andb];
        rewrite react_looked; reflexivity].
    erewrite settle_step;
      [|reflexivity
       |cbn [pstep step_nth join first_rejection rejection forallb is_resolved andb];
        reflexivity].
    erewrite settle_step; [|reflexivity|reflexivity].
    erewrite settle_step; [|reflexivity|reflexivity].
    reflexivity.
  - split; [simpl; rewrite <- !app_assoc; reflexivity|].
    split; [reflexivity|].
    split; [simpl; rewrite Hn; reflexivity|].
    split; [exact Hh|reflexivity].
Qed.

End LifeCycle.

(** Task 1 on a queue whose callbacks only look. *)
Lemma life_of_an_item_witness :
  let w := Demo.watched_task in
  exists p w',
    pending (_evaluateQueue Demo.numerals Demo.code
               (reenter_at Demo.code Demo.nesting) w).2 = pending w ++ [p] /\
    settle Demo.numerals Demo.code Demo.nesting 15 p
      (set_pending (pending w)
         (_evaluateQueue Demo.numerals Demo.code
            (reenter_at Demo.code Demo.nesting) w).2)
      = (Settled (Res VUndefined), w') /\
    history w' =
      history w ++
      [EvDequeue (VFun 1);
       EvCall "queueSizeChange" 6 (VNum (num_of_Z 0));
       EvCall "queueEmpty" 6 VUndefined;
       EvCall "beforeItemProcessed" 6 VUndefined;
       EvCall "item" 1 VUndefined;
       EvCall "itemProcessed" 6 (VBool true);
       EvComplete (VFun 1);
       EvCall "noWork" 6 VUndefined] /\
    _queue (self w') = [] /\
    _inProgressCount (self w') = 0%Z /\
    _halted (self w') = false /\
    immediates w' = S (S (immediates w)).
Proof.
  intros w.
  apply (life_of_an_item Demo.numerals Demo.code Demo.nesting
           1 6 6 6 6 6 (VBool true) w);
    try (vm_compute; reflexivity).
  - vm_compute. repeat split; discriminate.
  - intros g Hg n a. simpl in Hg.
    repeat (destruct Hg as [<-|Hg]; [reflexivity|]). destruct Hg.
Defined.
